(** * Chrono Farmer: growth, travel, store and event bus

    A shallow embedding of the simulation core of the game, taken from
    [js/systems/PlantSystem.js], [js/systems/TimeTravelSystem.js], the
    [EventBus] class, the [StateManager] class and the plot handlers of
    the [ChronoFarmer] class, followed by the properties of the
    specification that concern them and by further laws of the code.

    Conventions of the embedding.
    - JavaScript numbers are exact rationals ([Q]) where the code computes
      with fractions (water, nutrients, progress) and integers ([Z]) where
      the code holds integers (timestamps and durations in milliseconds,
      stage counters).  No rounding is modelled: the laws on the floor of
      a product and on the cooldown are stated as bounds and orderings,
      not as exact values, and the one scenario with concrete numbers is
      also evaluated in binary64 ([Float64]).
    - [Date.now()] and [Math.random()] are arguments of the operation that
      reads them.
    - [eventBus.emit] appends to a trace of events.  Listeners run inside
      the call; those that live in another system are not part of the
      emitting system's model.  Where they write what a law speaks of (the
      achievement system pays rewards into the inventory on
      [plant:planted] and on [timetravel:success]) they are a parameter of
      the law, or the law leaves that part of the store out.
    - The renderer and the audio manager are collaborators outside the
      core; a call into them does not change the modelled state.  Where the
      code catches their exceptions ([travelTo]) the point of the throw is
      an argument. *)

From Stdlib Require Import ZArith QArith Qround Qabs Qminmax.
From Stdlib Require Import String Ascii List Bool Lia Lqa Floats.
From stdpp Require Import gmap strings list.
Import ListNotations.

Close Scope Q_scope.
Local Open Scope Z_scope.

(** ** Numbers *)

Definition Qltb (x y : Q) : bool := negb (Qle_bool y x).
Definition Qgtb (x y : Q) : bool := Qltb y x.
Definition Qgeb (x y : Q) : bool := Qle_bool y x.

(** ** Names

    The store is a tree of plain objects that the systems read and write
    by dotted paths.  A path is cut at every dot, and a lookup
    [obj[name]] finds, where the object has no property of its own under
    that name, the member that every object inherits from
    [Object.prototype].  The inventories are finite maps below, which is
    what the objects of the store are for the names that have no dot and
    that [Object.prototype] does not carry. *)
Definition objectPrototypeNames : list string :=
  ["constructor"; "hasOwnProperty"; "isPrototypeOf"; "propertyIsEnumerable";
   "toLocaleString"; "toString"; "valueOf"; "__proto__";
   "__defineGetter__"; "__defineSetter__"; "__lookupGetter__";
   "__lookupSetter__"]%string.

Definition inherited (name : string) : bool :=
  existsb (String.eqb name) objectPrototypeNames.

Fixpoint hasDot (name : string) : bool :=
  match name with
  | EmptyString => false
  | String c rest => Ascii.eqb c "." || hasDot rest
  end.

(** A name that an object of the store holds as one key of its own, if
    it holds it at all. *)
Definition ownName (name : string) : bool :=
  negb (inherited name) && negb (hasDot name).

(** * PlantSystem *)

Module PlantSystem.

(** The plot schema of the store: [state] ranges over the five names the
    schema lists. *)
Inductive PlotState := SEmpty | SPlanted | SGrowing | SReady | SHarvested.

Definition PlotState_eqb (a b : PlotState) : bool :=
  match a, b with
  | SEmpty, SEmpty | SPlanted, SPlanted | SGrowing, SGrowing
  | SReady, SReady | SHarvested, SHarvested => true
  | _, _ => false
  end.

(** [harvestYield]: a number of seeds and an object of resource amounts,
    kept as the list of its entries. *)
Record HarvestYield := {
  hy_seeds : Q;
  hy_resources : list (string * Q)
}.

(** An entry of [window.plantData]. *)
Record PlantData := {
  pd_name : string;
  pd_emoji : string;
  pd_era : string;
  pd_growTime : Z;
  pd_stages : Z;
  pd_harvestYield : option HarvestYield
}.

(** The object stored in [plot.plant]. *)
Record Plant := {
  pl_type : string;
  pl_name : string;
  pl_emoji : string;
  pl_era : string;
  pl_growTime : Z;
  pl_maxStages : Z;
  pl_harvestYield : HarvestYield
}.

(** One element of [farm.plots]. [null] timestamps are [None]. *)
Record Plot := {
  p_id : Z;
  p_plant : option Plant;
  p_state : PlotState;
  p_waterLevel : Q;
  p_nutrients : Q;
  p_plantedAt : option Z;
  p_lastWatered : option Z;
  p_growthStage : Z;
  p_maxGrowthStage : Z
}.

(** A value of the [activePlants] map: the plant spread together with the
    growth fields copied at planting time. *)
Record ActivePlant := {
  ap_plant : Plant;
  ap_plotId : Z;
  ap_plantedAt : option Z;
  ap_lastWatered : option Z;
  ap_growthStage : Z;
  ap_waterLevel : Q;
  ap_nutrients : Q
}.

(** The [updates] object handed to [updatePlot]: a field is [Some v] when
    the object literal has that key. *)
Record PlotUpdates := {
  u_plant : option (option Plant);
  u_state : option PlotState;
  u_plantedAt : option (option Z);
  u_lastWatered : option (option Z);
  u_growthStage : option Z;
  u_maxGrowthStage : option Z;
  u_waterLevel : option Q;
  u_nutrients : option Q
}.

Definition no_updates : PlotUpdates :=
  {| u_plant := None; u_state := None; u_plantedAt := None;
     u_lastWatered := None; u_growthStage := None; u_maxGrowthStage := None;
     u_waterLevel := None; u_nutrients := None |}.

(** [{ ...plot, ...updates }] *)
Definition spread (plot : Plot) (u : PlotUpdates) : Plot :=
  {| p_id := p_id plot;
     p_plant := default (p_plant plot) (u_plant u);
     p_state := default (p_state plot) (u_state u);
     p_waterLevel := default (p_waterLevel plot) (u_waterLevel u);
     p_nutrients := default (p_nutrients plot) (u_nutrients u);
     p_plantedAt := default (p_plantedAt plot) (u_plantedAt u);
     p_lastWatered := default (p_lastWatered plot) (u_lastWatered u);
     p_growthStage := default (p_growthStage plot) (u_growthStage u);
     p_maxGrowthStage := default (p_maxGrowthStage plot) (u_maxGrowthStage u) |}.

Record Rewards := {
  rw_seeds : Q;
  rw_resources : list (string * Q)
}.

(** What the system emits on the bus. *)
Inductive Event :=
| EvPlantError (plotId : Z) (error : string)
| EvPlanted (plotId : Z) (plant : Plant) (timestamp : Z)
| EvWatered (plotId : Z) (waterLevel : Q) (timestamp : Z)
| EvHarvested (plotId : Z) (plant : Plant) (rewards : Rewards) (timestamp : Z)
| EvNotification (plantName : string)
| EvGrowth (plotId : Z) (newStage : Z) (timestamp : Z)
| EvReady (plotId : Z) (timestamp : Z)
| EvAccelerated (plotId : Z) (progress : Q) (duration : Z) (timestamp : Z).

Record GrowthConfig := {
  updateInterval : Q;
  waterDecayRate : Q;
  nutrientDecayRate : Q;
  growthMultiplier : Q
}.

Record Config := {
  enableWatering : bool;
  enableNutrients : bool
}.

(** The system together with the parts of the store it reads and writes:
    [farm.plots], [player.inventory.seeds], [player.inventory.resources]. *)
Record State := {
  plots : list Plot;
  seeds : gmap string Q;
  resources : gmap string Q;
  activePlants : list (Z * ActivePlant);
  growthConfig : GrowthConfig;
  config : Config;
  updateTimer : Q;
  emitted : list Event
}.

Definition set_plots (s : State) (ps : list Plot) : State :=
  {| plots := ps; seeds := seeds s; resources := resources s;
     activePlants := activePlants s; growthConfig := growthConfig s;
     config := config s; updateTimer := updateTimer s; emitted := emitted s |}.

Definition set_seeds (s : State) (m : gmap string Q) : State :=
  {| plots := plots s; seeds := m; resources := resources s;
     activePlants := activePlants s; growthConfig := growthConfig s;
     config := config s; updateTimer := updateTimer s; emitted := emitted s |}.

Definition set_resources (s : State) (m : gmap string Q) : State :=
  {| plots := plots s; seeds := seeds s; resources := m;
     activePlants := activePlants s; growthConfig := growthConfig s;
     config := config s; updateTimer := updateTimer s; emitted := emitted s |}.

Definition set_activePlants (s : State) (a : list (Z * ActivePlant)) : State :=
  {| plots := plots s; seeds := seeds s; resources := resources s;
     activePlants := a; growthConfig := growthConfig s;
     config := config s; updateTimer := updateTimer s; emitted := emitted s |}.

Definition set_updateTimer (s : State) (t : Q) : State :=
  {| plots := plots s; seeds := seeds s; resources := resources s;
     activePlants := activePlants s; growthConfig := growthConfig s;
     config := config s; updateTimer := t; emitted := emitted s |}.

Definition set_growthMultiplier (s : State) (m : Q) : State :=
  {| plots := plots s; seeds := seeds s; resources := resources s;
     activePlants := activePlants s;
     growthConfig :=
       {| updateInterval := updateInterval (growthConfig s);
          waterDecayRate := waterDecayRate (growthConfig s);
          nutrientDecayRate := nutrientDecayRate (growthConfig s);
          growthMultiplier := m |};
     config := config s; updateTimer := updateTimer s; emitted := emitted s |}.

(** [eventBus.emit]: the trace grows at its end. *)
Definition emit (s : State) (e : Event) : State :=
  {| plots := plots s; seeds := seeds s; resources := resources s;
     activePlants := activePlants s; growthConfig := growthConfig s;
     config := config s; updateTimer := updateTimer s;
     emitted := emitted s ++ [e] |}.

(** *** The [activePlants] map, in insertion order *)

Fixpoint Map_get {A} (k : Z) (m : list (Z * A)) : option A :=
  match m with
  | [] => None
  | (k', v) :: rest => if k' =? k then Some v else Map_get k rest
  end.

Fixpoint Map_set {A} (k : Z) (v : A) (m : list (Z * A)) : list (Z * A) :=
  match m with
  | [] => [(k, v)]
  | (k', v') :: rest =>
      if k' =? k then (k', v) :: rest else (k', v') :: Map_set k v rest
  end.

Fixpoint Map_delete {A} (k : Z) (m : list (Z * A)) : list (Z * A) :=
  match m with
  | [] => []
  | (k', v') :: rest =>
      if k' =? k then rest else (k', v') :: Map_delete k rest
  end.

Section WithCatalog.

(** [window.plantData]: the entries of the catalogue.  For a species
    that is none of them [window.plantData[seedType]] is [undefined],
    unless the name is one that [Object.prototype] carries
    ([inherited]). *)
Variable plantData : gmap string PlantData.

Definition getPlantData (seedType : string) : option PlantData :=
  plantData !! seedType.

(** [plots.find(p => p.id === plotId)] *)
Definition getPlot (s : State) (plotId : Z) : option Plot :=
  List.find (fun p => p_id p =? plotId) (plots s).

(** [plots.findIndex], then the spread at that index. *)
Fixpoint updateAt (ps : list Plot) (plotId : Z) (u : PlotUpdates) : list Plot :=
  match ps with
  | [] => []
  | p :: rest =>
      if p_id p =? plotId then spread p u :: rest
      else p :: updateAt rest plotId u
  end.

Definition updatePlot (s : State) (plotId : Z) (u : PlotUpdates) : State :=
  set_plots s (updateAt (plots s) plotId u).

Record GrowthResult := {
  newStage : Z;
  stageChanged : bool;
  isReady : bool;
  progress : Q
}.

(** [now - plot.plantedAt]: a [null] timestamp converts to 0. *)
Definition timeSince (now : Z) (t : option Z) : Z := now - default 0 t.

(** [calculateGrowth(plot, plant, now)].  [None] is the [TypeError] of
    reading [growTime] of an unknown species.  The factors are at least
    0.1, so the divisors are non-zero for a non-zero grow time and
    multiplier; outside that domain the language computes with infinities
    where [Q] gives 0. *)
Definition calculateGrowth (s : State) (plot : Plot) (plant : ActivePlant)
    (now : Z) : option GrowthResult :=
  match getPlantData (pl_type (ap_plant plant)) with
  | None => None
  | Some data =>
      let timeSincePlanted := timeSince now (p_plantedAt plot) in
      let waterFactor := Qmax (1 # 10) (p_waterLevel plot / 100) in
      let nutrientFactor := Qmax (1 # 10) (p_nutrients plot / 100) in
      let environmentFactor := (waterFactor * nutrientFactor)%Q in
      let baseGrowTime := inject_Z (pd_growTime data) in
      let adjustedGrowTime :=
        (baseGrowTime /
           (environmentFactor * growthMultiplier (growthConfig s)))%Q in
      let progress := Qmin 1 (inject_Z timeSincePlanted / adjustedGrowTime) in
      let newStage :=
        Qfloor (progress * inject_Z (pl_maxStages (ap_plant plant))) in
      Some {| newStage := newStage;
              stageChanged := p_growthStage plot <? newStage;
              isReady := Qgeb progress 1;
              progress := progress |}
  end.

(** [x || now] on a nullable timestamp: [null] and 0 are both falsy. *)
Definition orNow (t : option Z) (now : Z) : Z :=
  match t with
  | Some v => if v =? 0 then now else v
  | None => now
  end.

(** [plantData.harvestYield || { seeds: 1, resources: {} }] *)
Definition defaultYield : HarvestYield :=
  {| hy_seeds := 1; hy_resources := [] |}.

(** [stateManager.get('player.inventory.seeds.X', 0)] and its sibling for
    resources, for the names of seeds and resources that hold no dot and
    that [Object.prototype] does not carry ([ownName]). *)
Definition seedCountOf (s : State) (seedType : string) : Q :=
  default 0%Q (seeds s !! seedType).

Definition resourceOf (s : State) (resource : string) : Q :=
  default 0%Q (resources s !! resource).

(** [plantSeed(plotId, seedType)] *)
Definition plantSeed (plotId : Z) (seedType : string) (now : Z) (s : State)
    : bool * State :=
  match getPlot s plotId with
  | None => (false, emit s (EvPlantError plotId "Plot ocupado"))
  | Some plot =>
      if negb (PlotState_eqb (p_state plot) SEmpty) then
        (false, emit s (EvPlantError plotId "Plot ocupado"))
      else
        let seedCount := seedCountOf s seedType in
        if Qle_bool seedCount 0 then
          (false, emit s (EvPlantError plotId "Sin semillas"))
        else
          match getPlantData seedType with
          | None => (false, s)
          | Some data =>
              let plant :=
                {| pl_type := seedType;
                   pl_name := pd_name data;
                   pl_emoji := pd_emoji data;
                   pl_era := pd_era data;
                   pl_growTime := pd_growTime data;
                   pl_maxStages := pd_stages data;
                   pl_harvestYield :=
                     default defaultYield (pd_harvestYield data) |} in
              let updates :=
                {| u_plant := Some (Some plant);
                   u_state := Some SPlanted;
                   u_plantedAt := Some (Some now);
                   u_lastWatered := Some (Some now);
                   u_growthStage := Some 0;
                   u_maxGrowthStage := Some (pd_stages data);
                   u_waterLevel := Some 100%Q;
                   u_nutrients := Some 80%Q |} in
              let s1 := updatePlot s plotId updates in
              let s2 :=
                set_activePlants s1
                  (Map_set plotId
                     {| ap_plant := plant; ap_plotId := plotId;
                        ap_plantedAt := Some now; ap_lastWatered := Some now;
                        ap_growthStage := 0; ap_waterLevel := 100%Q;
                        ap_nutrients := 80%Q |}
                     (activePlants s1)) in
              let s3 :=
                set_seeds s2 (<[seedType := (seedCount - 1)%Q]> (seeds s2)) in
              (true, emit s3 (EvPlanted plotId plant now))
          end
  end.

(** [waterPlant(plotId)] *)
Definition waterPlant (plotId : Z) (now : Z) (s : State) : bool * State :=
  match getPlot s plotId with
  | None => (false, s)
  | Some plot =>
      match p_plant plot with
      | None => (false, s)
      | Some _ =>
          if PlotState_eqb (p_state plot) SEmpty then (false, s)
          else
            let newWaterLevel := Qmin 100 (p_waterLevel plot + 30) in
            let updates :=
              {| u_plant := None; u_state := None; u_plantedAt := None;
                 u_lastWatered := Some (Some now); u_growthStage := None;
                 u_maxGrowthStage := None;
                 u_waterLevel := Some newWaterLevel; u_nutrients := None |} in
            let s1 := updatePlot s plotId updates in
            let s2 :=
              match Map_get plotId (activePlants s1) with
              | None => s1
              | Some activePlant =>
                  set_activePlants s1
                    (Map_set plotId
                       {| ap_plant := ap_plant activePlant;
                          ap_plotId := ap_plotId activePlant;
                          ap_plantedAt := ap_plantedAt activePlant;
                          ap_lastWatered := Some now;
                          ap_growthStage := ap_growthStage activePlant;
                          ap_waterLevel := newWaterLevel;
                          ap_nutrients := ap_nutrients activePlant |}
                       (activePlants s1))
              end in
            (true, emit s2 (EvWatered plotId newWaterLevel now))
      end
  end.

(** [calculateHarvestRewards(plant)]; [r1] and [r2] are the two draws of
    [Math.random()], each in [0, 1). *)
Definition calculateHarvestRewards (plant : Plant) (r1 r2 : Q) : Rewards :=
  let baseYield := pl_harvestYield plant in
  let seedBonus := Qfloor (r1 * 2) in
  let resourceBonus := (r2 * (1 # 2) + (3 # 4))%Q in
  {| rw_seeds := (hy_seeds baseYield + inject_Z seedBonus)%Q;
     rw_resources :=
       List.map
         (fun '(resource, amount) =>
            (resource, inject_Z (Qfloor (amount * resourceBonus))))
         (hy_resources baseYield) |}.

(** [Object.entries(n || {})] for a number [n]: a number has no own
    enumerable property, and neither has the empty object that replaces a
    falsy [n]. *)
Definition Object_entries_number (n : Q) : list (string * Q) := [].

(** [applyHarvestRewards(rewards)] *)
Definition applyHarvestRewards (rewards : Rewards) (s : State) : State :=
  let s1 :=
    List.fold_left
      (fun st '(seedType, count) =>
         set_seeds st
           (<[seedType := (seedCountOf st seedType + count)%Q]> (seeds st)))
      (Object_entries_number (rw_seeds rewards)) s in
  List.fold_left
    (fun st '(resource, amount) =>
       set_resources st
         (<[resource := (resourceOf st resource + amount)%Q]> (resources st)))
    (rw_resources rewards) s1.

(** [harvestPlant(plotId)] *)
Definition harvestPlant (plotId : Z) (r1 r2 : Q) (now : Z) (s : State)
    : bool * State :=
  let notReady := (false, emit s (EvPlantError plotId "Planta no lista")) in
  match getPlot s plotId with
  | None => notReady
  | Some plot =>
      match p_plant plot with
      | None => notReady
      | Some plant =>
          if negb (PlotState_eqb (p_state plot) SReady) then notReady
          else
            let rewards := calculateHarvestRewards plant r1 r2 in
            let s1 := applyHarvestRewards rewards s in
            let updates :=
              {| u_plant := Some None; u_state := Some SEmpty;
                 u_plantedAt := Some None; u_lastWatered := Some None;
                 u_growthStage := Some 0; u_maxGrowthStage := Some 0;
                 u_waterLevel := Some 50%Q; u_nutrients := Some 50%Q |} in
            let s2 := updatePlot s1 plotId updates in
            let s3 :=
              set_activePlants s2 (Map_delete plotId (activePlants s2)) in
            let s4 := emit s3 (EvHarvested plotId plant rewards now) in
            (true, emit s4 (EvNotification (pl_name plant)))
      end
  end.

(** The body of the loop of [updatePlants] for one entry of the map.  The
    result carries the entry as the body leaves it and whether the body
    threw (an unknown species in [calculateGrowth]). *)
Definition updatePlantsBody (now : Z) (s : State) (plotId : Z)
    (plant : ActivePlant) : State * ActivePlant * bool :=
  match getPlot s plotId with
  | None => (s, plant, false)
  | Some plot =>
      (* water decay *)
      let '(updates1, plant1, needs1) :=
        if enableWatering (config s) && Qgtb (p_waterLevel plot) 0 then
          let timeSinceWatered := now - orNow (p_lastWatered plot) now in
          let waterDecay :=
            (inject_Z timeSinceWatered / 1000
             * waterDecayRate (growthConfig s))%Q in
          let newWaterLevel := Qmax 0 (p_waterLevel plot - waterDecay) in
          if Qgtb (Qabs (newWaterLevel - p_waterLevel plot)) (1 # 10) then
            ({| u_plant := None; u_state := None; u_plantedAt := None;
                u_lastWatered := None; u_growthStage := None;
                u_maxGrowthStage := None;
                u_waterLevel := Some newWaterLevel; u_nutrients := None |},
             {| ap_plant := ap_plant plant; ap_plotId := ap_plotId plant;
                ap_plantedAt := ap_plantedAt plant;
                ap_lastWatered := ap_lastWatered plant;
                ap_growthStage := ap_growthStage plant;
                ap_waterLevel := newWaterLevel;
                ap_nutrients := ap_nutrients plant |},
             true)
          else (no_updates, plant, false)
        else (no_updates, plant, false) in
      (* nutrient decay *)
      let '(updates2, plant2, needs2) :=
        if enableNutrients (config s) && Qgtb (p_nutrients plot) 0 then
          let timeSincePlanted := now - orNow (p_plantedAt plot) now in
          let nutrientDecay :=
            (inject_Z timeSincePlanted / 1000
             * nutrientDecayRate (growthConfig s))%Q in
          let newNutrients := Qmax 0 (p_nutrients plot - nutrientDecay) in
          if Qgtb (Qabs (newNutrients - p_nutrients plot)) (1 # 10) then
            ({| u_plant := u_plant updates1; u_state := u_state updates1;
                u_plantedAt := u_plantedAt updates1;
                u_lastWatered := u_lastWatered updates1;
                u_growthStage := u_growthStage updates1;
                u_maxGrowthStage := u_maxGrowthStage updates1;
                u_waterLevel := u_waterLevel updates1;
                u_nutrients := Some newNutrients |},
             {| ap_plant := ap_plant plant1; ap_plotId := ap_plotId plant1;
                ap_plantedAt := ap_plantedAt plant1;
                ap_lastWatered := ap_lastWatered plant1;
                ap_growthStage := ap_growthStage plant1;
                ap_waterLevel := ap_waterLevel plant1;
                ap_nutrients := newNutrients |},
             true)
          else (updates1, plant1, needs1)
        else (updates1, plant1, needs1) in
      (* growth *)
      if PlotState_eqb (p_state plot) SPlanted
         || PlotState_eqb (p_state plot) SGrowing then
        match calculateGrowth s plot plant2 now with
        | None => (s, plant2, true)
        | Some growthResult =>
            let '(updates3, plant3, needs3, s3) :=
              if stageChanged growthResult then
                ({| u_plant := u_plant updates2; u_state := u_state updates2;
                    u_plantedAt := u_plantedAt updates2;
                    u_lastWatered := u_lastWatered updates2;
                    u_growthStage := Some (newStage growthResult);
                    u_maxGrowthStage := u_maxGrowthStage updates2;
                    u_waterLevel := u_waterLevel updates2;
                    u_nutrients := u_nutrients updates2 |},
                 {| ap_plant := ap_plant plant2; ap_plotId := ap_plotId plant2;
                    ap_plantedAt := ap_plantedAt plant2;
                    ap_lastWatered := ap_lastWatered plant2;
                    ap_growthStage := newStage growthResult;
                    ap_waterLevel := ap_waterLevel plant2;
                    ap_nutrients := ap_nutrients plant2 |},
                 true,
                 emit s (EvGrowth plotId (newStage growthResult) now))
              else (updates2, plant2, needs2, s) in
            let '(updates4, needs4, s4) :=
              if isReady growthResult
                 && negb (PlotState_eqb (p_state plot) SReady) then
                ({| u_plant := u_plant updates3; u_state := Some SReady;
                    u_plantedAt := u_plantedAt updates3;
                    u_lastWatered := u_lastWatered updates3;
                    u_growthStage := u_growthStage updates3;
                    u_maxGrowthStage := u_maxGrowthStage updates3;
                    u_waterLevel := u_waterLevel updates3;
                    u_nutrients := u_nutrients updates3 |},
                 true,
                 emit s3 (EvReady plotId now))
              else (updates3, needs3, s3) in
            ((if needs4 then updatePlot s4 plotId updates4 else s4),
             plant3, false)
        end
      else
        ((if needs2 then updatePlot s plotId updates2 else s), plant2, false)
  end.

(** The [for ... of this.activePlants] loop: entries in insertion order;
    an exception leaves the remaining entries untouched. *)
Fixpoint updatePlantsLoop (now : Z) (s : State)
    (entries : list (Z * ActivePlant))
    : State * list (Z * ActivePlant) * bool :=
  match entries with
  | [] => (s, [], false)
  | (plotId, plant) :: rest =>
      let '(s1, plant1, threw) := updatePlantsBody now s plotId plant in
      if threw then (s1, (plotId, plant1) :: rest, true)
      else
        let '(s2, rest2, threw2) := updatePlantsLoop now s1 rest in
        (s2, (plotId, plant1) :: rest2, threw2)
  end.

(** [updatePlants()]; the boolean tells whether it threw. *)
Definition updatePlants (now : Z) (s : State) : State * bool :=
  let '(s1, entries, threw) := updatePlantsLoop now s (activePlants s) in
  (set_activePlants s1 entries, threw).

(** [update(deltaTime)]: when [updatePlants] throws the timer keeps its
    accumulated value. *)
Definition update (deltaTime : Q) (now : Z) (s : State) : State :=
  let s1 := set_updateTimer s (updateTimer s + deltaTime)%Q in
  if Qgeb (updateTimer s1) (updateInterval (growthConfig s1)) then
    let '(s2, threw) := updatePlants now s1 in
    if threw then s2 else set_updateTimer s2 0%Q
  else s1.

(** [accelerateGrowth(plotId, duration)]: [None] is the [null] result. *)
Definition accelerateGrowth (plotId : Z) (duration : Z) (now : Z) (s : State)
    : option Q * State :=
  match getPlot s plotId with
  | None => (None, s)
  | Some plot =>
      match p_plant plot with
      | None => (None, s)
      | Some plant =>
          match getPlantData (pl_type plant) with
          | None => (None, s)
          | Some data =>
              let newPlantedAt := orNow (p_plantedAt plot) now - duration in
              let s1 :=
                updatePlot s plotId
                  {| u_plant := None; u_state := None;
                     u_plantedAt := Some (Some newPlantedAt);
                     u_lastWatered := None; u_growthStage := None;
                     u_maxGrowthStage := None; u_waterLevel := None;
                     u_nutrients := None |} in
              let s2 :=
                match Map_get plotId (activePlants s1) with
                | None => s1
                | Some activePlant =>
                    set_activePlants s1
                      (Map_set plotId
                         {| ap_plant := ap_plant activePlant;
                            ap_plotId := ap_plotId activePlant;
                            ap_plantedAt := Some newPlantedAt;
                            ap_lastWatered := ap_lastWatered activePlant;
                            ap_growthStage := ap_growthStage activePlant;
                            ap_waterLevel := ap_waterLevel activePlant;
                            ap_nutrients := ap_nutrients activePlant |}
                         (activePlants s1))
                end in
              let elapsed := now - newPlantedAt in
              let progress :=
                Qmin 100
                  (inject_Z elapsed / inject_Z (pd_growTime data) * 100) in
              (Some progress,
               emit s2 (EvAccelerated plotId progress duration now))
          end
      end
  end.

(** [onEraChanged(newEra)] *)
Definition onEraChanged (newEra : string) (s : State) : State :=
  let eraMultiplier :=
    if String.eqb newEra "prehistoric" then (8 # 10)%Q
    else if String.eqb newEra "egyptian" then 1%Q
    else if String.eqb newEra "future" then (3 # 2)%Q
    else 1%Q in
  set_growthMultiplier s eraMultiplier.

End WithCatalog.

(** The plots of [initializeDefaultState], ids 0 to 47. *)
Definition emptyPlot (i : Z) : Plot :=
  {| p_id := i; p_plant := None; p_state := SEmpty;
     p_waterLevel := 50%Q; p_nutrients := 50%Q;
     p_plantedAt := None; p_lastWatered := None;
     p_growthStage := 0; p_maxGrowthStage := 0 |}.

Definition defaultGrowthConfig : GrowthConfig :=
  {| updateInterval := 1000%Q; waterDecayRate := (1 # 2);
     nutrientDecayRate := (3 # 10); growthMultiplier := 1%Q |}.

Definition defaultConfig : Config :=
  {| enableWatering := true; enableNutrients := true |}.

(** The system after [init] on the default store. *)
Definition initialState : State :=
  {| plots := List.map (fun i => emptyPlot (Z.of_nat i)) (List.seq 0 48);
     seeds := {[ "prehistoric-moss" := 5%Q; "lotus-egyptian" := 0%Q;
                 "crystal-future" := 0%Q ]};
     resources := {[ "temporal-pulses" := 100%Q; "seeds" := 10%Q ]};
     activePlants := [];
     growthConfig := defaultGrowthConfig;
     config := defaultConfig;
     updateTimer := 0%Q;
     emitted := [] |}.

(** The mutating operations of the engine, with what each reads from its
    environment. *)
Inductive Op :=
| OpPlantSeed (plotId : Z) (seedType : string) (now : Z)
| OpWaterPlant (plotId : Z) (now : Z)
| OpHarvestPlant (plotId : Z) (r1 r2 : Q) (now : Z)
| OpAccelerateGrowth (plotId : Z) (duration : Z) (now : Z)
| OpUpdate (deltaTime : Q) (now : Z)
| OpUpdatePlants (now : Z)
| OpEraChanged (newEra : string).

Definition run (plantData : gmap string PlantData) (o : Op) (s : State)
    : State :=
  match o with
  | OpPlantSeed plotId seedType now =>
      snd (plantSeed plantData plotId seedType now s)
  | OpWaterPlant plotId now => snd (waterPlant plotId now s)
  | OpHarvestPlant plotId r1 r2 now => snd (harvestPlant plotId r1 r2 now s)
  | OpAccelerateGrowth plotId duration now =>
      snd (accelerateGrowth plantData plotId duration now s)
  | OpUpdate deltaTime now => update plantData deltaTime now s
  | OpUpdatePlants now => fst (updatePlants plantData now s)
  | OpEraChanged newEra => onEraChanged newEra s
  end.

(** ** Loading and disposal *)

(** [loadExistingPlants()] *)
Definition loadExistingPlants (s : State) : State :=
  List.fold_left
    (fun st plot =>
       match p_plant plot with
       | Some plant =>
           if negb (PlotState_eqb (p_state plot) SEmpty) then
             set_activePlants st
               (Map_set (p_id plot)
                  {| ap_plant := plant; ap_plotId := p_id plot;
                     ap_plantedAt := p_plantedAt plot;
                     ap_lastWatered := p_lastWatered plot;
                     ap_growthStage := p_growthStage plot;
                     ap_waterLevel := p_waterLevel plot;
                     ap_nutrients := p_nutrients plot |}
                  (activePlants st))
           else st
       | None => st
       end)
    (plots s) s.

(** [destroy()] *)
Definition destroy (s : State) : State := set_activePlants s [].

End PlantSystem.

(** * The plot handlers of the game ([ChronoFarmer])

    The handlers behind a click on a plot, with the plant system in
    place; they call into [PlantSystem] and write the inventory
    themselves.  Notifications and the refresh of the screen go to the
    renderer. *)

Module ChronoFarmer.
Import PlantSystem.

Section WithCatalog.
Variable plantData : gmap string PlantData.

(** The listeners of [plant:planted] run inside the [emit] of [plantSeed],
    after its writes and before it returns: the achievement system counts
    the planting and applies the reward of an achievement that it
    unlocks (pulses, a seed), the game refreshes the screen.  [onPlanted]
    is what they do to the store. *)
Variable onPlanted : State -> State.

(** [this.plantSystem.plantSeed(plot.id, selectedSeed)] as the game runs
    it, with those listeners. *)
Definition plantSeedInGame (plotId : Z) (seedType : string) (now : Z)
    (s : State) : bool * State :=
  let '(success, s1) := plantSeed plantData plotId seedType now s in
  (success, if success then onPlanted s1 else s1).

(** [handlePlantAction(plot)], with the value of [ui.selectedSeed]
    ([None] is [null]); the notifications and the refresh of the screen go
    to the renderer. *)
Definition handlePlantAction (selectedSeed : option string) (plotId : Z)
    (now : Z) (s : State) : State :=
  match selectedSeed with
  | None => s
  | Some seed =>
      if String.eqb seed EmptyString then s
      else
        let '(success, s1) := plantSeedInGame plotId seed now s in
        if success then
          let currentCount := seedCountOf s1 seed in
          set_seeds s1 (<[seed := (currentCount - 1)%Q]> (seeds s1))
        else s1
  end.

(** [handleWaterAction(plot)] *)
Definition handleWaterAction (plotId : Z) (now : Z) (s : State) : State :=
  snd (waterPlant plotId now s).

(** [handleHarvestAction(plot)] *)
Definition handleHarvestAction (plotId : Z) (r1 r2 : Q) (now : Z) (s : State)
    : State :=
  snd (harvestPlant plotId r1 r2 now s).

(** [handleAccelerateAction(plot)] *)
Definition handleAccelerateAction (plotId : Z) (now : Z) (s : State) : State :=
  let temporalPulses := resourceOf s "temporal-pulses" in
  let cost := 5%Q in
  if Qltb temporalPulses cost then s
  else
    let s1 :=
      set_resources s
        (<["temporal-pulses" := (temporalPulses - cost)%Q]> (resources s)) in
    snd (accelerateGrowth plantData plotId 20 now s1).

(** [handlePlotClick(plot)], with the value of [ui.selectedTool]. *)
Definition handlePlotClick (selectedTool : string)
    (selectedSeed : option string) (plotId : Z) (r1 r2 : Q) (now : Z)
    (s : State) : State :=
  if String.eqb selectedTool "plant" then
    handlePlantAction selectedSeed plotId now s
  else if String.eqb selectedTool "water" then handleWaterAction plotId now s
  else if String.eqb selectedTool "harvest" then
    handleHarvestAction plotId r1 r2 now s
  else if String.eqb selectedTool "accelerate" then
    handleAccelerateAction plotId now s
  else s.

End WithCatalog.
End ChronoFarmer.

(** * TimeTravelSystem *)

Module TimeTravelSystem.

(** [unlockRequirement], by its [type] field. *)
Inductive Requirement :=
| ReqHarvest (plantType : string) (count : Q)
| ReqMinigame (minigame : string)
| ReqResource (resource : string) (amount : Q)
| ReqOther (type : string).

Record Era := {
  era_id : string;
  era_name : string;
  era_music : string;
  era_ambient : string;
  unlocked : bool;
  unlockRequirement : option Requirement;
  effects_growthMultiplier : option Q;
  effects_waterRetention : option Q
}.

Definition set_unlocked (e : Era) (b : bool) : Era :=
  {| era_id := era_id e; era_name := era_name e; era_music := era_music e;
     era_ambient := era_ambient e; unlocked := b;
     unlockRequirement := unlockRequirement e;
     effects_growthMultiplier := effects_growthMultiplier e;
     effects_waterRetention := effects_waterRetention e |}.

Inductive Event :=
| EvLocked (eraId : string) (requirement : option Requirement)
| EvInsufficientResources (required current : Q)
| EvStart (from to : string) (timestamp : Z)
| EvSuccess (from to : string) (timestamp : Z)
| EvError
| EvEraUnlocked (eraId : string) (timestamp : Z)
| EvNotification (eraName : string).

(** The paths of the store the system reads and writes. *)
Record Store := {
  resources : gmap string Q;        (* player.inventory.resources *)
  seeds : gmap string Q;            (* player.inventory.seeds *)
  time_currentEra : string;         (* time.currentEra *)
  time_previousEra : option string; (* time.previousEra *)
  unlockedEras : list string;       (* player.unlockedEras *)
  harvestStats : gmap string Q      (* player.harvestStats *)
}.

Record TravelConfig := {
  minTravelInterval : Q;
  travelDuration : Q;
  temporalPulseCost : Q
}.

Record Config := {
  enableTravelEffects : bool;
  enableCooldown : bool;
  enableCost : bool
}.

Record State := {
  currentEra : string;
  previousEra : option string;
  isTraveling : bool;
  travelCooldown : Q;
  eras : list (string * Era);   (* a Map, in insertion order *)
  travelConfig : TravelConfig;
  config : Config;
  store : Store;
  plantGrowthMultiplier : Q;    (* plantSystem.growthConfig.growthMultiplier *)
  emitted : list Event
}.

Definition with_store (s : State) (st : Store) : State :=
  {| currentEra := currentEra s; previousEra := previousEra s;
     isTraveling := isTraveling s; travelCooldown := travelCooldown s;
     eras := eras s; travelConfig := travelConfig s; config := config s;
     store := st; plantGrowthMultiplier := plantGrowthMultiplier s;
     emitted := emitted s |}.

Definition with_isTraveling (s : State) (b : bool) : State :=
  {| currentEra := currentEra s; previousEra := previousEra s;
     isTraveling := b; travelCooldown := travelCooldown s;
     eras := eras s; travelConfig := travelConfig s; config := config s;
     store := store s; plantGrowthMultiplier := plantGrowthMultiplier s;
     emitted := emitted s |}.

Definition with_travelCooldown (s : State) (c : Q) : State :=
  {| currentEra := currentEra s; previousEra := previousEra s;
     isTraveling := isTraveling s; travelCooldown := c;
     eras := eras s; travelConfig := travelConfig s; config := config s;
     store := store s; plantGrowthMultiplier := plantGrowthMultiplier s;
     emitted := emitted s |}.

Definition with_eras (s : State) (es : list (string * Era)) : State :=
  {| currentEra := currentEra s; previousEra := previousEra s;
     isTraveling := isTraveling s; travelCooldown := travelCooldown s;
     eras := es; travelConfig := travelConfig s; config := config s;
     store := store s; plantGrowthMultiplier := plantGrowthMultiplier s;
     emitted := emitted s |}.

Definition with_era (s : State) (current : string) (previous : option string)
    : State :=
  {| currentEra := current; previousEra := previous;
     isTraveling := isTraveling s; travelCooldown := travelCooldown s;
     eras := eras s; travelConfig := travelConfig s; config := config s;
     store := store s; plantGrowthMultiplier := plantGrowthMultiplier s;
     emitted := emitted s |}.

Definition with_plantGrowthMultiplier (s : State) (m : Q) : State :=
  {| currentEra := currentEra s; previousEra := previousEra s;
     isTraveling := isTraveling s; travelCooldown := travelCooldown s;
     eras := eras s; travelConfig := travelConfig s; config := config s;
     store := store s; plantGrowthMultiplier := m;
     emitted := emitted s |}.

Definition emit (s : State) (e : Event) : State :=
  {| currentEra := currentEra s; previousEra := previousEra s;
     isTraveling := isTraveling s; travelCooldown := travelCooldown s;
     eras := eras s; travelConfig := travelConfig s; config := config s;
     store := store s; plantGrowthMultiplier := plantGrowthMultiplier s;
     emitted := emitted s ++ [e] |}.

Definition store_set_resources (st : Store) (m : gmap string Q) : Store :=
  {| resources := m; seeds := seeds st;
     time_currentEra := time_currentEra st;
     time_previousEra := time_previousEra st;
     unlockedEras := unlockedEras st; harvestStats := harvestStats st |}.

Definition store_set_seeds (st : Store) (m : gmap string Q) : Store :=
  {| resources := resources st; seeds := m;
     time_currentEra := time_currentEra st;
     time_previousEra := time_previousEra st;
     unlockedEras := unlockedEras st; harvestStats := harvestStats st |}.

Definition store_set_time (st : Store) (current : string)
    (previous : option string) : Store :=
  {| resources := resources st; seeds := seeds st;
     time_currentEra := current; time_previousEra := previous;
     unlockedEras := unlockedEras st; harvestStats := harvestStats st |}.

Definition store_set_unlockedEras (st : Store) (l : list string) : Store :=
  {| resources := resources st; seeds := seeds st;
     time_currentEra := time_currentEra st;
     time_previousEra := time_previousEra st;
     unlockedEras := l; harvestStats := harvestStats st |}.

(** [this.eras.get(eraId)] *)
Fixpoint eras_get (eraId : string) (m : list (string * Era)) : option Era :=
  match m with
  | [] => None
  | (k, e) :: rest => if String.eqb k eraId then Some e else eras_get eraId rest
  end.

(** Writing a field of the object [this.eras.get(eraId)] returned. *)
Fixpoint eras_put (eraId : string) (e : Era) (m : list (string * Era))
    : list (string * Era) :=
  match m with
  | [] => []
  | (k, e') :: rest =>
      if String.eqb k eraId then (k, e) :: rest
      else (k, e') :: eras_put eraId e rest
  end.

(** [stateManager.get('player.inventory.resources.temporal-pulses', 0)] *)
Definition temporalPulses (s : State) : Q :=
  default 0%Q (resources (store s) !! "temporal-pulses").

(** Where the collaborators called inside the [try] block throw, if they
    do: the renderer or the audio manager during [playTravelEffects], the
    audio manager when the music changes, the renderer in
    [applyEraTheme]. *)
Inductive Collaborators :=
| AllFine
| EffectsThrow
| AudioThrows
| ThemeThrows.

(** Why [travelTo] returned [false]. *)
Inductive Failure :=
| AlreadyTraveling
| SameEra
| UnknownEra
| Locked
| Cooldown
| InsufficientResources
| Thrown.

Inductive TravelResult :=
| Travelled
| Failed (reason : Failure).

(** The boolean the method resolves to. *)
Definition succeeded (r : TravelResult) : bool :=
  match r with Travelled => true | Failed _ => false end.

(** [applyEraEffects(era)] *)
Definition applyEraEffects (era : Era) (s : State) : State :=
  match effects_growthMultiplier era with
  | Some m => if Qeq_bool m 0 then s else with_plantGrowthMultiplier s m
  | None => s
  end.

(** The [try] block of [travelTo], with its [catch] and [finally], once
    every check has passed.  The method is asynchronous; the model runs
    the block to completion in one step, with [c] telling how its
    collaborators behave. *)
Definition travelAttempt (c : Collaborators) (eraId : string) (now : Z)
    (targetEra : Era) (s : State) : TravelResult * State :=
  let s1 := with_isTraveling s true in
  let s2 :=
    if enableCost (config s1) then
      with_store s1
        (store_set_resources (store s1)
           (<["temporal-pulses" :=
                (temporalPulses s1 - temporalPulseCost (travelConfig s1))%Q]>
              (resources (store s1))))
    else s1 in
  let s3 := emit s2 (EvStart (currentEra s2) eraId now) in
  if enableTravelEffects (config s3)
     && match c with EffectsThrow => true | _ => false end
  then (Failed Thrown, with_isTraveling (emit s3 EvError) false)
  else
    let s4 := with_era s3 eraId (Some (currentEra s3)) in
    let s5 :=
      with_store s4 (store_set_time (store s4) eraId (previousEra s4)) in
    let s6 := applyEraEffects targetEra s5 in
    match c with
    | AudioThrows | ThemeThrows =>
        (Failed Thrown, with_isTraveling (emit s6 EvError) false)
    | _ =>
        let s7 :=
          emit s6 (EvSuccess (default ""%string (previousEra s6)) eraId now) in
        let s8 :=
          with_travelCooldown s7 (minTravelInterval (travelConfig s7)) in
        (Travelled, with_isTraveling s8 false)
    end.

(** [travelTo(eraId)] *)
Definition travelTo (c : Collaborators) (eraId : string) (now : Z) (s : State)
    : TravelResult * State :=
  if isTraveling s then (Failed AlreadyTraveling, s)
  else if String.eqb (currentEra s) eraId then (Failed SameEra, s)
  else
    match eras_get eraId (eras s) with
    | None => (Failed UnknownEra, s)
    | Some targetEra =>
        if negb (unlocked targetEra) then
          (Failed Locked, emit s (EvLocked eraId (unlockRequirement targetEra)))
        else if enableCooldown (config s) && Qgtb (travelCooldown s) 0 then
          (Failed Cooldown, s)
        else if enableCost (config s)
                && Qltb (temporalPulses s) (temporalPulseCost (travelConfig s))
        then
          (Failed InsufficientResources,
           emit s (EvInsufficientResources
                     (temporalPulseCost (travelConfig s)) (temporalPulses s)))
        else travelAttempt c eraId now targetEra s
    end.

(** [unlockEra(eraId)] *)
Definition unlockEra (eraId : string) (now : Z) (s : State) : State :=
  match eras_get eraId (eras s) with
  | None => s
  | Some era =>
      if unlocked era then s
      else
        let era' := set_unlocked era true in
        let s1 := with_eras s (eras_put eraId era' (eras s)) in
        let s2 :=
          if existsb (String.eqb eraId) (unlockedEras (store s1)) then s1
          else
            with_store s1
              (store_set_unlockedEras (store s1)
                 (unlockedEras (store s1) ++ [eraId])) in
        let s3 := emit s2 (EvEraUnlocked eraId now) in
        emit s3 (EvNotification (era_name era'))
  end.

(** [getHarvestCount(plantType)] *)
Definition getHarvestCount (s : State) (plantType : string) : Q :=
  default 0%Q (harvestStats (store s) !! plantType).

(** The [switch] of [checkEraUnlocks] on one requirement. *)
Definition shouldUnlock (s : State) (harvestedType : string)
    (req : Requirement) : bool :=
  match req with
  | ReqHarvest plantType count =>
      String.eqb harvestedType plantType
      && Qgeb (getHarvestCount s plantType) count
  | ReqMinigame _ => false
  | ReqResource resource amount =>
      Qgeb (default 0%Q (resources (store s) !! resource)) amount
  | ReqOther _ => false
  end.

(** The body of the loop of [checkEraUnlocks] for the entry [eraId]. *)
Definition checkEra (harvestedType : string) (now : Z) (s : State)
    (eraId : string) : State :=
  match eras_get eraId (eras s) with
  | None => s
  | Some era =>
      if unlocked era then s
      else
        match unlockRequirement era with
        | None => s
        | Some req =>
            if shouldUnlock s harvestedType req then unlockEra eraId now s
            else s
        end
  end.

(** [checkEraUnlocks(harvestData)], with [harvestData.plant.type]; the
    entries of the map are visited in insertion order. *)
Definition checkEraUnlocks (harvestedType : string) (now : Z) (s : State)
    : State :=
  List.fold_left (checkEra harvestedType now) (List.map fst (eras s)) s.

Record MinigameRewards := {
  mr_resources : list (string * Q);
  mr_seeds : list (string * Q)
}.

(** [applyMinigameRewards(rewards)] *)
Definition applyMinigameRewards (rewards : option MinigameRewards) (s : State)
    : State :=
  match rewards with
  | None => s
  | Some rw =>
      let s1 :=
        List.fold_left
          (fun st '(resource, amount) =>
             with_store st
               (store_set_resources (store st)
                  (<[resource :=
                       (default 0%Q (resources (store st) !! resource)
                        + amount)%Q]> (resources (store st)))))
          (mr_resources rw) s in
      List.fold_left
        (fun st '(seed, count) =>
           with_store st
             (store_set_seeds (store st)
                (<[seed :=
                     (default 0%Q (seeds (store st) !! seed) + count)%Q]>
                   (seeds (store st)))))
        (mr_seeds rw) s1
  end.

(** The first era whose requirement is the minigame [minigame]. *)
Fixpoint minigameEra (minigame : string) (m : list (string * Era))
    : option string :=
  match m with
  | [] => None
  | (eraId, era) :: rest =>
      match unlockRequirement era with
      | Some (ReqMinigame g) =>
          if String.eqb g minigame then Some eraId
          else minigameEra minigame rest
      | _ => minigameEra minigame rest
      end
  end.

(** [onMinigameCompleted(data)] *)
Definition onMinigameCompleted (minigame : string) (success : bool)
    (rewards : option MinigameRewards) (now : Z) (s : State) : State :=
  if success then
    let s1 :=
      match minigameEra minigame (eras s) with
      | Some eraId => unlockEra eraId now s
      | None => s
      end in
    applyMinigameRewards rewards s1
  else s.

(** [update(deltaTime)] *)
Definition update (deltaTime : Q) (s : State) : State :=
  if Qgtb (travelCooldown s) 0 then
    with_travelCooldown s (Qmax 0 (travelCooldown s - deltaTime))
  else s.

(** [initializeEras()] *)
Definition prehistoric : Era :=
  {| era_id := "prehistoric"; era_name := "Era Primigenia";
     era_music := "music-prehistoric"; era_ambient := "ambient-jungle";
     unlocked := true; unlockRequirement := None;
     effects_growthMultiplier := Some (8 # 10)%Q;
     effects_waterRetention := Some (12 # 10)%Q |}.

Definition egyptian : Era :=
  {| era_id := "egyptian"; era_name := "Antiguo Egipto";
     era_music := "music-egyptian"; era_ambient := "ambient-desert";
     unlocked := false;
     unlockRequirement := Some (ReqHarvest "prehistoric-moss" 10);
     effects_growthMultiplier := Some 1%Q;
     effects_waterRetention := Some (9 # 10)%Q |}.

Definition future : Era :=
  {| era_id := "future"; era_name := "3025";
     era_music := "music-future"; era_ambient := "ambient-cyber";
     unlocked := false;
     unlockRequirement := Some (ReqHarvest "lotus-egyptian" 15);
     effects_growthMultiplier := Some (3 # 2)%Q;
     effects_waterRetention := Some (7 # 10)%Q |}.

Definition initialEras : list (string * Era) :=
  [("prehistoric", prehistoric); ("egyptian", egyptian); ("future", future)].

Definition initialStore : Store :=
  {| resources := {[ "temporal-pulses" := 100%Q; "seeds" := 10%Q ]};
     seeds := {[ "prehistoric-moss" := 5%Q; "lotus-egyptian" := 0%Q;
                 "crystal-future" := 0%Q ]};
     time_currentEra := "prehistoric"; time_previousEra := None;
     unlockedEras := ["prehistoric"%string];
     harvestStats := ∅ |}.

(** The system after its constructor and [init] on the default store. *)
Definition initialState : State :=
  {| currentEra := "prehistoric"; previousEra := None;
     isTraveling := false; travelCooldown := 0%Q;
     eras := initialEras;
     travelConfig :=
       {| minTravelInterval := 5000%Q; travelDuration := 2000%Q;
          temporalPulseCost := 10%Q |};
     config :=
       {| enableTravelEffects := true; enableCooldown := true;
          enableCost := true |};
     store := initialStore;
     plantGrowthMultiplier := 1%Q;
     emitted := [] |}.

(** [configure(config)], with a full configuration. *)
Definition configure (cfg : Config) (s : State) : State :=
  {| currentEra := currentEra s; previousEra := previousEra s;
     isTraveling := isTraveling s; travelCooldown := travelCooldown s;
     eras := eras s; travelConfig := travelConfig s; config := cfg;
     store := store s; plantGrowthMultiplier := plantGrowthMultiplier s;
     emitted := emitted s |}.

(** [destroy()]: the map of eras is emptied. *)
Definition destroy (s : State) : State := with_eras s [].

(** The operations of the system. *)
Inductive Op :=
| OpTravelTo (c : Collaborators) (eraId : string) (now : Z)
| OpCheckEraUnlocks (harvestedType : string) (now : Z)
| OpUnlockEra (eraId : string) (now : Z)
| OpMinigameCompleted (minigame : string) (success : bool)
    (rewards : option MinigameRewards) (now : Z)
| OpUpdate (deltaTime : Q)
| OpConfigure (cfg : Config)
| OpDestroy.

Definition run (o : Op) (s : State) : State :=
  match o with
  | OpTravelTo c eraId now => snd (travelTo c eraId now s)
  | OpCheckEraUnlocks harvestedType now => checkEraUnlocks harvestedType now s
  | OpUnlockEra eraId now => unlockEra eraId now s
  | OpMinigameCompleted minigame success rewards now =>
      onMinigameCompleted minigame success rewards now s
  | OpUpdate deltaTime => update deltaTime s
  | OpConfigure cfg => configure cfg s
  | OpDestroy => destroy s
  end.

Definition runAll (ops : list Op) (s : State) : State :=
  List.fold_left (fun st o => run o st) ops s.

(** Every operation but the teardown. *)
Definition keepsEras (o : Op) : bool :=
  match o with OpDestroy => false | _ => true end.

(** [era.unlocked] for the era stored under [eraId]. *)
Definition isUnlocked (s : State) (eraId : string) : bool :=
  match eras_get eraId (eras s) with
  | Some era => unlocked era
  | None => false
  end.

End TimeTravelSystem.

(** * EventBus *)

Module EventBus.

(** A callback is a function of the caller: the model keeps its identity
    and whether a call of it throws, and records each call.  Callbacks
    that call back into the bus are outside the model. *)
Record Callback := {
  cb_id : nat;
  cb_throws : bool
}.

(** An error handler is a function of the caller as well: the model
    keeps its identity and whether a call of it throws (a value that is
    no function throws when it is called). *)
Record Handler := {
  h_id : nat;
  h_throws : bool
}.

(** The [options] argument of [on] and [once]. *)
Record Options := {
  o_context : option nat;
  o_once : bool;
  o_priority : Z;
  o_onError : option Handler
}.

Definition noOptions : Options :=
  {| o_context := None; o_once := false; o_priority := 0;
     o_onError := None |}.

Record Listener := {
  l_id : nat;
  l_callback : Callback;
  l_context : option nat;
  l_once : bool;
  l_priority : Z;
  l_onError : option Handler
}.

(** What the callbacks of the listeners see. *)
Inductive Call :=
| Invoked (listenerId : nat) (callback : nat) (event : string) (args : nat)
| ErrorHandled (listenerId : nat) (handler : nat).

Record Bus := {
  events : list (string * list Listener); (* a Map, in insertion order *)
  listenerIdCounter : nat;
  listenerMap : list (nat * string);      (* listener id to its event *)
  calls : list Call
}.

Definition emptyBus : Bus :=
  {| events := []; listenerIdCounter := 0; listenerMap := []; calls := [] |}.

Fixpoint events_get (event : string) (m : list (string * list Listener))
    : option (list Listener) :=
  match m with
  | [] => None
  | (k, v) :: rest =>
      if String.eqb k event then Some v else events_get event rest
  end.

Fixpoint events_set (event : string) (v : list Listener)
    (m : list (string * list Listener)) : list (string * list Listener) :=
  match m with
  | [] => [(event, v)]
  | (k, v') :: rest =>
      if String.eqb k event then (k, v) :: rest
      else (k, v') :: events_set event v rest
  end.

Fixpoint events_delete (event : string) (m : list (string * list Listener))
    : list (string * list Listener) :=
  match m with
  | [] => []
  | (k, v') :: rest =>
      if String.eqb k event then rest else (k, v') :: events_delete event rest
  end.

Fixpoint listenerMap_get (listenerId : nat) (m : list (nat * string))
    : option string :=
  match m with
  | [] => None
  | (k, v) :: rest =>
      if Nat.eqb k listenerId then Some v else listenerMap_get listenerId rest
  end.

Fixpoint listenerMap_delete (listenerId : nat) (m : list (nat * string))
    : list (nat * string) :=
  match m with
  | [] => []
  | (k, v) :: rest =>
      if Nat.eqb k listenerId then rest
      else (k, v) :: listenerMap_delete listenerId rest
  end.

(** [listeners.sort((a, b) => b.priority - a.priority)]: a stable sort,
    higher priority first. *)
Fixpoint insertByPriority (x : Listener) (l : list Listener) : list Listener :=
  match l with
  | [] => [x]
  | y :: rest =>
      if l_priority x <? l_priority y then y :: insertByPriority x rest
      else x :: y :: rest
  end.

Definition sortByPriority (l : list Listener) : list Listener :=
  List.fold_right insertByPriority [] l.

(** [on(event, callback, options)]: the listener id is the value of the
    counter after its increment. *)
Definition on (event : string) (callback : Callback) (options : Options)
    (b : Bus) : nat * Bus :=
  let listeners := default [] (events_get event (events b)) in
  let listenerId := S (listenerIdCounter b) in
  let listener :=
    {| l_id := listenerId;
       l_callback := callback;
       l_context := o_context options;
       l_once := false;
       l_priority := o_priority options;
       l_onError := o_onError options |} in
  let listeners' := sortByPriority (listeners ++ [listener]) in
  (listenerId,
   {| events := events_set event listeners' (events b);
      listenerIdCounter := listenerId;
      listenerMap := listenerMap b ++ [(listenerId, event)];
      calls := calls b |}).

(** [once(event, callback, options)]: [on] with [{ ...options, once: true }]. *)
Definition once (event : string) (callback : Callback) (options : Options)
    (b : Bus) : nat * Bus :=
  on event callback
    {| o_context := o_context options; o_once := true;
       o_priority := o_priority options; o_onError := o_onError options |}
    b.

(** [listeners.splice(index, 1)] at the first listener with that id. *)
Fixpoint removeFirst (listenerId : nat) (l : list Listener) : list Listener :=
  match l with
  | [] => []
  | y :: rest =>
      if Nat.eqb (l_id y) listenerId then rest
      else y :: removeFirst listenerId rest
  end.

(** [removeListener(event, listenerId)] *)
Definition removeListener (event : string) (listenerId : nat) (b : Bus)
    : bool * Bus :=
  match events_get event (events b) with
  | None => (false, b)
  | Some listeners =>
      match listenerMap_get listenerId (listenerMap b) with
      | None => (false, b)
      | Some event' =>
          if negb (String.eqb event' event) then (false, b)
          else if negb (existsb (fun l => Nat.eqb (l_id l) listenerId) listeners)
          then (false, b)
          else
            let listeners' := removeFirst listenerId listeners in
            (true,
             {| events :=
                  match listeners' with
                  | [] => events_delete event (events b)
                  | _ => events_set event listeners' (events b)
                  end;
                listenerIdCounter := listenerIdCounter b;
                listenerMap := listenerMap_delete listenerId (listenerMap b);
                calls := calls b |})
      end
  end.

(** [off(event, listenerId)] *)
Definition off (event : string) (listenerId : nat) (b : Bus) : bool * Bus :=
  removeListener event listenerId b.

Definition record (b : Bus) (c : Call) : Bus :=
  {| events := events b; listenerIdCounter := listenerIdCounter b;
     listenerMap := listenerMap b; calls := calls b ++ [c] |}.

(** How [emit] ends: it returns whether some callback ran to its end, or
    the exception of an error handler leaves it. *)
Inductive Emitted :=
| Returned (handled : bool)
| Raised.

(** The loop of [emit] over the copy of the listeners.  The exception of
    a callback is caught; the error handler is called inside the [catch]
    block, so its own exception ends the loop. *)
Fixpoint emitLoop (event : string) (args : nat) (copy : list Listener)
    (handled : bool) (b : Bus) : Emitted * Bus :=
  match copy with
  | [] => (Returned handled, b)
  | listener :: rest =>
      let b1 :=
        if l_once listener then snd (removeListener event (l_id listener) b)
        else b in
      let b2 :=
        record b1
          (Invoked (l_id listener) (cb_id (l_callback listener)) event args) in
      if cb_throws (l_callback listener) then
        match l_onError listener with
        | Some handler =>
            let b3 :=
              record b2 (ErrorHandled (l_id listener) (h_id handler)) in
            if h_throws handler then (Raised, b3)
            else emitLoop event args rest handled b3
        | None => emitLoop event args rest handled b2
        end
      else emitLoop event args rest true b2
  end.

(** [emit(event, ...args)] *)
Definition emit (event : string) (args : nat) (b : Bus) : Emitted * Bus :=
  match events_get event (events b) with
  | None => (Returned false, b)
  | Some [] => (Returned false, b)
  | Some listeners => emitLoop event args listeners false b
  end.

(** [listenerCount(event)] *)
Definition listenerCount (event : string) (b : Bus) : nat :=
  match events_get event (events b) with
  | Some listeners => length listeners
  | None => 0%nat
  end.

(** How many times the callback [callback] was called for [event]. *)
Definition invocations (callback : nat) (event : string) (b : Bus) : nat :=
  length
    (List.filter
       (fun c =>
          match c with
          | Invoked _ cb ev _ => Nat.eqb cb callback && String.eqb ev event
          | ErrorHandled _ _ => false
          end)
       (calls b)).

(** ** Removal of whole events, and sequences of operations *)

(** [removeAllListeners(event)] *)
Definition removeAllListeners (event : string) (b : Bus) : bool * Bus :=
  match events_get event (events b) with
  | None => (false, b)
  | Some listeners =>
      (true,
       {| events := events_delete event (events b);
          listenerIdCounter := listenerIdCounter b;
          listenerMap :=
            List.fold_left (fun m l => listenerMap_delete (l_id l) m)
              listeners (listenerMap b);
          calls := calls b |})
  end.

(** [eventNames()] *)
Definition eventNames (b : Bus) : list string := List.map fst (events b).

(** [hasListeners(event)] *)
Definition hasListeners (event : string) (b : Bus) : bool :=
  (0 <? listenerCount event b)%nat.

(** [clear()]: the counter of ids goes on. *)
Definition clear (b : Bus) : Bus :=
  {| events := []; listenerIdCounter := listenerIdCounter b;
     listenerMap := []; calls := calls b |}.

(** The operations of the bus. *)
Inductive Op :=
| OpOn (event : string) (callback : Callback) (options : Options)
| OpOnce (event : string) (callback : Callback) (options : Options)
| OpOff (event : string) (listenerId : nat)
| OpEmit (event : string) (args : nat)
| OpRemoveAllListeners (event : string)
| OpClear.

Definition run (o : Op) (b : Bus) : Bus :=
  match o with
  | OpOn event callback options => snd (on event callback options b)
  | OpOnce event callback options => snd (once event callback options b)
  | OpOff event listenerId => snd (off event listenerId b)
  | OpEmit event args => snd (emit event args b)
  | OpRemoveAllListeners event => snd (removeAllListeners event b)
  | OpClear => clear b
  end.

Definition runAll (ops : list Op) (b : Bus) : Bus :=
  List.fold_left (fun st o => run o st) ops b.

End EventBus.

(** * StateManager *)

Module StateManager.

(** The store holds plain data: the values of JSON.  An object is the list
    of its own properties in enumeration order.  Strings are sequences of
    code units below 256.  Every object has the prototype of an object
    literal and every array that of an array literal: what a call would
    find there, or do to it, is [Unmodelled].  The state is a tree: [set]
    keeps the object it is given by reference, the model keeps its
    content, and nothing is said here of objects that are reachable by
    two paths. *)
#[local] Unset Elimination Schemes.
Inductive Value :=
| VNull
| VBool (b : bool)
| VNum (n : Q)
| VStr (s : string)
| VArr (items : list Value)
| VObj (props : list (string * Value)).
#[local] Set Elimination Schemes.

(** Induction on values goes through the lists that nest them. *)
Section ValueInduction.
Variable P : Value -> Prop.
Hypothesis HNull : P VNull.
Hypothesis HBool : forall b, P (VBool b).
Hypothesis HNum : forall n, P (VNum n).
Hypothesis HStr : forall s, P (VStr s).
Hypothesis HArr : forall items, Forall P items -> P (VArr items).
Hypothesis HObj :
  forall props, Forall (fun kv => P (snd kv)) props -> P (VObj props).

End ValueInduction.

(** Results of operations that can throw: the value returned, an
    exception, or a run that leaves the model. *)
Inductive Outcome (A : Type) :=
| Done (a : A)
| Throws
| Unmodelled.

Arguments Done {A} a.
Arguments Throws {A}.
Arguments Unmodelled {A}.

(** [typeof v === 'object'] *)
Definition isObjectType (v : Value) : bool :=
  match v with
  | VNull | VArr _ | VObj _ => true
  | _ => false
  end.

Fixpoint obj_get (key : string) (props : list (string * Value))
    : option Value :=
  match props with
  | [] => None
  | (k, v) :: rest => if String.eqb k key then Some v else obj_get key rest
  end.

(** [obj[key] = v]: an existing property keeps its place, a new one goes
    last. *)
Fixpoint obj_set (key : string) (v : Value) (props : list (string * Value))
    : list (string * Value) :=
  match props with
  | [] => [(key, v)]
  | (k, v') :: rest =>
      if String.eqb k key then (k, v) :: rest
      else (k, v') :: obj_set key v rest
  end.




(** [path.split('.')] *)
Fixpoint split (path : string) : list string :=
  match path with
  | EmptyString => [EmptyString]
  | String c rest =>
      if Ascii.eqb c "." then EmptyString :: split rest
      else
        match split rest with
        | seg :: segs => String c seg :: segs
        | [] => [String c EmptyString]
        end
  end.

(** Array index names: decimal digits without a leading zero. *)
Definition digit (c : ascii) : option nat :=
  let n := nat_of_ascii c in
  if (48 <=? n)%nat && (n <=? 57)%nat then Some (n - 48)%nat else None.

Fixpoint parseDigits (s : string) (acc : nat) : option nat :=
  match s with
  | EmptyString => Some acc
  | String c rest =>
      match digit c with
      | Some d => parseDigits rest (10 * acc + d)%nat
      | None => None
      end
  end.

Definition parseIndex (key : string) : option nat :=
  match key with
  | EmptyString => None
  | String c rest =>
      if Ascii.eqb c "0" then
        match rest with EmptyString => Some 0%nat | _ => None end
      else parseDigits key 0
  end.

(** [current[key]] on an object or an array, for the properties of its
    own; [None] is [undefined].  A name that the object does not hold and
    that [Object.prototype] carries ([inherited]) leads to the inherited
    member in the code: [set] is [Unmodelled] where it reads one. *)
Definition getProp (current : Value) (key : string) : option Value :=
  match current with
  | VObj props => obj_get key props
  | VArr items =>
      if String.eqb key "length" then
        Some (VNum (inject_Z (Z.of_nat (length items))))
      else
        match parseIndex key with
        | Some i => nth_error items i
        | None => None
        end
  | _ => None
  end.

(** The loop of [get] over the keys. *)
Fixpoint getWalk (current : option Value) (keys : list string)
    (defaultValue : option Value) : option Value :=
  match keys with
  | [] =>
      match current with
      | Some v => Some v
      | None => defaultValue
      end
  | key :: rest =>
      match current with
      | Some (VObj props) => getWalk (getProp (VObj props) key) rest defaultValue
      | Some (VArr items) => getWalk (getProp (VArr items) key) rest defaultValue
      | _ => defaultValue
      end
  end.

(** [clonedObj[key] = v] in [deepClone]: on the name [__proto__] the
    assignment runs the setter of [Object.prototype], which ignores a
    primitive value and makes an object or [null] the prototype of the
    clone. *)
Definition cloneInto (key : string) (v : Value)
    (clonedObj : list (string * Value)) : Outcome (list (string * Value)) :=
  if String.eqb key "__proto__" then
    match v with
    | VNull | VArr _ | VObj _ => Unmodelled
    | _ => Done clonedObj
    end
  else Done (obj_set key v clonedObj).

(** [deepClone(obj)].  The loop over the keys of an object calls
    [obj.hasOwnProperty(key)]: on an object that has a key
    [hasOwnProperty] of its own, whose value is data and no function, the
    first call throws. *)
Fixpoint deepClone (obj : Value) : Outcome Value :=
  match obj with
  | VArr items =>
      match
        (fix each (l : list Value) : Outcome (list Value) :=
           match l with
           | [] => Done []
           | item :: rest =>
               match deepClone item with
               | Done item' =>
                   match each rest with
                   | Done rest' => Done (item' :: rest')
                   | Throws => Throws
                   | Unmodelled => Unmodelled
                   end
               | Throws => Throws
               | Unmodelled => Unmodelled
               end
           end) items
      with
      | Done items' => Done (VArr items')
      | Throws => Throws
      | Unmodelled => Unmodelled
      end
  | VObj props =>
      if existsb (String.eqb "hasOwnProperty") (List.map fst props) then Throws
      else
        match
          (fix each (l : list (string * Value))
               (clonedObj : list (string * Value))
               : Outcome (list (string * Value)) :=
             match l with
             | [] => Done clonedObj
             | (key, v) :: rest =>
                 match deepClone v with
                 | Done v' =>
                     match cloneInto key v' clonedObj with
                     | Done clonedObj' => each rest clonedObj'
                     | Throws => Throws
                     | Unmodelled => Unmodelled
                     end
                 | Throws => Throws
                 | Unmodelled => Unmodelled
                 end
             end) props []
        with
        | Done clonedObj => Done (VObj clonedObj)
        | Throws => Throws
        | Unmodelled => Unmodelled
        end
  | _ => Done obj
  end.



(** A subscription.  The callback is a function of the subscriber: the
    model keeps its identity and whether a call of it throws. *)
Record Subscription := {
  sub_id : nat;
  sub_callback : nat;
  sub_throws : bool;
  sub_once : bool;
  sub_immediate : bool;
  sub_deep : bool;
  sub_filter : option (option Value -> option Value -> string -> bool)
}.

(** A call [callback(newValue, oldValue, path)]. *)
Record Notification := {
  n_subscription : nat;
  n_callback : nat;
  n_newValue : option Value;
  n_oldValue : option Value;
  n_path : string
}.

Record Store := {
  state : Value;
  history : list Value;
  historyLimit : nat;
  historyIndex : Z;
  stateListeners : list (string * list Subscription); (* a Map *)
  notified : list Notification
}.

Definition with_state (st : Store) (v : Value) : Store :=
  {| state := v; history := history st; historyLimit := historyLimit st;
     historyIndex := historyIndex st; stateListeners := stateListeners st;
     notified := notified st |}.

Definition with_history (st : Store) (h : list Value) (i : Z) : Store :=
  {| state := state st; history := h; historyLimit := historyLimit st;
     historyIndex := i; stateListeners := stateListeners st;
     notified := notified st |}.

Definition with_listeners (st : Store)
    (l : list (string * list Subscription)) : Store :=
  {| state := state st; history := history st;
     historyLimit := historyLimit st; historyIndex := historyIndex st;
     stateListeners := l; notified := notified st |}.

Definition notify (st : Store) (n : Notification) : Store :=
  {| state := state st; history := history st;
     historyLimit := historyLimit st; historyIndex := historyIndex st;
     stateListeners := stateListeners st; notified := notified st ++ [n] |}.

(** [get(path, defaultValue)] *)
Definition get (path : string) (defaultValue : option Value) (st : Store)
    : option Value :=
  getWalk (Some (state st)) (split path) defaultValue.

(** [saveToHistory()], once the copy of the state is made. *)
Definition pushHistory (stateCopy : Value) (st : Store) : Store :=
  let h :=
    if historyIndex st <? Z.of_nat (length (history st)) - 1 then
      firstn (Z.to_nat (historyIndex st + 1)) (history st)
    else history st in
  let h1 := h ++ [stateCopy] in
  let i1 := historyIndex st + 1 in
  if (historyLimit st <? length h1)%nat then with_history st (tl h1) (i1 - 1)
  else with_history st h1 i1.

(** [saveToHistory()] *)
Definition saveToHistory (st : Store) : Outcome Store :=
  match deepClone (state st) with
  | Done stateCopy => Done (pushHistory stateCopy st)
  | Throws => Throws
  | Unmodelled => Unmodelled
  end.

(** *** Listeners *)

Fixpoint listeners_get (path : string)
    (m : list (string * list Subscription)) : option (list Subscription) :=
  match m with
  | [] => None
  | (k, v) :: rest =>
      if String.eqb k path then Some v else listeners_get path rest
  end.

Fixpoint listeners_set (path : string) (v : list Subscription)
    (m : list (string * list Subscription))
    : list (string * list Subscription) :=
  match m with
  | [] => [(path, v)]
  | (k, v') :: rest =>
      if String.eqb k path then (k, v) :: rest
      else (k, v') :: listeners_set path v rest
  end.

Definition hasId (id : nat) (l : list Subscription) : bool :=
  existsb (fun x => Nat.eqb (sub_id x) id) l.

Fixpoint spliceId (id : nat) (l : list Subscription) : list Subscription :=
  match l with
  | [] => []
  | x :: rest => if Nat.eqb (sub_id x) id then rest else x :: spliceId id rest
  end.

(** The loop of [unsubscribe] over the map: the first path that holds the
    id loses it, and goes when it holds nothing else. *)
Fixpoint unsubscribeIn (id : nat) (m : list (string * list Subscription))
    : option (list (string * list Subscription)) :=
  match m with
  | [] => None
  | (path, listeners) :: rest =>
      if hasId id listeners then
        match spliceId id listeners with
        | [] => Some rest
        | l' => Some ((path, l') :: rest)
        end
      else
        match unsubscribeIn id rest with
        | Some rest' => Some ((path, listeners) :: rest')
        | None => None
        end
  end.

(** [unsubscribe(subscriptionId)] *)
Definition unsubscribe (id : nat) (st : Store) : bool * Store :=
  match unsubscribeIn id (stateListeners st) with
  | Some m => (true, with_listeners st m)
  | None => (false, st)
  end.

(** [subscribe(path, callback, options)], with the generated id. *)
Definition subscribe (path : string) (sub : Subscription) (st : Store)
    : nat * Store :=
  let existing := default [] (listeners_get path (stateListeners st)) in
  let st1 :=
    with_listeners st
      (listeners_set path (existing ++ [sub]) (stateListeners st)) in
  let st2 :=
    if sub_immediate sub then
      let currentValue := get path None st1 in
      notify st1
        {| n_subscription := sub_id sub; n_callback := sub_callback sub;
           n_newValue := currentValue; n_oldValue := currentValue;
           n_path := path |}
    else st1 in
  (sub_id sub, st2).

(** The first loop of [notifyListeners]: calls, and the ids to remove. *)
Fixpoint notifyLoop (listeners : list Subscription)
    (newValue oldValue : option Value) (path : string) (st : Store)
    : Store * list nat :=
  match listeners with
  | [] => (st, [])
  | subscription :: rest =>
      let skip :=
        match sub_filter subscription with
        | Some f => negb (f newValue oldValue path)
        | None => false
        end in
      if skip then notifyLoop rest newValue oldValue path st
      else
        let st1 :=
          notify st
            {| n_subscription := sub_id subscription;
               n_callback := sub_callback subscription;
               n_newValue := newValue; n_oldValue := oldValue;
               n_path := path |} in
        let '(st2, toRemove) := notifyLoop rest newValue oldValue path st1 in
        if negb (sub_throws subscription) && sub_once subscription then
          (st2, sub_id subscription :: toRemove)
        else (st2, toRemove)
  end.

(** [notifyListeners(listeners, newValue, oldValue, path)] *)
Definition notifyListeners (listeners : list Subscription)
    (newValue oldValue : option Value) (path : string) (st : Store) : Store :=
  let '(st1, listenersToRemove) :=
    notifyLoop listeners newValue oldValue path st in
  List.fold_left (fun acc id => snd (unsubscribe id acc)) listenersToRemove st1.

(** *** Wildcard patterns *)

(** The regular expression built from a pattern, one token per character:
    a star becomes a group that repeats the class of the characters other
    than the dot, a question mark becomes a group of any one character, a
    dot stays a dot of the regular expression, and an ordinary character
    stands for itself. *)
Inductive Token :=
| TChar (c : ascii)
| TDot
| TStar
| TAny.

(** Characters that would change the shape of the regular expression. *)
Definition isMeta (c : ascii) : bool :=
  existsb (Ascii.eqb c)
    ["\"; "^"; "$"; "|"; "+"; "("; ")"; "["; "]"; "{"; "}"]%char.

Fixpoint tokens (pattern : string) : option (list Token) :=
  match pattern with
  | EmptyString => Some []
  | String c rest =>
      match tokens rest with
      | None => None
      | Some ts =>
          if Ascii.eqb c "*" then Some (TStar :: ts)
          else if Ascii.eqb c "?" then Some (TAny :: ts)
          else if Ascii.eqb c "." then Some (TDot :: ts)
          else if isMeta c then None
          else Some (TChar c :: ts)
      end
  end.

(** Line feed and carriage return, which the dot of a regular expression
    does not match. *)
Definition isLineTerminator (c : ascii) : bool :=
  (nat_of_ascii c =? 10)%nat || (nat_of_ascii c =? 13)%nat.

(** Does the whole of [s] match the tokens? *)
Fixpoint matches (ts : list Token) (s : string) : bool :=
  match ts with
  | [] => match s with EmptyString => true | _ => false end
  | TChar c :: rest =>
      match s with
      | String d s' => Ascii.eqb c d && matches rest s'
      | EmptyString => false
      end
  | TDot :: rest =>
      match s with
      | String d s' => negb (isLineTerminator d) && matches rest s'
      | EmptyString => false
      end
  | TAny :: rest =>
      match s with
      | String _ s' => matches rest s'
      | EmptyString => false
      end
  | TStar :: rest =>
      (fix star (s : string) : bool :=
         matches rest s
         || match s with
            | String d s' => negb (Ascii.eqb d ".") && star s'
            | EmptyString => false
            end) s
  end.

(** [pathMatches(path, pattern)]; [None] when the pattern holds a
    character that the model of regular expressions does not cover. *)
Definition pathMatches (path pattern : string) : option bool :=
  match tokens pattern with
  | Some ts => Some (matches ts path)
  | None => None
  end.

(** [listenerPath.includes('*')] *)
Fixpoint includesStar (s : string) : bool :=
  match s with
  | EmptyString => false
  | String c rest => Ascii.eqb c "*" || includesStar rest
  end.

(** The wildcard loop of [notifyChange], over the paths the map had when
    the loop began. *)
Fixpoint notifyWildcards (listenerPaths : list string) (path : string)
    (newValue oldValue : option Value) (st : Store) : Outcome Store :=
  match listenerPaths with
  | [] => Done st
  | listenerPath :: rest =>
      match listeners_get listenerPath (stateListeners st) with
      | None => notifyWildcards rest path newValue oldValue st
      | Some listeners =>
          if includesStar listenerPath then
            match pathMatches path listenerPath with
            | None => Unmodelled
            | Some true =>
                notifyWildcards rest path newValue oldValue
                  (notifyListeners listeners newValue oldValue path st)
            | Some false => notifyWildcards rest path newValue oldValue st
            end
          else notifyWildcards rest path newValue oldValue st
      end
  end.

(** [notifyChange(path, newValue, oldValue)] *)
Definition notifyChange (path : string) (newValue oldValue : option Value)
    (st : Store) : Outcome Store :=
  let st1 :=
    match listeners_get path (stateListeners st) with
    | Some specificListeners =>
        notifyListeners specificListeners newValue oldValue path st
    | None => st
    end in
  notifyWildcards (List.map fst (stateListeners st1)) path newValue oldValue
    st1.

(** [notifyGlobalChange()] *)
Definition notifyGlobalChange (st : Store) : Store :=
  match listeners_get "*" (stateListeners st) with
  | Some globalListeners =>
      notifyListeners globalListeners (Some (state st)) (Some (state st)) "*"
        st
  | None => st
  end.

(** *** Writing *)

Fixpoint replaceAt (i : nat) (v : Value) (items : list Value) : list Value :=
  match items, i with
  | [], _ => []
  | _ :: rest, O => v :: rest
  | x :: rest, S j => x :: replaceAt j v rest
  end.

(** [current[key] = v] on an array, for the indices that keep it dense. *)
Definition arr_set (key : string) (v : Value) (items : list Value)
    : Outcome (list Value) :=
  match parseIndex key with
  | Some i =>
      if (i <? length items)%nat then Done (replaceAt i v items)
      else if (i =? length items)%nat then Done (items ++ [v])
      else Unmodelled
  | None => if String.eqb key "length" then Throws else Unmodelled
  end.

(** The walk of [set] down to the parent, and the assignment of
    [lastKey]; the result is the container as the method leaves it and the
    old value of the leaf.  [Throws] is the [TypeError] of stepping into
    [null] or the [RangeError] of assigning an object to [length].  On an
    object the key [__proto__] leads into [Object.prototype], and the old
    value read under a name that the object does not hold and
    [Object.prototype] carries is the inherited member: both are
    [Unmodelled]. *)
Fixpoint setWalk (current : Value) (keys : list string) (lastKey : string)
    (value : Value) : Outcome (Value * option Value) :=
  match keys with
  | [] =>
      match current with
      | VObj props =>
          match obj_get lastKey props with
          | Some old => Done (VObj (obj_set lastKey value props), Some old)
          | None =>
              if inherited lastKey then Unmodelled
              else Done (VObj (obj_set lastKey value props), None)
          end
      | VArr items =>
          match arr_set lastKey value items with
          | Done items' => Done (VArr items', getProp (VArr items) lastKey)
          | Throws => Unmodelled
          | Unmodelled => Unmodelled
          end
      | _ => Throws
      end
  | key :: rest =>
      match current with
      | VObj props =>
          if String.eqb key "__proto__" then Unmodelled
          else
            let child :=
              match obj_get key props with
              | Some c => if isObjectType c then c else VObj []
              | None => VObj []
              end in
            match setWalk child rest lastKey value with
            | Done (child', old) => Done (VObj (obj_set key child' props), old)
            | Throws => Throws
            | Unmodelled => Unmodelled
            end
      | VArr items =>
          match getProp (VArr items) key with
          | Some c =>
              if isObjectType c then
                match setWalk c rest lastKey value with
                | Done (child', old) =>
                    match arr_set key child' items with
                    | Done items' => Done (VArr items', old)
                    | _ => Unmodelled
                    end
                | Throws => Throws
                | Unmodelled => Unmodelled
                end
              else
                match arr_set key (VObj []) items with
                | Done _ =>
                    match setWalk (VObj []) rest lastKey value with
                    | Done (child', old) =>
                        match arr_set key child' items with
                        | Done items' => Done (VArr items', old)
                        | _ => Unmodelled
                        end
                    | Throws => Throws
                    | Unmodelled => Unmodelled
                    end
                | Throws => Throws
                | Unmodelled => Unmodelled
                end
          | None =>
              match arr_set key (VObj []) items with
              | Done _ =>
                  match setWalk (VObj []) rest lastKey value with
                  | Done (child', old) =>
                      match arr_set key child' items with
                      | Done items' => Done (VArr items', old)
                      | _ => Unmodelled
                      end
                  | Throws => Throws
                  | Unmodelled => Unmodelled
                  end
              | Throws => Throws
              | Unmodelled => Unmodelled
              end
          end
      | _ => Throws
      end
  end.

(** The [options] of [set]. *)
Record SetOptions := {
  so_validate : bool;
  so_notify : bool;
  so_history : bool
}.

Definition defaultOptions : SetOptions :=
  {| so_validate := true; so_notify := true; so_history := true |}.

(** [validateValue(path, value)] *)
Definition validateValue (path : string) (value : Value) : bool := true.

(** [keys.pop()] and what is left. *)
Definition popLast (keys : list string) : list string * string :=
  (List.removelast keys, List.last keys EmptyString).

(** [set(path, value, options)] *)
Definition set (path : string) (value : Value) (options : SetOptions)
    (st : Store) : Outcome Store :=
  match (if so_history options then saveToHistory st else Done st) with
  | Done st1 =>
      let '(keys, lastKey) := popLast (split path) in
      match setWalk (state st1) keys lastKey value with
      | Done (state', oldValue) =>
          if so_validate options && negb (validateValue path value) then
            (* the walk has run, the assignment has not *)
            Unmodelled
          else
            let st2 := with_state st1 state' in
            if so_notify options then
              notifyChange path (Some value) oldValue st2
            else Done st2
      | Throws => Throws
      | Unmodelled => Unmodelled
      end
  | Throws => Throws
  | Unmodelled => Unmodelled
  end.


(** The [options] of [setState]: a field is [None] when absent. *)
Record StateOptions := {
  st_history : option bool;
  st_notify : option bool
}.

Definition noStateOptions : StateOptions :=
  {| st_history := None; st_notify := None |}.

(** [setState(newState, options)] *)
Definition setState (newState : Value) (options : StateOptions) (st : Store)
    : Outcome Store :=
  if negb (isObjectType newState) then Done st
  else
    match
      match st_history options with
      | Some false => Done st
      | _ => saveToHistory st
      end
    with
    | Done st1 =>
        match deepClone newState with
        | Done newState' =>
            let st2 := with_state st1 newState' in
            match st_notify options with
            | Some false => Done st2
            | _ => Done (notifyGlobalChange st2)
            end
        | Throws => Throws
        | Unmodelled => Unmodelled
        end
    | Throws => Throws
    | Unmodelled => Unmodelled
    end.

(** The store of the constructor, with an initial [state]. *)
Definition newStore (initial : Value) : Store :=
  {| state := initial; history := []; historyLimit := 50;
     historyIndex := -1; stateListeners := []; notified := [] |}.

(** *** Matching segment by segment

    What the subscription patterns are meant to do, in the words of the
    specification: pattern and path are cut at their dots, a [*] segment
    stands for any one segment, any other segment for itself. *)

Definition segmentMatches (pat seg : string) : bool :=
  String.eqb pat "*" || String.eqb pat seg.

Fixpoint segmentsMatch (pats segs : list string) : bool :=
  match pats, segs with
  | [], [] => true
  | pat :: pats', seg :: segs' =>
      segmentMatches pat seg && segmentsMatch pats' segs'
  | _, _ => false
  end.

Definition matchesBySegments (path pattern : string) : bool :=
  segmentsMatch (split pattern) (split path).

(** A plain subscription with the given id and callback. *)
Definition subscription (id callback : nat) : Subscription :=
  {| sub_id := id; sub_callback := callback; sub_throws := false;
     sub_once := false; sub_immediate := false; sub_deep := false;
     sub_filter := None |}.

(** The notifications that a result holds, if it is a store. *)
Definition notifiedOf (r : Outcome Store) : option (list Notification) :=
  match r with
  | Done st => Some (notified st)
  | _ => None
  end.

(** ** History navigation, and sequences of operations *)

(** [undo()]; [Unmodelled] when the index points outside the history and
    the state becomes [undefined]. *)
Definition undo (st : Store) : Outcome (bool * Store) :=
  if historyIndex st <=? 0 then Done (false, st)
  else
    let i := historyIndex st - 1 in
    match nth_error (history st) (Z.to_nat i) with
    | Some snapshot =>
        match deepClone snapshot with
        | Done snapshot' =>
            Done (true,
                  notifyGlobalChange
                    (with_state (with_history st (history st) i) snapshot'))
        | Throws => Throws
        | Unmodelled => Unmodelled
        end
    | None => Unmodelled
    end.

(** [redo()] *)
Definition redo (st : Store) : Outcome (bool * Store) :=
  if Z.of_nat (length (history st)) - 1 <=? historyIndex st then
    Done (false, st)
  else
    let i := historyIndex st + 1 in
    if i <? 0 then Unmodelled
    else
      match nth_error (history st) (Z.to_nat i) with
      | Some snapshot =>
          match deepClone snapshot with
          | Done snapshot' =>
              Done (true,
                    notifyGlobalChange
                      (with_state (with_history st (history st) i) snapshot'))
          | Throws => Throws
          | Unmodelled => Unmodelled
          end
      | None => Unmodelled
      end.

(** The operations of the store that touch its state or its history. *)
Inductive Op :=
| OpSet (path : string) (value : Value) (options : SetOptions)
| OpSetState (newState : Value) (options : StateOptions)
| OpUndo
| OpRedo
| OpSubscribe (path : string) (sub : Subscription)
| OpUnsubscribe (id : nat).

Definition run (o : Op) (st : Store) : Outcome Store :=
  match o with
  | OpSet path value options => set path value options st
  | OpSetState newState options => setState newState options st
  | OpUndo =>
      match undo st with
      | Done r => Done (snd r)
      | Throws => Throws
      | Unmodelled => Unmodelled
      end
  | OpRedo =>
      match redo st with
      | Done r => Done (snd r)
      | Throws => Throws
      | Unmodelled => Unmodelled
      end
  | OpSubscribe path sub => Done (snd (subscribe path sub st))
  | OpUnsubscribe id => Done (snd (unsubscribe id st))
  end.

End StateManager.

(** * Specification predicates for the lifecycle engine *)

Module PlantSpec.
Import PlantSystem.

Definition occupiedState (st : PlotState) : Prop :=
  st = SPlanted \/ st = SGrowing \/ st = SReady.

(** [plot.plant != null] iff [plot.state] is planted, growing or ready. *)
Definition occupancy (p : Plot) : Prop :=
  p_plant p <> None <-> occupiedState (p_state p).

Definition occupancyInvariant (s : State) : Prop :=
  Forall occupancy (plots s).

(** The same plot, with a stage that did not go down. *)
Definition stageLe (p p' : Plot) : Prop :=
  p_id p' = p_id p /\ p_growthStage p <= p_growthStage p'.

(** What an [updates] object built by the tick may hold for [plot]. *)
Definition tickUpdate (plot : Plot) (u : PlotUpdates) : Prop :=
  u_plant u = None /\ u_plantedAt u = None /\
  (u_state u = None \/
   (u_state u = Some SReady /\
    (p_state plot = SPlanted \/ p_state plot = SGrowing))) /\
  (forall g, u_growthStage u = Some g -> p_growthStage plot < g).

(** One call of the periodic tick: through [update], or [updatePlants]
    itself. *)
Inductive Tick :=
| TickUpdate (deltaTime : Q) (now : Z)
| TickUpdatePlants (now : Z).

Definition tick (plantData : gmap string PlantData) (t : Tick) (s : State)
    : State :=
  match t with
  | TickUpdate deltaTime now => update plantData deltaTime now s
  | TickUpdatePlants now => fst (updatePlants plantData now s)
  end.

Definition ticks (plantData : gmap string PlantData) (ts : list Tick)
    (s : State) : State :=
  List.fold_left (fun st t => tick plantData t st) ts s.

(** ** Predicates of the lifecycle laws *)

(** The moves of [plot.state] that one operation can make. *)
Definition stateMove (a b : PlotState) : Prop :=
  b = a \/
  (a = SEmpty /\ b = SPlanted) \/
  ((a = SPlanted \/ a = SGrowing) /\ b = SReady) \/
  (a = SReady /\ b = SEmpty).

Definition plotMove (p p' : Plot) : Prop :=
  p_id p' = p_id p /\ stateMove (p_state p) (p_state p').

(** What the tick alone does to a state. *)
Definition tickMove (p p' : Plot) : Prop :=
  p_id p' = p_id p /\
  (p_state p' = p_state p \/
   ((p_state p = SPlanted \/ p_state p = SGrowing) /\ p_state p' = SReady)).

Definition neverEntered (p : Plot) : Prop :=
  p_state p <> SGrowing /\ p_state p <> SHarvested.

Definition levelsOk (p : Plot) : Prop :=
  (0 <= p_waterLevel p)%Q /\ (0 <= p_nutrients p)%Q.

(** The levels a tick may write. *)
Definition tickLevels (u : PlotUpdates) : Prop :=
  (forall w, u_waterLevel u = Some w -> (0 <= w)%Q) /\
  (forall n, u_nutrients u = Some n -> (0 <= n)%Q).

(** What [plantSeed], [waterPlant], [harvestPlant] and [accelerateGrowth]
    hand to [updatePlot] for the plot [plot]. *)
Definition actionUpdate (plot : Plot) (u : PlotUpdates) : Prop :=
  (p_state plot = SEmpty /\ (exists plant, u_plant u = Some (Some plant)) /\
   u_state u = Some SPlanted /\
   u_waterLevel u = Some 100%Q /\ u_nutrients u = Some 80%Q) \/
  (p_state plot = SReady /\ u_plant u = Some None /\
   u_state u = Some SEmpty /\
   u_waterLevel u = Some 50%Q /\ u_nutrients u = Some 50%Q) \/
  (u_plant u = None /\ u_state u = None /\
   (u_waterLevel u = None \/
    u_waterLevel u = Some (Qmin 100 (p_waterLevel plot + 30))) /\
   u_nutrients u = None).

Definition isTick (o : Op) : bool :=
  match o with
  | OpUpdate _ _ | OpUpdatePlants _ => true
  | _ => false
  end.

(** The plot found under [plotId] holds a plant. *)
Definition hasPlant (ps : list Plot) (plotId : Z) : Prop :=
  exists plot plant,
    List.find (fun p => p_id p =? plotId) ps = Some plot /\
    p_plant plot = Some plant.

(** [activePlants] holds an entry for a plot id exactly when the plot of
    that id holds a plant; a [Map] has each key once. *)
Definition tracked (s : State) : Prop :=
  NoDup (List.map fst (activePlants s)) /\
  forall plotId,
    is_Some (Map_get plotId (activePlants s)) <-> hasPlant (plots s) plotId.


Definition runAll (plantData : gmap string PlantData) (ops : list Op)
    (s : State) : State :=
  List.fold_left (fun st o => run plantData o st) ops s.

End PlantSpec.

(** * Specification predicates for the bus and the eras *)

Module BusSpec.
Import EventBus.

(** No stored listener carries the [once] flag. *)
Definition noOnce (b : Bus) : Prop :=
  forall event listeners,
    events_get event (events b) = Some listeners ->
    Forall (fun l => l_once l = false) listeners.

(** ** Predicates of the bus laws *)

(** Higher priority first. *)
Fixpoint sortedDesc (l : list Listener) : Prop :=
  match l with
  | [] => True
  | x :: rest =>
      Forall (fun y => l_priority y <= l_priority x) rest /\ sortedDesc rest
  end.

(** What one listener adds to the trace of calls when [emit] reaches it:
    its invocation and, if the callback throws and an error handler is
    set, the call of the handler. *)
Definition callsOf (event : string) (args : nat) (l : Listener) : list Call :=
  Invoked (l_id l) (cb_id (l_callback l)) event args
  :: (if cb_throws (l_callback l) then
        match l_onError l with
        | Some handler => [ErrorHandled (l_id l) (h_id handler)]
        | None => []
        end
      else []).

(** The call of the listener ends the emission: its callback throws and
    so does its error handler. *)
Definition raises (l : Listener) : bool :=
  cb_throws (l_callback l)
  && match l_onError l with
     | Some handler => h_throws handler
     | None => false
     end.

(** The listeners that an emission reaches: those up to the first one
    that ends it. *)
Fixpoint reached (listeners : list Listener) : list Listener :=
  match listeners with
  | [] => []
  | l :: rest => l :: (if raises l then [] else reached rest)
  end.

(** A list of listeners as the bus keeps it: not empty, sorted, with ids
    that the counter has passed. *)
Definition wfListeners (counter : nat) (l : list Listener) : Prop :=
  l <> [] /\ sortedDesc l /\ Forall (fun x => (l_id x <= counter)%nat) l.

Definition wfBus (b : Bus) : Prop :=
  NoDup (List.map fst (events b)) /\
  Forall (fun kv => wfListeners (listenerIdCounter b) (snd kv)) (events b) /\
  Forall (fun kv => (fst kv <= listenerIdCounter b)%nat) (listenerMap b).

(** The listener that [on] builds. *)
Definition newListener (callback : Callback) (options : Options) (b : Bus)
    : Listener :=
  {| l_id := S (listenerIdCounter b); l_callback := callback;
     l_context := o_context options; l_once := false;
     l_priority := o_priority options; l_onError := o_onError options |}.

End BusSpec.

Module TravelSpec.
Import TimeTravelSystem.

(** How often [eraId] occurs in a list of era ids. *)
Definition occurrences (eraId : string) (l : list string) : nat :=
  length (List.filter (String.eqb eraId) l).

(** The era stored under [eraId], if there is one, is unlocked. *)
Definition notLocked (s : State) (eraId : string) : Prop :=
  forall era, eras_get eraId (eras s) = Some era -> unlocked era = true.

(** What a step that may unlock eras other than [eraId] keeps. *)
Definition keepsUnlocked (eraId : string) (s s' : State) : Prop :=
  isUnlocked s' eraId = true /\
  eras_get eraId (eras s') = eras_get eraId (eras s) /\
  occurrences eraId (unlockedEras (store s'))
    = occurrences eraId (unlockedEras (store s)) /\
  exists new,
    emitted s' = emitted s ++ new /\
    forall timestamp, ~ In (EvEraUnlocked eraId timestamp) new.

(** ** Predicates of the travel laws *)

(** An event of the unlocking of an era that was locked in [s]: the
    era-unlocked event with its id, or the notification with its name. *)
Definition fromLocked (s : State) (e : Event) : Prop :=
  exists eraId era,
    eras_get eraId (eras s) = Some era /\ unlocked era = false /\
    ((exists timestamp, e = EvEraUnlocked eraId timestamp) \/
     e = EvNotification (era_name era)).

(** What a step that unlocks eras may change, and what it may not: the
    fields of the system other than the eras, the inventory, the era of
    the store and the harvest statistics stay; an era that was unlocked
    and an era that is still locked are as they were; the ids added to
    [player.unlockedEras] and the events emitted belong to eras that were
    locked. *)
Definition unlocksOnly (s s' : State) : Prop :=
  (currentEra s' = currentEra s /\ previousEra s' = previousEra s /\
   isTraveling s' = isTraveling s /\ travelCooldown s' = travelCooldown s /\
   travelConfig s' = travelConfig s /\ config s' = config s /\
   plantGrowthMultiplier s' = plantGrowthMultiplier s) /\
  (resources (store s') = resources (store s) /\
   seeds (store s') = seeds (store s) /\
   time_currentEra (store s') = time_currentEra (store s) /\
   time_previousEra (store s') = time_previousEra (store s) /\
   harvestStats (store s') = harvestStats (store s)) /\
  (forall eraId,
      isUnlocked s eraId = true ->
      eras_get eraId (eras s') = eras_get eraId (eras s)) /\
  (forall eraId era,
      eras_get eraId (eras s') = Some era -> unlocked era = false ->
      eras_get eraId (eras s) = Some era) /\
  (exists added,
      unlockedEras (store s') = unlockedEras (store s) ++ added /\
      Forall (fun eraId => isUnlocked s eraId = false) added) /\
  (exists new,
      emitted s' = emitted s ++ new /\ Forall (fromLocked s) new).

(** The rule of [checkEraUnlocks], in words: a harvest requirement is met
    by a harvest of its plant type once the count on record has reached
    the count it asks for; a resource requirement is met once the amount
    in the inventory has reached the amount it asks for; a minigame
    requirement, or one of another type, is never met by a harvest. *)
Definition requirementMet (st : Store) (harvestedType : string)
    (req : Requirement) : Prop :=
  match req with
  | ReqHarvest plantType count =>
      harvestedType = plantType /\
      (count <= default 0%Q (harvestStats st !! plantType))%Q
  | ReqResource resource amount =>
      (amount <= default 0%Q (resources st !! resource))%Q
  | ReqMinigame _ => False
  | ReqOther _ => False
  end.

(** The name that the requirement of an era looks up in the store is one
    the store keeps as a key of its own. *)
Definition ordinaryRequirement (era : Era) : bool :=
  match unlockRequirement era with
  | Some (ReqHarvest plantType _) => ownName plantType
  | Some (ReqResource resource _) => ownName resource
  | _ => true
  end.

(** [update] for each frame of the game loop, in turn. *)
Definition updates (deltas : list Q) (s : State) : State :=
  List.fold_left (fun st deltaTime => update deltaTime st) deltas s.

(** Does the era stored under [eraId] carry a requirement that the
    counters of the store meet, for a harvest of [harvestedType]? *)
Definition meets (s : State) (harvestedType eraId : string) : bool :=
  match eras_get eraId (eras s) with
  | Some era =>
      match unlockRequirement era with
      | Some req => shouldUnlock s harvestedType req
      | None => false
      end
  | None => false
  end.

(** Every unlocked era of the map is named in [player.unlockedEras]. *)
Definition listed (s : State) : Prop :=
  forall eraId,
    isUnlocked s eraId = true -> In eraId (unlockedEras (store s)).



End TravelSpec.

Module StoreSpec.
Import StateManager.

Definition isDot (c : ascii) : bool := Ascii.eqb c ".".

(** The dots of a string: one less than the number of its segments. *)
Fixpoint countDots (s : string) : nat :=
  match s with
  | EmptyString => 0%nat
  | String c rest => ((if isDot c then 1 else 0) + countDots rest)%nat
  end.

Fixpoint countTDot (ts : list Token) : nat :=
  match ts with
  | [] => 0%nat
  | TDot :: rest => S (countTDot rest)
  | _ :: rest => countTDot rest
  end.

(** A character of a pattern that stands for itself. *)
Definition ordinary (c : ascii) : bool :=
  negb (Ascii.eqb c "*") && negb (Ascii.eqb c "?") && negb (Ascii.eqb c ".")
  && negb (isMeta c).

Fixpoint allOrdinary (s : string) : bool :=
  match s with
  | EmptyString => true
  | String c rest => ordinary c && allOrdinary rest
  end.

(** A segment of a pattern: the wildcard, or a name. *)
Definition okSegment (seg : string) : bool :=
  String.eqb seg "*" || allOrdinary seg.

(** A token that takes no dot of the path, or is the dot. *)
Definition plainToken (t : Token) : bool :=
  match t with
  | TAny => false
  | TChar c => negb (isDot c)
  | _ => true
  end.

(** ** Predicates of the store laws *)

(** From [st] to [st'] only listeners were removed and subscribers told:
    state and history are the same, and every new notification satisfies
    [P]. *)
Definition told (P : Notification -> Prop) (st st' : Store) : Prop :=
  state st' = state st /\
  history st' = history st /\
  historyLimit st' = historyLimit st /\
  historyIndex st' = historyIndex st /\
  exists new, notified st' = notified st ++ new /\ Forall P new.

(** A notification of the change of [path] from [oldValue] to
    [newValue]. *)
Definition tells (newValue oldValue : option Value) (path : string)
    (n : Notification) : Prop :=
  n_newValue n = newValue /\ n_oldValue n = oldValue /\ n_path n = path.





(** How many subscriptions of the map carry the id. *)
Definition countId (id : nat) (l : list Subscription) : nat :=
  length (List.filter (fun x => Nat.eqb (sub_id x) id) l).

Fixpoint occ (id : nat) (m : list (string * list Subscription)) : nat :=
  match m with
  | [] => 0%nat
  | (_, l) :: rest => (countId id l + occ id rest)%nat
  end.

End StoreSpec.

(** * Scenarios *)

Module Scenario.
Import PlantSystem.

Definition mossData : PlantData :=
  {| pd_name := "Musgo Prehistorico"; pd_emoji := "moss";
     pd_era := "prehistoric"; pd_growTime := 30000; pd_stages := 3;
     pd_harvestYield :=
       Some {| hy_seeds := 1;
               hy_resources :=
                 [("temporal-pulses", 5%Q); ("fossils", 2%Q)] |} |}.

Definition catalog : gmap string PlantData :=
  {[ "prehistoric-moss" := mossData ]}.

(** The state after planting moss in plot 0 at time 1000. *)
Definition planted0 : State :=
  snd (plantSeed catalog 0 "prehistoric-moss" 1000 initialState).

Definition mossPlant : Plant :=
  {| pl_type := "prehistoric-moss"; pl_name := pd_name mossData;
     pl_emoji := pd_emoji mossData; pl_era := pd_era mossData;
     pl_growTime := 30000; pl_maxStages := 3;
     pl_harvestYield :=
       {| hy_seeds := 1;
          hy_resources :=
            [("temporal-pulses", 5%Q); ("fossils", 2%Q)] |} |}.

(** Plot 0 of [planted0] and its entry in [activePlants]. *)
Definition freshPlot : Plot :=
  {| p_id := 0; p_plant := Some mossPlant; p_state := SPlanted;
     p_waterLevel := 100%Q; p_nutrients := 80%Q;
     p_plantedAt := Some 1000; p_lastWatered := Some 1000;
     p_growthStage := 0; p_maxGrowthStage := 3 |}.

Definition freshActive : ActivePlant :=
  {| ap_plant := mossPlant; ap_plotId := 0; ap_plantedAt := Some 1000;
     ap_lastWatered := Some 1000; ap_growthStage := 0;
     ap_waterLevel := 100%Q; ap_nutrients := 80%Q |}.


(** What the listener of the achievement system does at the first
    planting: the achievement [first-plant] pays twenty pulses. *)
Definition firstPlant (s : State) : State :=
  set_resources s
    (<["temporal-pulses" := (resourceOf s "temporal-pulses" + 20)%Q]>
       (resources s)).

End Scenario.

Module StoreScenario.
Import StateManager.

(** A cut of the default state of the constructor. *)
Definition defaultTree : Value :=
  VObj
    [("player",
      VObj
        [("name", VStr "Nari"); ("level", VNum 1);
         ("inventory",
          VObj
            [("seeds", VObj [("prehistoric-moss", VNum 5)]);
             ("resources",
              VObj [("temporal-pulses", VNum 100); ("seeds", VNum 10)]);
             ("items", VArr [])]);
         ("unlockedEras", VArr [VStr "prehistoric"])]);
     ("farm",
      VObj
        [("plots",
          VArr
            [VObj
               [("id", VNum 0); ("plant", VNull); ("state", VStr "empty");
                ("waterLevel", VNum 50); ("nutrients", VNum 50)]])]);
     ("time",
      VObj [("currentEra", VStr "prehistoric"); ("previousEra", VNull)])].

Definition defaultStore : Store := newStore defaultTree.

(** A store over [{ a: { b: { c: 1 } } }] with one subscriber, of id 1
    and callback 11, on the pattern [a.*.c]. *)
Definition abcTree : Value :=
  VObj [("a", VObj [("b", VObj [("c", VNum 1)])])].

Definition subscribed : Store :=
  snd (subscribe "a.*.c" (subscription 1 11) (newStore abcTree)).

End StoreScenario.

(** * Binary64 evaluation of the growth formula

    The same expressions as [calculateGrowth], over the doubles of the
    language, for the scenario whose numbers are given in decimal. *)

Module Float64.

Definition max (a b : float) : float := if PrimFloat.ltb a b then b else a.
Definition min (a b : float) : float := if PrimFloat.ltb b a then b else a.

(** [Math.floor] on a finite double, as an integer. *)
Definition floor (x : float) : option Z :=
  match Prim2SF x with
  | S754_zero _ => Some 0
  | S754_finite sign m e =>
      let n := if 0 <=? e then Z.pos m * 2 ^ e else Z.pos m / 2 ^ (- e) in
      let exact :=
        if 0 <=? e then true else Z.pos m mod 2 ^ (- e) =? 0 in
      Some (if sign then (if exact then - n else - n - 1) else n)
  | _ => None
  end.

Definition progress (waterLevel nutrients growTime multiplier elapsed : float)
    : float :=
  let waterFactor := max 0x1.999999999999ap-4 (waterLevel / 100) in
  let nutrientFactor := max 0x1.999999999999ap-4 (nutrients / 100) in
  let environmentFactor := (waterFactor * nutrientFactor)%float in
  let adjustedGrowTime :=
    (growTime / (environmentFactor * multiplier))%float in
  min 1 (elapsed / adjustedGrowTime).

Definition newStage (progress maxStages : float) : option Z :=
  floor (progress * maxStages)%float.

End Float64.

(** * Properties *)

Section PlantSystemFacts.
Import PlantSystem PlantSpec.

(** *** Frame lemmas for the store of plots *)

Lemma updateAt_Forall (P : Plot -> Prop) (plotId : Z) (u : PlotUpdates) :
  forall ps,
    Forall P ps ->
    (forall p, List.find (fun q => p_id q =? plotId) ps = Some p ->
               P (spread p u)) ->
    Forall P (updateAt ps plotId u).
Proof.
  induction ps as [|q ps IH]; intros Hall Hhit; cbn in *.
  - constructor.
  - inversion Hall as [|? ? Hq Hps]; subst.
    destruct (p_id q =? plotId).
    + constructor; [apply Hhit; reflexivity | exact Hps].
    + constructor; [exact Hq | apply IH; assumption].
Qed.

Lemma updateAt_Forall2 (R : Plot -> Plot -> Prop) (plotId : Z)
    (u : PlotUpdates) :
  (forall p, R p p) ->
  forall ps,
    (forall p, List.find (fun q => p_id q =? plotId) ps = Some p ->
               R p (spread p u)) ->
    Forall2 R ps (updateAt ps plotId u).
Proof.
  intros Hrefl. induction ps as [|q ps IH]; intros Hhit; cbn in *.
  - constructor.
  - destruct (p_id q =? plotId).
    + constructor; [apply Hhit; reflexivity | apply Forall2_same_length_lookup_2;
        [reflexivity | intros i x y Hx Hy; rewrite Hx in Hy; injection Hy as <-; apply Hrefl]].
    + constructor; [apply Hrefl | apply IH; assumption].
Qed.

Lemma getPlot_updatePlot (s : State) (plotId : Z) (u : PlotUpdates) :
  getPlot (updatePlot s plotId u) plotId =
  option_map (fun p => spread p u) (getPlot s plotId).
Proof.
  unfold getPlot, updatePlot. cbn [plots set_plots].
  induction (plots s) as [|q ps IH]; cbn; [reflexivity|].
  destruct (p_id q =? plotId) eqn:E; cbn.
  - rewrite E. reflexivity.
  - rewrite E. exact IH.
Qed.

Lemma getPlot_updatePlot_other (s : State) (plotId other : Z)
    (u : PlotUpdates) :
  other <> plotId ->
  getPlot (updatePlot s plotId u) other = getPlot s other.
Proof.
  intros Hne. unfold getPlot, updatePlot. cbn [plots set_plots].
  induction (plots s) as [|q ps IH]; cbn; [reflexivity|].
  destruct (p_id q =? plotId) eqn:E; cbn.
  - apply Z.eqb_eq in E. rewrite E.
    destruct (plotId =? other) eqn:E2; [apply Z.eqb_eq in E2; congruence|].
    reflexivity.
  - destruct (p_id q =? other); [reflexivity | exact IH].
Qed.

Lemma applyHarvestRewards_plots (r : Rewards) (s : State) :
  plots (applyHarvestRewards r s) = plots s.
Proof.
  unfold applyHarvestRewards. cbn [Object_entries_number fold_left].
  generalize dependent s.
  induction (rw_resources r) as [|[resource amount] rest IH]; intros s;
    cbn; [reflexivity|].
  rewrite IH. reflexivity.
Qed.


(** *** What one tick does to the plots *)

Lemma PlotState_eqb_eq (a b : PlotState) : PlotState_eqb a b = true <-> a = b.
Proof. destruct a, b; cbn; split; intros H; congruence. Qed.

Lemma calculateGrowth_stageChanged plantData s plot plant now r :
  calculateGrowth plantData s plot plant now = Some r ->
  stageChanged r = (p_growthStage plot <? newStage r).
Proof.
  unfold calculateGrowth. destruct (getPlantData _ _); [|discriminate].
  intros H. injection H as <-. reflexivity.
Qed.

Ltac break_ifs :=
  repeat (match goal with
          | |- context [if ?c then _ else _] => destruct c eqn:?
          end; cbv beta iota zeta).

Ltac break_growth :=
  match goal with
  | |- context [match calculateGrowth ?a ?b ?c ?d ?e with _ => _ end] =>
      let Hr := fresh "Hgrowth" in
      destruct (calculateGrowth a b c d e) as [?r|] eqn:Hr;
      [apply calculateGrowth_stageChanged in Hr|]
  end.

Lemma planted_or_growing (st : PlotState) :
  PlotState_eqb st SPlanted || PlotState_eqb st SGrowing = true ->
  st = SPlanted \/ st = SGrowing.
Proof.
  intros H. apply orb_true_iff in H.
  destruct H as [H|H]; apply PlotState_eqb_eq in H; auto.
Qed.

Lemma updatePlantsBody_plots plantData now s plotId plant :
  let s' := fst (fst (updatePlantsBody plantData now s plotId plant)) in
  plots s' = plots s \/
  exists plot u,
    getPlot s plotId = Some plot /\ tickUpdate plot u /\
    plots s' = updateAt (plots s) plotId u.
Proof.
  unfold updatePlantsBody.
  destruct (getPlot s plotId) as [plot|] eqn:Hplot; [|left; reflexivity].
  break_ifs; try break_growth; break_ifs;
    first [ left; reflexivity
          | right; eexists plot, _;
            split; [reflexivity|]; split; [|reflexivity];
            unfold tickUpdate; cbn;
            repeat split; auto using planted_or_growing;
            intros g Hg; try discriminate Hg;
            injection Hg as <-; apply Z.ltb_lt; symmetry; assumption ].
Qed.

Lemma updatePlantsLoop_plots (P : list Plot -> Prop) plantData now :
  (forall s plotId plant,
      P (plots s) ->
      P (plots (fst (fst (updatePlantsBody plantData now s plotId plant))))) ->
  forall entries s,
    P (plots s) ->
    P (plots (fst (fst (updatePlantsLoop plantData now s entries)))).
Proof.
  intros Hbody. induction entries as [|[plotId plant] rest IH]; intros s Hs.
  - exact Hs.
  - cbn [updatePlantsLoop].
    specialize (Hbody s plotId plant Hs).
    destruct (updatePlantsBody plantData now s plotId plant)
      as [[s1 plant1] threw].
    cbn [fst] in Hbody. destruct threw; [exact Hbody|].
    specialize (IH s1 Hbody).
    destruct (updatePlantsLoop plantData now s1 rest) as [[s2 rest2] threw2].
    exact IH.
Qed.

Lemma updatePlants_plots (P : list Plot -> Prop) plantData now :
  (forall s plotId plant,
      P (plots s) ->
      P (plots (fst (fst (updatePlantsBody plantData now s plotId plant))))) ->
  forall s, P (plots s) -> P (plots (fst (updatePlants plantData now s))).
Proof.
  intros Hbody s Hs. unfold updatePlants.
  pose proof (updatePlantsLoop_plots P plantData now Hbody (activePlants s) s Hs)
    as H.
  destruct (updatePlantsLoop plantData now s (activePlants s))
    as [[s1 entries] threw].
  exact H.
Qed.

Lemma update_plots (P : list Plot -> Prop) plantData deltaTime now :
  (forall s plotId plant,
      P (plots s) ->
      P (plots (fst (fst (updatePlantsBody plantData now s plotId plant))))) ->
  forall s, P (plots s) -> P (plots (update plantData deltaTime now s)).
Proof.
  intros Hbody s Hs. unfold update.
  destruct (Qgeb _ _); [|exact Hs].
  pose proof (updatePlants_plots P plantData now Hbody
                (set_updateTimer s (updateTimer s + deltaTime)%Q) Hs) as H.
  destruct (updatePlants plantData now _) as [s2 threw].
  destruct threw; exact H.
Qed.

(** *** Plot occupancy *)

Lemma tickUpdate_occupancy (plot : Plot) (u : PlotUpdates) :
  tickUpdate plot u -> occupancy plot -> occupancy (spread plot u).
Proof.
  intros (Hplant & _ & Hstate & _) Hocc. unfold occupancy, spread in *.
  cbn. rewrite Hplant. cbn.
  destruct Hstate as [-> | [-> Hwas]]; cbn.
  - exact Hocc.
  - split; intros _.
    + right; right; reflexivity.
    + apply Hocc. unfold occupiedState. tauto.
Qed.

Lemma updatePlantsBody_occupancy plantData now s plotId plant :
  Forall occupancy (plots s) ->
  Forall occupancy
    (plots (fst (fst (updatePlantsBody plantData now s plotId plant)))).
Proof.
  intros Hinv.
  destruct (updatePlantsBody_plots plantData now s plotId plant)
    as [-> | (plot & u & Hplot & Hu & ->)]; [exact Hinv|].
  apply updateAt_Forall; [exact Hinv|].
  intros p Hp. unfold getPlot in Hplot. rewrite Hp in Hplot.
  injection Hplot as ->.
  apply tickUpdate_occupancy; [exact Hu|].
  apply List.find_some in Hp. destruct Hp as [Hin _].
  rewrite Forall_forall in Hinv. apply Hinv. apply list_elem_of_In. exact Hin.
Qed.

Lemma find_occupancy (s : State) (plotId : Z) (p : Plot) :
  occupancyInvariant s ->
  List.find (fun q => p_id q =? plotId) (plots s) = Some p ->
  occupancy p.
Proof.
  intros Hinv Hp. apply List.find_some in Hp. destruct Hp as [Hin _].
  unfold occupancyInvariant in Hinv. rewrite Forall_forall in Hinv.
  apply Hinv. apply list_elem_of_In. exact Hin.
Qed.

Lemma run_occupancy plantData (o : Op) (s : State) :
  occupancyInvariant s -> occupancyInvariant (run plantData o s).
Proof.
  intros Hinv. unfold occupancyInvariant.
  destruct o as [plotId seedType now | plotId now | plotId r1 r2 now
                | plotId duration now | deltaTime now | now | newEra];
    cbn [run]; [| | | | | |exact Hinv].
  - (* plantSeed *)
    unfold plantSeed.
    destruct (getPlot s plotId) as [plot|]; [|exact Hinv].
    destruct (negb _); [exact Hinv|].
    destruct (Qle_bool _ _); [exact Hinv|].
    destruct (getPlantData plantData seedType) as [data|]; [|exact Hinv].
    cbn. apply updateAt_Forall; [exact Hinv|].
    intros p _. unfold occupancy. cbn. split; intros _.
    + left; reflexivity.
    + discriminate.
  - (* waterPlant *)
    unfold waterPlant.
    destruct (getPlot s plotId) as [plot|]; [|exact Hinv].
    destruct (p_plant plot); [|exact Hinv].
    destruct (PlotState_eqb _ _); [exact Hinv|].
    assert (Hplots :
      Forall occupancy
        (updateAt (plots s) plotId
           {| u_plant := None; u_state := None; u_plantedAt := None;
              u_lastWatered := Some (Some now); u_growthStage := None;
              u_maxGrowthStage := None;
              u_waterLevel := Some (Qmin 100 (p_waterLevel plot + 30));
              u_nutrients := None |})).
    { apply updateAt_Forall; [exact Hinv|].
      intros q Hq. exact (find_occupancy s plotId q Hinv Hq). }
    cbn. destruct (Map_get plotId (activePlants s)); exact Hplots.
  - (* harvestPlant *)
    unfold harvestPlant.
    destruct (getPlot s plotId) as [plot|]; [|exact Hinv].
    destruct (p_plant plot); [|exact Hinv].
    destruct (negb _); [exact Hinv|].
    cbn [snd plots emit set_activePlants updatePlot set_plots].
    rewrite applyHarvestRewards_plots.
    apply updateAt_Forall; [exact Hinv|].
    intros q _. unfold occupancy, occupiedState. cbn.
    split; [congruence | intros [H|[H|H]]; discriminate H].
  - (* accelerateGrowth *)
    unfold accelerateGrowth.
    destruct (getPlot s plotId) as [plot|]; [|exact Hinv].
    destruct (p_plant plot) as [plant|]; [|exact Hinv].
    destruct (getPlantData plantData (pl_type plant)); [|exact Hinv].
    assert (Hplots :
      Forall occupancy
        (updateAt (plots s) plotId
           {| u_plant := None; u_state := None;
              u_plantedAt :=
                Some (Some (orNow (p_plantedAt plot) now - duration));
              u_lastWatered := None; u_growthStage := None;
              u_maxGrowthStage := None; u_waterLevel := None;
              u_nutrients := None |})).
    { apply updateAt_Forall; [exact Hinv|].
      intros q Hq. exact (find_occupancy s plotId q Hinv Hq). }
    cbn. destruct (Map_get plotId (activePlants s)); exact Hplots.
  - (* update *)
    apply (update_plots (Forall occupancy));
      [apply updatePlantsBody_occupancy | exact Hinv].
  - (* updatePlants *)
    apply (updatePlants_plots (Forall occupancy));
      [apply updatePlantsBody_occupancy | exact Hinv].
Qed.

Lemma initialState_occupancy : occupancyInvariant initialState.
Proof.
  unfold occupancyInvariant, initialState. cbn [plots].
  apply Forall_forall. intros p Hp. apply list_elem_of_In in Hp.
  apply in_map_iff in Hp. destruct Hp as (i & <- & _).
  unfold occupancy, occupiedState. cbn.
  split; [congruence | intros [H|[H|H]]; discriminate H].
Qed.

(** C4: the default store satisfies the occupancy invariant, and every
    mutating operation of the lifecycle engine ([plantSeed], [waterPlant],
    [harvestPlant], [accelerateGrowth], [update], [updatePlants],
    [onEraChanged]) keeps it:
    in every plot, [plant] is set exactly when [state] is planted, growing
    or ready. *)
Theorem plot_occupancy_invariant :
  forall plantData : gmap string PlantData,
    occupancyInvariant initialState /\
    forall (s : State) (o : Op),
      occupancyInvariant s -> occupancyInvariant (run plantData o s).
Proof.
  intros plantData. split.
  - exact initialState_occupancy.
  - intros s o. apply run_occupancy.
Qed.

Lemma plot_occupancy_invariant_witness :
  occupancyInvariant
    (run Scenario.catalog (OpUpdatePlants 40000)
       (run Scenario.catalog (OpPlantSeed 0 "prehistoric-moss" 1000)
          initialState)).
Proof.
  apply (proj2 (plot_occupancy_invariant Scenario.catalog)).
  apply (proj2 (plot_occupancy_invariant Scenario.catalog)).
  apply (proj1 (plot_occupancy_invariant Scenario.catalog)).
Defined.

(** *** Growth stages under the tick *)

Lemma stageLe_refl (p : Plot) : stageLe p p.
Proof. split; [reflexivity | lia]. Qed.

Lemma stageLe_trans (p q r : Plot) : stageLe p q -> stageLe q r -> stageLe p r.
Proof. intros [Hi1 Hs1] [Hi2 Hs2]. split; [congruence | lia]. Qed.

Lemma tickUpdate_stageLe (plot : Plot) (u : PlotUpdates) :
  tickUpdate plot u -> stageLe plot (spread plot u).
Proof.
  intros (_ & _ & _ & Hstage). split; [reflexivity|]. cbn.
  destruct (u_growthStage u) as [g|]; cbn.
  - specialize (Hstage g eq_refl). lia.
  - lia.
Qed.

Lemma updatePlantsBody_stageLe plantData now (ps0 : list Plot) s plotId plant :
  Forall2 stageLe ps0 (plots s) ->
  Forall2 stageLe ps0
    (plots (fst (fst (updatePlantsBody plantData now s plotId plant)))).
Proof.
  intros H0.
  destruct (updatePlantsBody_plots plantData now s plotId plant)
    as [-> | (plot & u & Hplot & Hu & ->)]; [exact H0|].
  eapply Forall2_trans; [exact stageLe_trans | exact H0 |].
  apply updateAt_Forall2; [exact stageLe_refl|].
  intros p Hp. unfold getPlot in Hplot. rewrite Hp in Hplot.
  injection Hplot as ->. apply tickUpdate_stageLe. exact Hu.
Qed.

Lemma Forall2_stageLe_refl (ps : list Plot) : Forall2 stageLe ps ps.
Proof. induction ps; constructor; auto using stageLe_refl. Qed.

Lemma tick_stageLe plantData (t : Tick) (s : State) :
  Forall2 stageLe (plots s) (plots (tick plantData t s)).
Proof.
  destruct t as [deltaTime now | now]; cbn [tick].
  - apply (update_plots (Forall2 stageLe (plots s))).
    + intros. apply updatePlantsBody_stageLe. assumption.
    + apply Forall2_stageLe_refl.
  - apply (updatePlants_plots (Forall2 stageLe (plots s))).
    + intros. apply updatePlantsBody_stageLe. assumption.
    + apply Forall2_stageLe_refl.
Qed.

Lemma ticks_stageLe plantData (ts : list Tick) :
  forall s, Forall2 stageLe (plots s) (plots (ticks plantData ts s)).
Proof.
  unfold ticks. induction ts as [|t ts IH]; intros s; cbn.
  - apply Forall2_stageLe_refl.
  - eapply Forall2_trans; [exact stageLe_trans | | apply IH].
    apply tick_stageLe.
Qed.

(** C5: whatever the clock readings and however many ticks run, through
    [update] or [updatePlants], the plot at a given position of
    [farm.plots] keeps its id and its [growthStage] does not go down; this
    holds for a plot in any state, so for one that is planted or
    growing. *)
Theorem growthStage_monotone :
  forall (plantData : gmap string PlantData) (ts : list Tick) (s : State)
         (i : nat) (p : Plot),
    plots s !! i = Some p ->
    p_state p = SPlanted \/ p_state p = SGrowing ->
    exists p',
      plots (ticks plantData ts s) !! i = Some p' /\
      p_id p' = p_id p /\
      p_growthStage p <= p_growthStage p'.
Proof.
  intros plantData ts s i p Hp _.
  destruct (Forall2_lookup_l _ _ _ i p (ticks_stageLe plantData ts s) Hp)
    as (p' & Hp' & Hid & Hle).
  exists p'. auto.
Qed.

Lemma growthStage_monotone_witness :
  exists p',
    plots (ticks Scenario.catalog
             [TickUpdate 1000 26000; TickUpdatePlants 27000]
             Scenario.planted0) !! 0%nat = Some p' /\
    p_id p' = p_id Scenario.freshPlot /\
    p_growthStage Scenario.freshPlot <= p_growthStage p'.
Proof.
  apply (growthStage_monotone Scenario.catalog
           [TickUpdate 1000 26000; TickUpdatePlants 27000] Scenario.planted0
           0%nat Scenario.freshPlot).
  - reflexivity.
  - left. reflexivity.
Defined.

(** The guard on [stageChanged] is what keeps the stage: after a first
    tick at 26 s the stored stage is 2; one second later water and
    nutrients have decayed, the formula gives stage 1, and the stored
    stage stays 2. *)
Example stage_kept_when_progress_drops :
  let s1 := ticks Scenario.catalog [TickUpdate 1000 26000] Scenario.planted0 in
  let s2 := ticks Scenario.catalog [TickUpdate 1000 27000] s1 in
  exists p1 p2 r,
    getPlot s1 0 = Some p1 /\ getPlot s2 0 = Some p2 /\
    p_growthStage p1 = 2 /\
    Qlt (p_waterLevel p1) 100 /\ Qlt (p_nutrients p1) 80 /\
    calculateGrowth Scenario.catalog s1 p1 Scenario.freshActive 27000
      = Some r /\
    newStage r = 1 /\ p_growthStage p2 = 2.
Proof.
  cbv zeta. eexists _, _, _.
  split; [vm_compute; reflexivity|].
  split; [vm_compute; reflexivity|].
  repeat split; vm_compute; reflexivity.
Qed.

(** *** Acceleration *)

(** C1, as the code has it: on a plot that holds a plant of a known
    species and has a non-zero [plantedAt], [accelerateGrowth(plotId, D)]
    rewrites the plot with [plantedAt] moved back by [D] and nothing else,
    leaves the other plots and the inventory alone, so the tick's growth
    computation at the same clock reading equals the computation on the
    old plot [D] milliseconds later; the value it returns and emits is the
    percentage [min(100, (now - newPlantedAt) / growTime * 100)], in which
    water, nutrients and the multiplier do not occur. *)
Theorem accelerateGrowth_shifts_plantedAt :
  forall (plantData : gmap string PlantData) (s : State) (plotId D now : Z)
         (plot : Plot) (plant : Plant) (data : PlantData) (t : Z),
    getPlot s plotId = Some plot ->
    p_plant plot = Some plant ->
    plantData !! pl_type plant = Some data ->
    p_plantedAt plot = Some t ->
    t <> 0 ->
    let r := accelerateGrowth plantData plotId D now s in
    let plot' :=
      {| p_id := p_id plot; p_plant := p_plant plot; p_state := p_state plot;
         p_waterLevel := p_waterLevel plot; p_nutrients := p_nutrients plot;
         p_plantedAt := Some (t - D); p_lastWatered := p_lastWatered plot;
         p_growthStage := p_growthStage plot;
         p_maxGrowthStage := p_maxGrowthStage plot |} in
    getPlot (snd r) plotId = Some plot' /\
    (forall other, other <> plotId -> getPlot (snd r) other = getPlot s other) /\
    seeds (snd r) = seeds s /\ resources (snd r) = resources s /\
    (forall ap,
        calculateGrowth plantData (snd r) plot' ap now =
        calculateGrowth plantData s plot ap (now + D)) /\
    fst r =
      Some (Qmin 100
              (inject_Z (now - (t - D)) / inject_Z (pd_growTime data) * 100)) /\
    emitted (snd r) =
      emitted s ++
      [EvAccelerated plotId
         (Qmin 100
            (inject_Z (now - (t - D)) / inject_Z (pd_growTime data) * 100))
         D now].
Proof.
  intros plantData s plotId D now plot plant data t Hplot Hplant Hdata Ht Hnz.
  assert (HorNow : orNow (p_plantedAt plot) now = t).
  { rewrite Ht. cbn. destruct (t =? 0) eqn:E; [|reflexivity].
    apply Z.eqb_eq in E. contradiction. }
  unfold accelerateGrowth, getPlantData. rewrite Hplot, Hplant, Hdata.
  rewrite HorNow. cbv zeta.
  set (u := {| u_plant := None; u_state := None;
               u_plantedAt := Some (Some (t - D)); u_lastWatered := None;
               u_growthStage := None; u_maxGrowthStage := None;
               u_waterLevel := None; u_nutrients := None |}).
  set (s2 := match Map_get plotId (activePlants (updatePlot s plotId u)) with
             | Some activePlant => _
             | None => updatePlot s plotId u
             end).
  assert (Hs2 : plots s2 = plots (updatePlot s plotId u) /\
                seeds s2 = seeds s /\ resources s2 = resources s /\
                emitted s2 = emitted s /\ growthConfig s2 = growthConfig s).
  { subst s2. destruct (Map_get _ _); repeat split. }
  destruct Hs2 as (Hplots & Hseeds & Hres & Hem & Hcfg).
  assert (Hget : forall k, getPlot s2 k = getPlot (updatePlot s plotId u) k).
  { intros k. unfold getPlot. rewrite Hplots. reflexivity. }
  cbn [fst snd]. repeat split.
  - unfold getPlot at 1. cbn [plots emit]. fold (getPlot s2 plotId).
    rewrite Hget, getPlot_updatePlot, Hplot. unfold spread, u. cbn.
    rewrite ?Hplant. reflexivity.
  - intros other Hother. unfold getPlot at 1. cbn [plots emit].
    fold (getPlot s2 other).
    rewrite Hget. apply getPlot_updatePlot_other. exact Hother.
  - exact Hseeds.
  - exact Hres.
  - intros ap. unfold calculateGrowth. cbn [growthConfig emit].
    rewrite Hcfg. cbn [p_plantedAt p_waterLevel p_nutrients p_growthStage].
    rewrite Ht. unfold timeSince. cbn [default from_option id].
    replace (now + D - t) with (now - (t - D)) by lia. reflexivity.
  - cbn [emitted emit]. rewrite Hem. reflexivity.
Qed.

Lemma accelerateGrowth_shifts_plantedAt_witness :
  let r := accelerateGrowth Scenario.catalog 0 15000 1000 Scenario.planted0 in
  fst r = Some (Qmin 100 (inject_Z (1000 - (1000 - 15000)) /
                          inject_Z (pd_growTime Scenario.mossData) * 100)).
Proof.
  apply (accelerateGrowth_shifts_plantedAt Scenario.catalog Scenario.planted0
           0 15000 1000 Scenario.freshPlot Scenario.mossPlant
           Scenario.mossData 1000); try reflexivity.
  lia.
Defined.

(** C1 as stated does not hold: on the plot just planted (nutrients 80),
    accelerating by 15000 ms reports 50, while 15000 ms of natural growth
    give the tick a progress of 0.4: the reported value is neither that
    progress nor that progress as a percentage. *)
Lemma accelerateGrowth_progress_differs :
  exists reported natural,
    fst (accelerateGrowth Scenario.catalog 0 15000 1000 Scenario.planted0)
      = Some reported /\
    calculateGrowth Scenario.catalog Scenario.planted0 Scenario.freshPlot
      Scenario.freshActive (1000 + 15000) = Some natural /\
    ~ (reported == progress natural)%Q /\
    ~ (reported == 100 * progress natural)%Q.
Proof.
  eexists _, _. split; [vm_compute; reflexivity|].
  split; [vm_compute; reflexivity|].
  split; intros H; vm_compute in H; discriminate H.
Qed.

(** *** Harvest and the seed inventory *)



(** *** Growth of a freshly planted plot *)

(** C2, as the code has it: with water 100, nutrients 80, a grow time of
    30000 ms, three stages and multiplier 1, the growth computation at
    [plantedAt + 30000] gives progress 0.8 and stage 2, and the plant is
    not ready. *)
Theorem calculateGrowth_new_plot :
  forall (plantData : gmap string PlantData) (s : State) (plot : Plot)
         (plant : ActivePlant) (data : PlantData) (t : Z),
    plantData !! pl_type (ap_plant plant) = Some data ->
    pd_growTime data = 30000 ->
    pl_maxStages (ap_plant plant) = 3 ->
    (p_waterLevel plot == 100)%Q ->
    (p_nutrients plot == 80)%Q ->
    (growthMultiplier (growthConfig s) == 1)%Q ->
    p_plantedAt plot = Some t ->
    exists r,
      calculateGrowth plantData s plot plant (t + 30000) = Some r /\
      (progress r == 4 # 5)%Q /\ newStage r = 2 /\ isReady r = false.
Proof.
  intros plantData s plot plant data t Hdata Hgrow Hstages Hw Hn Hm Ht.
  unfold calculateGrowth, getPlantData. rewrite Hdata.
  eexists. split; [reflexivity|]. cbn [progress newStage isReady].
  rewrite Hgrow, Hstages, Ht. unfold timeSince. cbn [default from_option id].
  replace (t + 30000 - t) with 30000 by lia.
  assert (Hp :
    (Qmin 1
       (inject_Z 30000 /
        (inject_Z 30000 /
         (Qmax (1 # 10) (p_waterLevel plot / 100)
          * Qmax (1 # 10) (p_nutrients plot / 100)
          * growthMultiplier (growthConfig s)))) == 4 # 5)%Q).
  { rewrite Hw, Hn, Hm. reflexivity. }
  split; [exact Hp|]. split.
  - rewrite (Qfloor_comp _ ((4 # 5) * inject_Z 3)%Q).
    + reflexivity.
    + rewrite Hp. reflexivity.
  - unfold Qgeb. apply not_true_is_false. intros H.
    apply Qle_bool_iff in H. rewrite Hp in H. revert H. apply Qlt_not_le.
    reflexivity.
Qed.

Lemma planted0_plot :
  getPlot Scenario.planted0 0 = Some Scenario.freshPlot /\
  Map_get 0 (activePlants Scenario.planted0) = Some Scenario.freshActive /\
  (growthMultiplier (growthConfig Scenario.planted0) == 1)%Q.
Proof. repeat split. Qed.

Lemma calculateGrowth_new_plot_witness :
  exists r,
    calculateGrowth Scenario.catalog Scenario.planted0 Scenario.freshPlot
      Scenario.freshActive (1000 + 30000) = Some r /\
    (progress r == 4 # 5)%Q /\ newStage r = 2 /\ isReady r = false.
Proof.
  apply (calculateGrowth_new_plot Scenario.catalog Scenario.planted0
           Scenario.freshPlot Scenario.freshActive Scenario.mossData 1000);
    reflexivity.
Defined.

(** C2 as stated does not hold: on the plot just planted (water 100,
    nutrients 80, grow time 30000, three stages, multiplier 1) the
    computation at [plantedAt + 30000] does not give progress 1 and
    stage 3. *)
Lemma calculateGrowth_new_plot_not_complete :
  ~ exists r,
      calculateGrowth Scenario.catalog Scenario.planted0 Scenario.freshPlot
        Scenario.freshActive (1000 + 30000) = Some r /\
      (progress r == 1)%Q /\ newStage r = 3.
Proof.
  intros [r [Hr [_ Hstage]]]. vm_compute in Hr.
  injection Hr as <-. discriminate Hstage.
Qed.

(** The same scenario in binary64: progress is below 1 and the stage is 2,
    so the outcome does not depend on rounding. *)
Lemma binary64_growth_of_new_plot :
  let p := Float64.progress 100 80 30000 1 30000 in
  (p <? 1)%float = true /\ Float64.newStage p 3 = Some 2.
Proof. vm_compute. split; reflexivity. Qed.

End PlantSystemFacts.

Section EventBusFacts.
Import EventBus BusSpec.

(** *** Listeners registered with [once] *)

Lemma insertByPriority_Forall (P : Listener -> Prop) (x : Listener) :
  forall l, P x -> Forall P l -> Forall P (insertByPriority x l).
Proof.
  induction l as [|y l IH]; intros Hx Hl; cbn.
  - constructor; [exact Hx | constructor].
  - inversion Hl; subst. destruct (l_priority x <? l_priority y).
    + constructor; auto.
    + constructor; auto.
Qed.

Lemma sortByPriority_Forall (P : Listener -> Prop) :
  forall l, Forall P l -> Forall P (sortByPriority l).
Proof.
  induction l as [|y l IH]; intros Hl; cbn.
  - constructor.
  - inversion Hl; subst. apply insertByPriority_Forall; auto.
Qed.

Lemma insertByPriority_In (x : Listener) :
  forall l, In x (insertByPriority x l).
Proof.
  induction l as [|y l IH]; cbn.
  - left; reflexivity.
  - destruct (l_priority x <? l_priority y); cbn; auto.
Qed.

Lemma insertByPriority_In_old (x y : Listener) :
  forall l, In y l -> In y (insertByPriority x l).
Proof.
  induction l as [|z l IH]; cbn; intros H; [contradiction|].
  destruct (l_priority x <? l_priority z); cbn; tauto.
Qed.

Lemma sortByPriority_In (y : Listener) :
  forall l, In y l -> In y (sortByPriority l).
Proof.
  induction l as [|z l IH]; cbn; intros H; [contradiction|].
  destruct H as [->|H].
  - apply insertByPriority_In.
  - apply insertByPriority_In_old. auto.
Qed.

Lemma events_get_set_same (event : string) (v : list Listener) :
  forall m, events_get event (events_set event v m) = Some v.
Proof.
  induction m as [|[k v'] m IH]; cbn.
  - rewrite String.eqb_refl. reflexivity.
  - destruct (String.eqb k event) eqn:E; cbn; rewrite E; auto.
Qed.

Lemma events_get_set_other (event other : string) (v : list Listener) :
  other <> event ->
  forall m, events_get other (events_set event v m) = events_get other m.
Proof.
  intros Hne. induction m as [|[k v'] m IH]; cbn.
  - destruct (String.eqb event other) eqn:E; [|reflexivity].
    apply String.eqb_eq in E. congruence.
  - destruct (String.eqb k event) eqn:E; cbn.
    + apply String.eqb_eq in E. subst k.
      destruct (String.eqb event other) eqn:E2; [|reflexivity].
      apply String.eqb_eq in E2. congruence.
    + destruct (String.eqb k other); auto.
Qed.

Lemma emptyBus_noOnce : noOnce emptyBus.
Proof. intros event listeners H. discriminate H. Qed.

Lemma on_noOnce event callback options b :
  noOnce b -> noOnce (snd (on event callback options b)).
Proof.
  intros Hb ev ls. unfold on. cbn [snd events].
  destruct (String.eqb_spec ev event) as [->|Hne].
  - rewrite events_get_set_same. intros H. injection H as <-.
    apply sortByPriority_Forall. apply Forall_app. split.
    + destruct (events_get event (events b)) as [l|] eqn:E; cbn.
      * exact (Hb event l E).
      * constructor.
    + constructor; [reflexivity | constructor].
  - rewrite events_get_set_other by exact Hne. apply Hb.
Qed.

(** [once] goes through [on], which stores [once: false] whatever the
    options say. *)
Lemma once_noOnce event callback options b :
  noOnce b -> noOnce (snd (once event callback options b)).
Proof. apply on_noOnce. Qed.

Lemma removeListener_calls event listenerId b :
  calls (snd (removeListener event listenerId b)) = calls b.
Proof.
  unfold removeListener.
  repeat match goal with
         | |- context [match ?x with _ => _ end] => destruct x
         end; reflexivity.
Qed.

Lemma emitLoop_calls_mono event args :
  forall copy handled b c,
    In c (calls b) -> In c (calls (snd (emitLoop event args copy handled b))).
Proof.
  induction copy as [|l copy IH]; intros handled b c Hc; cbn [emitLoop];
    [exact Hc|].
  assert (H1 : In c (calls
                       (record
                          (if l_once l
                           then snd (removeListener event (l_id l) b) else b)
                          (Invoked (l_id l) (cb_id (l_callback l)) event
                             args)))).
  { cbn [calls record]. apply in_app_iff. left.
    destruct (l_once l); [rewrite removeListener_calls|]; exact Hc. }
  destruct (cb_throws (l_callback l)); [|apply IH; exact H1].
  destruct (l_onError l) as [handler|]; [|apply IH; exact H1].
  assert (H2 : In c (calls
                       (record
                          (record
                             (if l_once l
                              then snd (removeListener event (l_id l) b)
                              else b)
                             (Invoked (l_id l) (cb_id (l_callback l)) event
                                args))
                          (ErrorHandled (l_id l) (h_id handler))))).
  { cbn [calls record] in *. apply in_app_iff. left. exact H1. }
  destruct (h_throws handler); [exact H2 | apply IH; exact H2].
Qed.

Lemma emitLoop_noOnce event args :
  forall copy handled b,
    Forall (fun l => l_once l = false) copy ->
    events (snd (emitLoop event args copy handled b)) = events b /\
    listenerMap (snd (emitLoop event args copy handled b)) = listenerMap b /\
    forall l, In l (reached copy) ->
      In (Invoked (l_id l) (cb_id (l_callback l)) event args)
         (calls (snd (emitLoop event args copy handled b))).
Proof.
  induction copy as [|l copy IH]; intros handled b Hall;
    cbn [emitLoop reached].
  - repeat split. intros l [].
  - inversion Hall as [|? ? Hl Hrest]; subst. rewrite Hl.
    set (b2 := record b
                 (Invoked (l_id l) (cb_id (l_callback l)) event args)).
    assert (Hhere : In (Invoked (l_id l) (cb_id (l_callback l)) event args)
                      (calls b2)).
    { cbn. apply in_app_iff. right. left. reflexivity. }
    unfold raises.
    destruct (cb_throws (l_callback l)); cbn [andb].
    + destruct (l_onError l) as [handler|].
      * destruct (h_throws handler).
        -- cbn [snd events listenerMap record]. repeat split.
           intros l' [<-|[]]. cbn. rewrite !in_app_iff. cbn. auto.
        -- destruct (IH handled
                       (record b2 (ErrorHandled (l_id l) (h_id handler)))
                       Hrest) as (He & Hm & Hc).
           repeat split; [exact He | exact Hm |].
           intros l' [<-|Hin]; [|auto].
           apply emitLoop_calls_mono. cbn. rewrite !in_app_iff. cbn. auto.
      * destruct (IH handled b2 Hrest) as (He & Hm & Hc).
        repeat split; [exact He | exact Hm |].
        intros l' [<-|Hin]; [|auto].
        apply emitLoop_calls_mono. exact Hhere.
    + destruct (IH true b2 Hrest) as (He & Hm & Hc).
      repeat split; [exact He | exact Hm |].
      intros l' [<-|Hin]; [|auto].
      apply emitLoop_calls_mono. exact Hhere.
Qed.

Lemma reached_In (x : Listener) (l : list Listener) :
  In x l -> Forall (fun y => y = x \/ raises y = false) l -> In x (reached l).
Proof.
  induction l as [|y rest IH]; intros Hin Hall; [destruct Hin|].
  apply Forall_cons in Hall. destruct Hall as [Hy Hrest]. cbn [reached].
  destruct Hy as [-> | Hy]; [left; reflexivity|].
  rewrite Hy. destruct Hin as [-> | Hin]; [left; reflexivity|].
  right. apply IH; assumption.
Qed.

(** On every bus built by [on] and [once], a listener registered with
    [once] is called by the next emission, when no error handler of an
    earlier listener ends it, and is still registered after it. *)
Lemma once_listener_stays :
  forall (b : Bus) (event : string) (callback : Callback) (options : Options)
         (args : nat),
    noOnce b ->
    Forall (fun l => raises l = false)
      (default [] (events_get event (events b))) ->
    let r := once event callback options b in
    let b2 := snd (emit event args (snd r)) in
    events b2 = events (snd r) /\
    In (Invoked (fst r) (cb_id callback) event args) (calls b2) /\
    exists listeners l,
      events_get event (events b2) = Some listeners /\
      In l listeners /\ l_id l = fst r /\ l_callback l = callback /\
      l_once l = false.
Proof.
  intros b event callback options args Hb Hquiet r b2.
  pose proof (once_noOnce event callback options b Hb) as Hno.
  fold r in Hno.
  set (new := {| l_id := S (listenerIdCounter b); l_callback := callback;
                 l_context := o_context options; l_once := false;
                 l_priority := o_priority options;
                 l_onError := o_onError options |}).
  set (ls := sortByPriority
               (default [] (events_get event (events b)) ++ [new])).
  assert (Hget : events_get event (events (snd r)) = Some ls).
  { subst r. unfold once, on. cbn [snd events]. apply events_get_set_same. }
  assert (Hin : In new ls).
  { subst ls. apply sortByPriority_In. apply in_app_iff. right. left.
    reflexivity. }
  assert (Hreached : In new (reached ls)).
  { apply reached_In; [exact Hin|]. subst ls. apply sortByPriority_Forall.
    apply Forall_app. split.
    - eapply List.Forall_impl; [|exact Hquiet]. cbn. auto.
    - constructor; [left; reflexivity | constructor]. }
  assert (Hall : Forall (fun l => l_once l = false) ls) by exact (Hno _ _ Hget).
  assert (Hemit : emit event args (snd r) = emitLoop event args ls false (snd r)).
  { unfold emit. rewrite Hget. destruct ls; [destruct Hin | reflexivity]. }
  destruct (emitLoop_noOnce event args ls false (snd r) Hall)
    as (He & _ & Hc).
  subst b2. rewrite Hemit. split; [exact He|]. split.
  - exact (Hc new Hreached).
  - exists ls, new. rewrite He. repeat split; auto.
Qed.

(** C7 fails on the code.  A listener registered with [once] on the empty
    bus is called by the first emission of its topic and again by the
    second one, and is still registered afterwards: [on] stores
    [once: false] whatever its options say, so [emit] never removes it. *)
Theorem once_listener_fires_twice :
  let cb := {| cb_id := 7; cb_throws := false |} in
  let r := once "plant:ready" cb noOptions emptyBus in
  let b2 := snd (emit "plant:ready" 0 (snd r)) in
  let b3 := snd (emit "plant:ready" 1 b2) in
  invocations 7 "plant:ready" b2 = 1%nat /\
  invocations 7 "plant:ready" b3 = 2%nat /\
  listenerCount "plant:ready" b3 = 1%nat.
Proof. vm_compute. repeat split. Qed.

(** The same with a second listener firing in the same emission. *)
Example two_listeners_both_fire_again :
  let cb := {| cb_id := 7; cb_throws := false |} in
  let other := {| cb_id := 8; cb_throws := false |} in
  let b0 := snd (on "plant:ready" other noOptions emptyBus) in
  let b1 := snd (once "plant:ready" cb noOptions b0) in
  let b3 := snd (emit "plant:ready" 1 (snd (emit "plant:ready" 0 b1))) in
  invocations 7 "plant:ready" b3 = 2%nat /\
  invocations 8 "plant:ready" b3 = 2%nat /\
  listenerCount "plant:ready" b3 = 2%nat.
Proof. vm_compute. repeat split. Qed.

End EventBusFacts.

Section TimeTravelFacts.
Import TimeTravelSystem TravelSpec.

(** *** Failed travel *)

Lemma travelAttempt_failure c eraId now targetEra (s : State) reason :
  fst (travelAttempt c eraId now targetEra s) = Failed reason ->
  reason = Thrown.
Proof.
  unfold travelAttempt. cbv zeta.
  destruct (enableTravelEffects _ && _);
    [cbn [fst]; intros H; injection H as <-; reflexivity|].
  destruct c; cbn [fst]; intros H; try discriminate H;
    injection H as <-; reflexivity.
Qed.

Lemma travelAttempt_eras c eraId now targetEra (s : State) :
  eras (snd (travelAttempt c eraId now targetEra s)) = eras s.
Proof.
  unfold travelAttempt, applyEraEffects. cbv zeta.
  destruct (enableTravelEffects _ && _); [destruct (enableCost _); reflexivity|].
  destruct (enableCost _), (effects_growthMultiplier targetEra) as [m|];
    try destruct (Qeq_bool m 0); destruct c; reflexivity.
Qed.

(** C3, as the code has it: when [travelTo] fails at one of its checks
    (a travel in progress, the same era, an unknown era, a locked era, the
    cooldown, too few pulses), whatever the collaborators would do, the
    store (so the balance of temporal pulses and [time.currentEra]) and
    the system's own [currentEra], [previousEra], cooldown and eras are
    what they were before the call. *)
Theorem travelTo_check_failure_changes_nothing :
  forall (c : Collaborators) (eraId : string) (now : Z) (s : State)
         (reason : Failure),
    fst (travelTo c eraId now s) = Failed reason ->
    reason <> Thrown ->
    let s' := snd (travelTo c eraId now s) in
    (temporalPulses s' == temporalPulses s)%Q /\
    store s' = store s /\
    time_currentEra (store s') = time_currentEra (store s) /\
    currentEra s' = currentEra s /\
    previousEra s' = previousEra s /\
    isTraveling s' = isTraveling s /\
    travelCooldown s' = travelCooldown s /\
    eras s' = eras s /\
    plantGrowthMultiplier s' = plantGrowthMultiplier s.
Proof.
  intros c eraId now s reason Hfail Hreason. revert Hfail. unfold travelTo.
  destruct (isTraveling s) eqn:Htrav;
    [intros _; cbn; rewrite Htrav; repeat split; reflexivity|].
  destruct (String.eqb (currentEra s) eraId);
    [intros _; cbn; rewrite Htrav; repeat split; reflexivity|].
  destruct (eras_get eraId (eras s)) as [targetEra|];
    [|intros _; cbn; rewrite Htrav; repeat split; reflexivity].
  destruct (negb (unlocked targetEra));
    [intros _; cbn; rewrite Htrav; repeat split; reflexivity|].
  destruct (enableCooldown (config s) && Qgtb (travelCooldown s) 0);
    [intros _; cbn; rewrite Htrav; repeat split; reflexivity|].
  destruct (enableCost (config s)
            && Qltb (temporalPulses s) (temporalPulseCost (travelConfig s)));
    [intros _; cbn; rewrite Htrav; repeat split; reflexivity|].
  intros Hfail. apply travelAttempt_failure in Hfail. contradiction.
Qed.

Lemma travelTo_check_failure_changes_nothing_witness :
  let s' := snd (travelTo AllFine "egyptian" 1000 initialState) in
  (temporalPulses s' == temporalPulses initialState)%Q /\
  store s' = store initialState /\
  time_currentEra (store s') = time_currentEra (store initialState) /\
  currentEra s' = currentEra initialState /\
  previousEra s' = previousEra initialState /\
  isTraveling s' = isTraveling initialState /\
  travelCooldown s' = travelCooldown initialState /\
  eras s' = eras initialState /\
  plantGrowthMultiplier s' = plantGrowthMultiplier initialState.
Proof.
  apply (travelTo_check_failure_changes_nothing AllFine "egyptian" 1000
           initialState Locked).
  - reflexivity.
  - discriminate.
Defined.

(** C3 as stated does not hold: with the Egyptian era unlocked and 100
    pulses, a travel whose effect sequence throws returns [false] with 90
    pulses left, and a travel whose music change throws returns [false]
    with the era already changed. *)
Lemma travelTo_throw_keeps_deduction :
  let s0 := unlockEra "egyptian" 0 initialState in
  let r1 := travelTo EffectsThrow "egyptian" 1000 s0 in
  let r2 := travelTo AudioThrows "egyptian" 1000 s0 in
  succeeded (fst r1) = false /\
  ~ (temporalPulses (snd r1) == temporalPulses s0)%Q /\
  succeeded (fst r2) = false /\
  time_currentEra (store (snd r2)) <> time_currentEra (store s0).
Proof.
  cbv zeta. split; [reflexivity|]. split.
  - intros H. vm_compute in H. discriminate H.
  - split; [reflexivity|]. vm_compute. discriminate.
Qed.

(** What the throw in the effect sequence leaves behind: the cost is
    gone, the era is the old one, and no travel is in progress. *)
Lemma travelAttempt_effects_throw (eraId : string) (now : Z) (targetEra : Era)
    (s : State) :
  enableCost (config s) = true ->
  enableTravelEffects (config s) = true ->
  let r := travelAttempt EffectsThrow eraId now targetEra s in
  fst r = Failed Thrown /\
  resources (store (snd r)) =
    <["temporal-pulses" :=
        (temporalPulses s - temporalPulseCost (travelConfig s))%Q]>
      (resources (store s)) /\
  currentEra (snd r) = currentEra s /\
  time_currentEra (store (snd r)) = time_currentEra (store s) /\
  isTraveling (snd r) = false.
Proof.
  intros Hcost Heffects. unfold travelAttempt. cbv zeta.
  cbn [config with_isTraveling]. rewrite Hcost.
  cbn [config emit with_store with_isTraveling]. rewrite Heffects.
  cbn [andb fst snd]. repeat split.
Qed.

(** *** Unlocking an era *)

Lemma eras_get_put (eraId k : string) (e : Era) :
  forall m,
    eras_get eraId (eras_put k e m) =
    if String.eqb k eraId then
      match eras_get k m with Some _ => Some e | None => None end
    else eras_get eraId m.
Proof.
  induction m as [|[k' e'] m IH]; cbn.
  - destruct (String.eqb k eraId); reflexivity.
  - destruct (String.eqb k' k) eqn:E1; cbn.
    + apply String.eqb_eq in E1. subst k'.
      destruct (String.eqb k eraId); reflexivity.
    + destruct (String.eqb k' eraId) eqn:E2.
      * destruct (String.eqb k eraId) eqn:E3; [|reflexivity].
        apply String.eqb_eq in E2, E3. subst.
        rewrite String.eqb_refl in E1. discriminate E1.
      * exact IH.
Qed.

Lemma keepsUnlocked_refl (eraId : string) (s : State) :
  isUnlocked s eraId = true -> keepsUnlocked eraId s s.
Proof.
  intros H. repeat split; auto. exists []. rewrite app_nil_r.
  split; [reflexivity | intros ts []].
Qed.

Lemma keepsUnlocked_trans (eraId : string) (s1 s2 s3 : State) :
  keepsUnlocked eraId s1 s2 -> keepsUnlocked eraId s2 s3 ->
  keepsUnlocked eraId s1 s3.
Proof.
  intros (_ & Hg1 & Ho1 & n1 & He1 & Hn1) (Hu & Hg2 & Ho2 & n2 & He2 & Hn2).
  repeat split; [exact Hu | congruence | congruence |].
  exists (n1 ++ n2). split.
  - rewrite He2, He1, app_assoc. reflexivity.
  - intros ts Hin. apply in_app_iff in Hin. destruct Hin as [H|H].
    + exact (Hn1 ts H).
    + exact (Hn2 ts H).
Qed.

Lemma unlockEra_unlocked (eraId : string) (now : Z) (s : State) :
  isUnlocked s eraId = true -> unlockEra eraId now s = s.
Proof.
  unfold isUnlocked, unlockEra.
  destruct (eras_get eraId (eras s)) as [era|]; [|reflexivity].
  intros ->. reflexivity.
Qed.

Lemma unlockEra_keeps (eraId k : string) (now : Z) (s : State) :
  isUnlocked s eraId = true -> keepsUnlocked eraId s (unlockEra k now s).
Proof.
  intros Hu. unfold unlockEra.
  destruct (eras_get k (eras s)) as [era|] eqn:Hk;
    [|apply keepsUnlocked_refl; exact Hu].
  destruct (unlocked era) eqn:Hera; [apply keepsUnlocked_refl; exact Hu|].
  assert (Hne : String.eqb k eraId = false).
  { destruct (String.eqb k eraId) eqn:E; [|reflexivity].
    apply String.eqb_eq in E. subst k. unfold isUnlocked in Hu.
    rewrite Hk, Hera in Hu. discriminate Hu. }
  assert (Hget : eras_get eraId (eras_put k (set_unlocked era true) (eras s))
                 = eras_get eraId (eras s)).
  { rewrite eras_get_put, Hne. reflexivity. }
  cbv zeta. unfold keepsUnlocked, isUnlocked.
  destruct (existsb (String.eqb k) (unlockedEras (store s))) eqn:Hin;
    cbn [eras emit with_eras with_store store emitted unlockedEras
         store_set_unlockedEras];
    rewrite ?Hin; cbn [eras emit with_eras with_store store emitted unlockedEras
         store_set_unlockedEras]; rewrite Hget.
  - repeat split; [exact Hu|].
    eexists. rewrite <- app_assoc. split; [reflexivity|].
    intros ts [H|[H|[]]]; [|discriminate H].
    injection H as H _. subst k. rewrite String.eqb_refl in Hne.
    discriminate Hne.
  - repeat split; [exact Hu | |].
    + unfold occurrences. rewrite List.filter_app, length_app. cbn.
      rewrite String.eqb_sym, Hne. cbn. lia.
    + eexists. rewrite <- app_assoc. split; [reflexivity|].
      intros ts [H|[H|[]]]; [|discriminate H].
      injection H as H _. subst k. rewrite String.eqb_refl in Hne.
      discriminate Hne.
Qed.

Lemma checkEra_keeps (eraId k harvestedType : string) (now : Z) (s : State) :
  isUnlocked s eraId = true ->
  keepsUnlocked eraId s (checkEra harvestedType now s k).
Proof.
  intros Hu. unfold checkEra.
  destruct (eras_get k (eras s)) as [era|];
    [|apply keepsUnlocked_refl; exact Hu].
  destruct (unlocked era); [apply keepsUnlocked_refl; exact Hu|].
  destruct (unlockRequirement era) as [req|];
    [|apply keepsUnlocked_refl; exact Hu].
  destruct (shouldUnlock s harvestedType req);
    [apply unlockEra_keeps; exact Hu | apply keepsUnlocked_refl; exact Hu].
Qed.

Lemma checkEraUnlocks_keeps (eraId harvestedType : string) (now : Z)
    (s : State) :
  isUnlocked s eraId = true ->
  keepsUnlocked eraId s (checkEraUnlocks harvestedType now s).
Proof.
  unfold checkEraUnlocks. generalize (List.map fst (eras s)) as keys.
  intros keys. revert s.
  induction keys as [|k keys IH]; intros s Hu; cbn.
  - apply keepsUnlocked_refl. exact Hu.
  - pose proof (checkEra_keeps eraId k harvestedType now s Hu) as Hstep.
    eapply keepsUnlocked_trans; [exact Hstep|].
    apply IH. exact (proj1 Hstep).
Qed.

Lemma applyMinigameRewards_eras rewards (s : State) :
  eras (applyMinigameRewards rewards s) = eras s.
Proof.
  destruct rewards as [rw|]; [|reflexivity]. cbn.
  assert (H1 : forall l st,
    eras (List.fold_left
            (fun st '(resource, amount) =>
               with_store st
                 (store_set_resources (store st)
                    (<[resource :=
                         (default 0%Q (resources (store st) !! resource)
                          + amount)%Q]> (resources (store st)))))
            l st) = eras st).
  { induction l as [|[r a] l IH]; intros st; cbn; [reflexivity|].
    rewrite IH. reflexivity. }
  assert (H2 : forall l st,
    eras (List.fold_left
            (fun st '(seed, count) =>
               with_store st
                 (store_set_seeds (store st)
                    (<[seed :=
                         (default 0%Q (seeds (store st) !! seed) + count)%Q]>
                       (seeds (store st)))))
            l st) = eras st).
  { induction l as [|[r a] l IH]; intros st; cbn; [reflexivity|].
    rewrite IH. reflexivity. }
  rewrite H2, H1. reflexivity.
Qed.

Lemma travelTo_eras c eraId now (s : State) :
  eras (snd (travelTo c eraId now s)) = eras s.
Proof.
  unfold travelTo.
  repeat match goal with
         | |- context [if ?b then (Failed ?r, _) else _] =>
             destruct b; [reflexivity|]
         | |- context [match eras_get ?k ?m with _ => _ end] =>
             destruct (eras_get k m) as [targetEra|]; [|reflexivity]
         end.
  apply travelAttempt_eras.
Qed.

Lemma run_keeps_unlocked (o : Op) (s : State) (eraId : string) :
  keepsEras o = true ->
  isUnlocked s eraId = true -> isUnlocked (run o s) eraId = true.
Proof.
  intros Ho Hu.
  destruct o as [c k now | harvestedType now | k now
                | minigame success rewards now | deltaTime | cfg |];
    cbn [run]; try discriminate Ho.
  - unfold isUnlocked. rewrite travelTo_eras. exact Hu.
  - exact (proj1 (checkEraUnlocks_keeps eraId harvestedType now s Hu)).
  - exact (proj1 (unlockEra_keeps eraId k now s Hu)).
  - unfold onMinigameCompleted. destruct success; [|exact Hu].
    unfold isUnlocked. rewrite applyMinigameRewards_eras.
    destruct (minigameEra minigame (eras s)) as [k|]; [|exact Hu].
    exact (proj1 (unlockEra_keeps eraId k now s Hu)).
  - unfold update. destruct (Qgtb _ _); exact Hu.
  - exact Hu.
Qed.

Lemma isUnlocked_notLocked (s : State) (eraId : string) :
  isUnlocked s eraId = true -> notLocked s eraId.
Proof.
  unfold isUnlocked, notLocked. intros Hu era Hera.
  rewrite Hera in Hu. exact Hu.
Qed.

Lemma unlockEra_notLocked (eraId k : string) (now : Z) (s : State) :
  notLocked s eraId -> notLocked (unlockEra k now s) eraId.
Proof.
  intros Hs. unfold unlockEra.
  destruct (eras_get k (eras s)) as [era|] eqn:Hk; [|exact Hs].
  destruct (unlocked era); [exact Hs|].
  cbv zeta. unfold notLocked.
  assert (Heras :
    forall s2,
      eras s2 = eras_put k (set_unlocked era true) (eras s) ->
      forall e, eras_get eraId (eras s2) = Some e -> unlocked e = true).
  { intros s2 -> e. rewrite eras_get_put, Hk.
    destruct (String.eqb k eraId).
    - intros H. injection H as <-. reflexivity.
    - apply Hs. }
  apply Heras.
  destruct (existsb _ _); reflexivity.
Qed.

Lemma run_notLocked (o : Op) (s : State) (eraId : string) :
  notLocked s eraId -> notLocked (run o s) eraId.
Proof.
  intros Hs.
  destruct o as [c k now | harvestedType now | k now
                | minigame success rewards now | deltaTime | cfg |];
    cbn [run].
  - unfold notLocked. rewrite travelTo_eras. exact Hs.
  - unfold checkEraUnlocks. generalize (List.map fst (eras s)) as keys.
    intros keys. revert s Hs.
    induction keys as [|k keys IH]; intros s Hs; cbn; [exact Hs|].
    apply IH. unfold checkEra.
    destruct (eras_get k (eras s)) as [era|]; [|exact Hs].
    destruct (unlocked era); [exact Hs|].
    destruct (unlockRequirement era) as [req|]; [|exact Hs].
    destruct (shouldUnlock s harvestedType req); [|exact Hs].
    apply unlockEra_notLocked. exact Hs.
  - apply unlockEra_notLocked. exact Hs.
  - unfold onMinigameCompleted. destruct success; [|exact Hs].
    unfold notLocked. rewrite applyMinigameRewards_eras.
    destruct (minigameEra minigame (eras s)) as [k|]; [|exact Hs].
    apply unlockEra_notLocked. exact Hs.
  - unfold update. destruct (Qgtb _ _); exact Hs.
  - exact Hs.
  - intros era H. discriminate H.
Qed.

Lemma runAll_notLocked (ops : list Op) :
  forall (s : State) (eraId : string),
    notLocked s eraId -> notLocked (runAll ops s) eraId.
Proof.
  unfold runAll.
  induction ops as [|o ops IH]; intros s eraId Hs; cbn; [exact Hs|].
  apply IH. apply run_notLocked. exact Hs.
Qed.

Lemma runAll_keeps_unlocked (ops : list Op) :
  forall (s : State) (eraId : string),
    forallb keepsEras ops = true ->
    isUnlocked s eraId = true -> isUnlocked (runAll ops s) eraId = true.
Proof.
  unfold runAll.
  induction ops as [|o ops IH]; intros s eraId Hops Hu; cbn; [exact Hu|].
  cbn in Hops. apply andb_true_iff in Hops. destruct Hops as [Ho Hops].
  apply IH; [exact Hops|]. apply run_keeps_unlocked; assumption.
Qed.

(** With ten harvests of moss on record, the harvest event unlocks the
    Egyptian era once; the same event again changes nothing. *)
Example checkEraUnlocks_twice :
  let s0 :=
    with_store initialState
      {| resources := resources initialStore; seeds := seeds initialStore;
         time_currentEra := "prehistoric"; time_previousEra := None;
         unlockedEras := ["prehistoric"%string];
         harvestStats := {[ "prehistoric-moss" := 10%Q ]} |} in
  let s1 := checkEraUnlocks "prehistoric-moss" 1 s0 in
  let s2 := checkEraUnlocks "prehistoric-moss" 2 s1 in
  isUnlocked s0 "egyptian" = false /\
  isUnlocked s1 "egyptian" = true /\
  unlockedEras (store s1) = ["prehistoric"; "egyptian"]%string /\
  emitted s1 = [EvEraUnlocked "egyptian" 1; EvNotification "Antiguo Egipto"] /\
  s2 = s1.
Proof. vm_compute. repeat split. Qed.

(** The listener of the harvest event leaves the inventory alone. *)
Lemma unlockEra_inventory (eraId : string) (now : Z) (s : State) :
  seeds (store (unlockEra eraId now s)) = seeds (store s) /\
  resources (store (unlockEra eraId now s)) = resources (store s).
Proof.
  unfold unlockEra.
  destruct (eras_get eraId (eras s)) as [era|]; [|split; reflexivity].
  destruct (unlocked era); [split; reflexivity|].
  cbv zeta. cbn [store with_eras].
  destruct (existsb _ _); split; reflexivity.
Qed.

Lemma checkEraUnlocks_inventory (harvestedType : string) (now : Z)
    (s : State) :
  seeds (store (checkEraUnlocks harvestedType now s)) = seeds (store s) /\
  resources (store (checkEraUnlocks harvestedType now s))
    = resources (store s).
Proof.
  unfold checkEraUnlocks. generalize (List.map fst (eras s)) as keys.
  intros keys. revert s.
  induction keys as [|k keys IH]; intros s; cbn; [split; reflexivity|].
  destruct (IH (checkEra harvestedType now s k)) as [Hs Hr].
  rewrite Hs, Hr. unfold checkEra.
  destruct (eras_get k (eras s)) as [era|]; [|split; reflexivity].
  destruct (unlocked era); [split; reflexivity|].
  destruct (unlockRequirement era) as [req|]; [|split; reflexivity].
  destruct (shouldUnlock s harvestedType req); [|split; reflexivity].
  apply unlockEra_inventory.
Qed.

(** When every era is unlocked, [checkEraUnlocks] returns the state it
    was given. *)
Lemma checkEraUnlocks_all_unlocked (harvestedType : string) (now : Z)
    (s : State) :
  (forall k, In k (List.map fst (eras s)) -> isUnlocked s k = true) ->
  checkEraUnlocks harvestedType now s = s.
Proof.
  unfold checkEraUnlocks. generalize (List.map fst (eras s)) as keys.
  induction keys as [|k keys IH]; intros Hall; cbn; [reflexivity|].
  assert (Hk : checkEra harvestedType now s k = s).
  { unfold checkEra. specialize (Hall k (or_introl eq_refl)).
    unfold isUnlocked in Hall.
    destruct (eras_get k (eras s)) as [era|]; [|reflexivity].
    rewrite Hall. reflexivity. }
  rewrite Hk. apply IH. intros k' Hin. apply Hall. right. exact Hin.
Qed.

(** *** What unlocking leaves alone *)

Lemma checkEra_cases (harvestedType k : string) (now : Z) (s : State) :
  checkEra harvestedType now s k = s \/
  checkEra harvestedType now s k = unlockEra k now s.
Proof.
  unfold checkEra.
  destruct (eras_get k (eras s)) as [era|]; [|auto].
  destruct (unlocked era); [auto|].
  destruct (unlockRequirement era) as [req|]; [|auto].
  destruct (shouldUnlock s harvestedType req); auto.
Qed.

Lemma unlocksOnly_refl (s : State) : unlocksOnly s s.
Proof.
  unfold unlocksOnly. repeat split; auto.
  - exists []. rewrite app_nil_r. split; [reflexivity | constructor].
  - exists []. rewrite app_nil_r. split; [reflexivity | constructor].
Qed.

Lemma fromLocked_back (s s1 : State) (e : Event) :
  unlocksOnly s s1 -> fromLocked s1 e -> fromLocked s e.
Proof.
  intros (_ & _ & _ & Hlocked & _) (k & era & Hk & Hunl & He).
  exists k, era. split; [apply Hlocked; assumption|]. split; assumption.
Qed.

Lemma isUnlocked_back (s s1 : State) (eraId : string) :
  unlocksOnly s s1 -> isUnlocked s1 eraId = false -> isUnlocked s eraId = false.
Proof.
  intros (_ & _ & Hkept & _) H1.
  destruct (isUnlocked s eraId) eqn:Hs; [|reflexivity].
  unfold isUnlocked in *. rewrite (Hkept eraId) in H1; [|exact Hs].
  rewrite H1 in Hs. discriminate Hs.
Qed.

Lemma unlocksOnly_trans (s s1 s2 : State) :
  unlocksOnly s s1 -> unlocksOnly s1 s2 -> unlocksOnly s s2.
Proof.
  intros H1 H2.
  pose proof (fun e => fromLocked_back s s1 e H1) as Hev.
  pose proof (fun k => isUnlocked_back s s1 k H1) as Hun.
  destruct H1 as (F1 & I1 & K1 & L1 & (a1 & Ha1 & Fa1) & (n1 & Hn1 & Fn1)).
  destruct H2 as (F2 & I2 & K2 & L2 & (a2 & Ha2 & Fa2) & (n2 & Hn2 & Fn2)).
  unfold unlocksOnly.
  split; [intuition congruence|]. split; [intuition congruence|].
  split; [|split; [|split]].
  - intros k Hk. rewrite K2; [apply K1; exact Hk|].
    unfold isUnlocked in *. rewrite (K1 k Hk). exact Hk.
  - intros k era Hk Hunl. apply L1; [|exact Hunl]. apply L2; assumption.
  - exists (a1 ++ a2). rewrite Ha2, Ha1, app_assoc. split; [reflexivity|].
    apply Forall_app. split; [exact Fa1|].
    eapply List.Forall_impl; [|exact Fa2]. exact Hun.
  - exists (n1 ++ n2). rewrite Hn2, Hn1, app_assoc. split; [reflexivity|].
    apply Forall_app. split; [exact Fn1|].
    eapply List.Forall_impl; [|exact Fn2]. exact Hev.
Qed.

Lemma unlockEra_unlocksOnly (k : string) (now : Z) (s : State) :
  unlocksOnly s (unlockEra k now s).
Proof.
  unfold unlockEra.
  destruct (eras_get k (eras s)) as [era|] eqn:Hk; [|apply unlocksOnly_refl].
  destruct (unlocked era) eqn:Hunl; [apply unlocksOnly_refl|].
  cbv zeta.
  assert (Hlocked : isUnlocked s k = false).
  { unfold isUnlocked. rewrite Hk. exact Hunl. }
  assert (Hev : Forall (fromLocked s)
                  [EvEraUnlocked k now;
                   EvNotification (era_name (set_unlocked era true))]).
  { repeat constructor; exists k, era; repeat split; eauto. }
  unfold unlocksOnly. cbn [store with_eras].
  destruct (existsb (String.eqb k) (unlockedEras (store s)));
    cbn [eras emit with_eras with_store store emitted unlockedEras
         store_set_unlockedEras currentEra previousEra isTraveling
         travelCooldown travelConfig config plantGrowthMultiplier resources
         seeds time_currentEra time_previousEra harvestStats];
    (split; [repeat split|]); (split; [repeat split|]);
    (split; [|split; [|split]]).
  all: try (intros id Hid; rewrite eras_get_put, Hk;
            destruct (String.eqb k id) eqn:E; [|reflexivity];
            apply String.eqb_eq in E; subst id; congruence).
  all: try (intros id e; rewrite eras_get_put, Hk;
            destruct (String.eqb k id) eqn:E; [|tauto];
            intros H Hu; injection H as <-; discriminate Hu).
  all: try (eexists; rewrite <- app_assoc; split; [reflexivity | exact Hev]).
  - exists []. rewrite app_nil_r. split; [reflexivity | constructor].
  - exists [k]. split; [reflexivity|]. repeat constructor. exact Hlocked.
Qed.

Lemma checkEraUnlocks_unlocksOnly (harvestedType : string) (now : Z)
    (s : State) :
  unlocksOnly s (checkEraUnlocks harvestedType now s).
Proof.
  unfold checkEraUnlocks. generalize (List.map fst (eras s)) as keys.
  intros keys. revert s.
  induction keys as [|k keys IH]; intros s; cbn; [apply unlocksOnly_refl|].
  eapply unlocksOnly_trans; [|apply IH].
  destruct (checkEra_cases harvestedType k now s) as [-> | ->];
    [apply unlocksOnly_refl | apply unlockEra_unlocksOnly].
Qed.

(** C6: once the era stored under [eraId] is unlocked, no sequence of
    operations of the system leaves it locked (it stays unlocked, unless
    [destroy] has emptied the map of eras); [unlockEra] on it returns the
    state it was given: no event, no change of [player.unlockedEras], of
    the era or of anything else.  [checkEraUnlocks] applies no effect of
    unlocking to it: the era stays as it is, the number of its
    occurrences in [player.unlockedEras] stays, no era-unlocked event is
    emitted for it, and every event that is emitted, era-unlocked or
    notification, and every id that is added to [player.unlockedEras]
    belongs to an era that was locked before; the inventory, the era of
    the store, the harvest statistics and the fields of the system other
    than the eras are as before ([unlocksOnly]).  When no era is locked,
    [checkEraUnlocks] returns the state it was given. *)
Theorem unlocked_era_stays_unlocked :
  forall (s : State) (eraId : string),
    isUnlocked s eraId = true ->
    (forall ops : list Op, notLocked (runAll ops s) eraId) /\
    (forall ops : list Op,
        forallb keepsEras ops = true ->
        isUnlocked (runAll ops s) eraId = true) /\
    (forall now, unlockEra eraId now s = s) /\
    (forall harvestedType now,
        let s' := checkEraUnlocks harvestedType now s in
        eras_get eraId (eras s') = eras_get eraId (eras s) /\
        occurrences eraId (unlockedEras (store s'))
          = occurrences eraId (unlockedEras (store s)) /\
        (exists new,
            emitted s' = emitted s ++ new /\
            forall timestamp, ~ In (EvEraUnlocked eraId timestamp) new) /\
        unlocksOnly s s' /\
        ((forall k, In k (List.map fst (eras s)) -> isUnlocked s k = true) ->
         s' = s)).
Proof.
  intros s eraId Hu. split; [|split; [|split]].
  - intros ops. apply runAll_notLocked. apply isUnlocked_notLocked. exact Hu.
  - intros ops Hops. apply runAll_keeps_unlocked; assumption.
  - intros now. apply unlockEra_unlocked. exact Hu.
  - intros harvestedType now.
    destruct (checkEraUnlocks_keeps eraId harvestedType now s Hu)
      as (_ & Hg & Ho & Hnew).
    cbv zeta. split; [exact Hg|]. split; [exact Ho|]. split; [exact Hnew|].
    split; [apply checkEraUnlocks_unlocksOnly|].
    apply checkEraUnlocks_all_unlocked.
Qed.

Lemma unlocked_era_stays_unlocked_witness :
  unlockEra "prehistoric" 5 initialState = initialState.
Proof.
  apply (proj1 (proj2 (proj2 (unlocked_era_stays_unlocked initialState
                                "prehistoric" eq_refl)))).
Defined.

End TimeTravelFacts.

Section StateManagerFacts.
Import StateManager StoreSpec.

(** *** Cloning plain data *)



























Example get_after_round_trip :
  (exists st',
      setState (state StoreScenario.defaultStore) noStateOptions
        StoreScenario.defaultStore = Done st' /\
      get "player.inventory.resources.temporal-pulses" (Some (VNum 0)) st'
      = Some (VNum 100)) /\
  get "farm.plots.0.state" None StoreScenario.defaultStore
    = Some (VStr "empty") /\
  get "farm.plots.length" None StoreScenario.defaultStore = Some (VNum 1) /\
  get "time.previousEra" (Some (VStr "none")) StoreScenario.defaultStore
    = Some VNull /\
  get "player.missing.deeper" (Some (VNum 7)) StoreScenario.defaultStore
    = Some (VNum 7).
Proof.
  split; [eexists; split; vm_compute; reflexivity|].
  vm_compute. repeat split.
Qed.

(** *** Patterns and segments *)

Local Open Scope nat_scope.

Lemma split_nonempty s : split s <> [].
Proof.
  destruct s as [|c s]; cbn; [discriminate|].
  destruct (Ascii.eqb c "."); [discriminate|].
  destruct (split s); discriminate.
Qed.

Lemma length_split s : length (split s) = S (countDots s).
Proof.
  induction s as [|c s IH]; cbn; [reflexivity|].
  unfold isDot. destruct (Ascii.eqb c "."); cbn.
  - rewrite IH. reflexivity.
  - destruct (split s) eqn:E; [destruct (split_nonempty s E)|]. cbn in *. lia.
Qed.

Lemma matches_star (rest : list Token) (s : string) :
  matches (TStar :: rest) s =
  matches rest s
  || match s with
     | String d s' => negb (Ascii.eqb d ".") && matches (TStar :: rest) s'
     | EmptyString => false
     end.
Proof. destruct s; reflexivity. Qed.

Lemma matches_dots :
  forall ts s,
    forallb plainToken ts = true ->
    matches ts s = true -> countDots s <= countTDot ts.
Proof.
  induction ts as [|t ts IH]; intros s Hplain Hm.
  - destruct s; [cbn; lia | discriminate Hm].
  - cbn in Hplain. apply andb_true_iff in Hplain. destruct Hplain as [Ht Hts].
    destruct t as [c| | |].
    + destruct s as [|d s]; [discriminate Hm|]. cbn in Hm.
      apply andb_true_iff in Hm. destruct Hm as [Hc Hm].
      apply Ascii.eqb_eq in Hc. subst d. cbn in Ht. cbn.
      apply negb_true_iff in Ht. rewrite Ht. cbn. auto.
    + destruct s as [|d s]; [discriminate Hm|]. cbn in Hm.
      apply andb_true_iff in Hm. destruct Hm as [_ Hm].
      specialize (IH s Hts Hm). cbn. destruct (isDot d); lia.
    + cbn [countTDot]. induction s as [|d s IHs].
      * rewrite matches_star in Hm. rewrite orb_false_r in Hm. auto.
      * rewrite matches_star in Hm. apply orb_true_iff in Hm.
        destruct Hm as [Hm|Hm]; [auto|].
        apply andb_true_iff in Hm. destruct Hm as [Hd Hm].
        cbn. unfold isDot. apply negb_true_iff in Hd. rewrite Hd. cbn. auto.
    + discriminate Ht.
Qed.

Lemma split_cons_dot s : split (String "." s) = EmptyString :: split s.
Proof. reflexivity. Qed.

Lemma split_cons_other c s :
  Ascii.eqb c "." = false ->
  exists seg segs,
    split s = seg :: segs /\ split (String c s) = String c seg :: segs.
Proof.
  intros Hc. cbn. rewrite Hc.
  destruct (split s) as [|seg segs] eqn:E; [destruct (split_nonempty s E)|].
  eauto.
Qed.

Lemma split_first_empty s segs :
  split s = EmptyString :: segs ->
  (s = EmptyString /\ segs = []) \/
  exists s', s = String "." s' /\ segs = split s'.
Proof.
  destruct s as [|c s]; cbn.
  - intros H. injection H as <-. left. auto.
  - destruct (Ascii.eqb c ".") eqn:E.
    + apply Ascii.eqb_eq in E. subst c. intros H. injection H as <-.
      right. eauto.
    + destruct (split s); discriminate.
Qed.

Lemma ordinary_spec c :
  ordinary c = true ->
  Ascii.eqb c "*" = false /\ Ascii.eqb c "?" = false /\ Ascii.eqb c "." = false
  /\ isMeta c = false.
Proof.
  unfold ordinary. intros H.
  repeat (apply andb_true_iff in H; destruct H as [H ?]).
  repeat split; apply negb_true_iff; assumption.
Qed.

Lemma allOrdinary_not_star seg :
  allOrdinary seg = true -> String.eqb seg "*" = false.
Proof.
  destruct seg as [|c seg]; [reflexivity|]. cbn. intros H.
  apply andb_true_iff in H. destruct H as [Hc _].
  apply ordinary_spec in Hc. destruct Hc as (Hs & _).
  destruct (Ascii.eqb_spec c "*"); [discriminate|].
  destruct (String.eqb_spec (String c seg) "*") as [E|]; [|reflexivity].
  injection E as ->. congruence.
Qed.

(** The shape of a pattern of wildcards and names, read off its first
    character. *)
Lemma okPattern_inv c p :
  forallb okSegment (split (String c p)) = true ->
  (c = "."%char /\ forallb okSegment (split p) = true) \/
  (c = "*"%char /\ (p = EmptyString \/ exists p', p = String "." p')
     /\ forallb okSegment (split p) = true) \/
  (ordinary c = true /\ forallb okSegment (split p) = true /\
   exists seg segs, split p = seg :: segs /\ allOrdinary seg = true).
Proof.
  destruct (Ascii.eqb_spec c ".") as [->|Hdot].
  - rewrite split_cons_dot. cbn. intros H. left. auto.
  - assert (Hd : Ascii.eqb c "." = false) by (apply Ascii.eqb_neq; exact Hdot).
    destruct (split_cons_other c p Hd) as (seg & segs & Hp & Hcp).
    rewrite Hcp. cbn [forallb]. intros H.
    apply andb_true_iff in H. destruct H as [Hseg Hsegs].
    unfold okSegment in Hseg. apply orb_true_iff in Hseg.
    destruct Hseg as [Hstar|Hord].
    + apply String.eqb_eq in Hstar. injection Hstar as -> ->.
      right. left. split; [reflexivity|].
      destruct (split_first_empty p segs Hp) as [[-> ->]|(p' & -> & ->)].
      * split; [left; reflexivity | reflexivity].
      * split; [right; eauto|]. rewrite split_cons_dot. cbn. exact Hsegs.
    + cbn in Hord. apply andb_true_iff in Hord. destruct Hord as [Hc Hrest].
      right. right. split; [exact Hc|]. split.
      * rewrite Hp. cbn. rewrite Hsegs, andb_true_r.
        unfold okSegment. rewrite Hrest. apply orb_true_r.
      * eauto.
Qed.

Lemma tokens_ok :
  forall p,
    forallb okSegment (split p) = true ->
    exists ts,
      tokens p = Some ts /\ forallb plainToken ts = true /\
      countTDot ts = countDots p.
Proof.
  induction p as [|c p IH]; intros Hok.
  - exists []. repeat split.
  - destruct (okPattern_inv c p Hok) as [[-> Hp]|[(-> & _ & Hp)|(Hc & Hp & _)]];
      destruct (IH Hp) as (ts & Hts & Hplain & Hdots); cbn [tokens]; rewrite Hts.
    + exists (TDot :: ts). cbn. repeat split; auto.
    + exists (TStar :: ts). cbn. repeat split; auto.
    + apply ordinary_spec in Hc. destruct Hc as (H1 & H2 & H3 & H4).
      rewrite H1, H2, H3, H4. exists (TChar c :: ts). cbn.
      unfold isDot. rewrite H3. cbn. repeat split; auto.
Qed.

Lemma star_alone s : matches [TStar] s = (countDots s =? 0).
Proof.
  induction s as [|d s IH].
  - reflexivity.
  - rewrite matches_star. change (matches [] (String d s)) with false.
    cbn [orb]. rewrite IH. cbn [countDots].
    unfold isDot. destruct (Ascii.eqb d "."); reflexivity.
Qed.

Lemma segments_star_alone s :
  segmentsMatch ["*"%string] (split s) = (countDots s =? 0).
Proof.
  pose proof (length_split s) as Hlen.
  destruct (split s) as [|a [|b rest]] eqn:E; cbn in Hlen.
  - discriminate Hlen.
  - injection Hlen as <-. reflexivity.
  - injection Hlen as <-. cbn. reflexivity.
Qed.

Lemma matches_by_segments :
  forall p ts,
    forallb okSegment (split p) = true ->
    tokens p = Some ts ->
    forall path,
      countDots p <= countDots path ->
      matches ts path = segmentsMatch (split p) (split path).
Proof.
  induction p as [|c p IH]; intros ts Hok Hts path Hdots.
  - cbn in Hts. injection Hts as <-. cbn [split].
    destruct path as [|d path]; [reflexivity|]. cbn [matches].
    destruct (Ascii.eqb d ".") eqn:Ed.
    + apply Ascii.eqb_eq in Ed. subst d. rewrite split_cons_dot.
      destruct (split path) eqn:E; [destruct (split_nonempty path E)|].
      reflexivity.
    + destruct (split_cons_other d path Ed) as (seg & segs & _ & ->).
      cbn. reflexivity.
  - destruct (tokens_ok p) as (ts' & Hts' & Hplain & Hcount).
    { destruct (okPattern_inv c p Hok) as [[_ H]|[(_ & _ & H)|(_ & H & _)]];
        exact H. }
    destruct (okPattern_inv c p Hok)
      as [[-> Hp]|[(-> & Hshape & Hp)|(Hc & Hp & seg & segs & Hsplit & Hseg)]].
    + (* a dot of the pattern *)
      cbn in Hts. rewrite Hts' in Hts. injection Hts as <-.
      rewrite split_cons_dot.
      destruct path as [|d path]; [cbn in Hdots; lia|].
      destruct (Ascii.eqb d ".") eqn:Ed.
      * apply Ascii.eqb_eq in Ed. subst d. rewrite split_cons_dot.
        cbn in Hdots. cbn. apply IH; [exact Hp | exact Hts' | lia].
      * destruct (split_cons_other d path Ed) as (seg & segs & _ & ->).
        cbn [matches segmentsMatch segmentMatches String.eqb orb andb].
        destruct (matches ts' path) eqn:Hm; [|apply andb_false_r].
        apply matches_dots in Hm; [|exact Hplain].
        cbn in Hdots. unfold isDot in Hdots. rewrite Ed in Hdots. cbn in Hdots.
        lia.
    + (* a star segment *)
      cbn in Hts. rewrite Hts' in Hts. injection Hts as <-.
      destruct Hshape as [->|(p' & ->)].
      * cbn in Hts'. injection Hts' as <-.
        change (split "*") with ["*"%string].
        rewrite star_alone, segments_star_alone. reflexivity.
      * change (split (String "*" (String "." p')))
          with ("*"%string :: split p').
        specialize (IH ts' Hp Hts'). rewrite split_cons_dot in IH.
        assert (Hne : split p' <> []) by apply split_nonempty.
        clear Hok Hp Hcount Hplain.
        induction path as [|d path IHpath].
        -- cbn in Hdots. lia.
        -- rewrite matches_star.
           destruct (Ascii.eqb d ".") eqn:Ed.
           ++ apply Ascii.eqb_eq in Ed. subst d. cbn [negb andb].
              rewrite orb_false_r. rewrite IH by exact Hdots.
              rewrite split_cons_dot. reflexivity.
           ++ cbn [negb andb].
              assert (Hdots' : countDots (String "*" (String "." p'))
                               <= countDots path).
              { cbn in Hdots |- *. unfold isDot in Hdots. rewrite Ed in Hdots.
                cbn in Hdots. exact Hdots. }
              rewrite IH by exact Hdots.
              destruct (split_cons_other d path Ed) as (seg & segs & Hs & ->).
              rewrite IHpath by exact Hdots'. rewrite Hs.
              reflexivity.
    + (* an ordinary character *)
      pose proof (ordinary_spec c Hc) as (H1 & H2 & H3 & H4).
      cbn [tokens] in Hts. rewrite Hts', H1, H2, H3, H4 in Hts.
      injection Hts as <-.
      destruct (split_cons_other c p H3) as (seg' & segs' & Hs' & ->).
      rewrite Hsplit in Hs'. injection Hs' as <- <-.
      assert (Hcs : String.eqb (String c seg) "*" = false).
      { cbn. rewrite H1. reflexivity. }
      pose proof (allOrdinary_not_star seg Hseg) as Hns.
      destruct path as [|d path].
      * cbn [split matches segmentsMatch]. unfold segmentMatches.
        rewrite Hcs. reflexivity.
      * destruct (Ascii.eqb d ".") eqn:Ed.
        -- apply Ascii.eqb_eq in Ed. subst d. rewrite split_cons_dot.
           cbn [matches segmentsMatch]. unfold segmentMatches.
           rewrite Hcs, H3. reflexivity.
        -- destruct (split_cons_other d path Ed) as (seg1 & segs1 & Hs1 & ->).
           cbn [matches segmentsMatch]. unfold segmentMatches.
           rewrite Hcs. cbn [orb String.eqb].
           destruct (Ascii.eqb c d) eqn:Ecd; [|reflexivity].
           cbn [andb]. rewrite (IH ts' Hp Hts' path).
           ++ rewrite Hsplit, Hs1. cbn [segmentsMatch].
              unfold segmentMatches. rewrite Hns. reflexivity.
           ++ cbn in Hdots. unfold isDot in Hdots. rewrite H3, Ed in Hdots.
              exact Hdots.
Qed.

(** X29: where the code does what the specification asks: for a pattern
    whose segments are wildcards and names, and a path with at least as
    many segments as the pattern, [pathMatches] is matching segment by
    segment.  In particular a pattern never matches a path with more
    segments than it has. *)
Theorem pathMatches_by_segments :
  forall path pattern,
    forallb okSegment (split pattern) = true ->
    length (split pattern) <= length (split path) ->
    pathMatches path pattern = Some (matchesBySegments path pattern).
Proof.
  intros path pattern Hok Hlen. rewrite !length_split in Hlen.
  destruct (tokens_ok pattern Hok) as (ts & Hts & _ & _).
  unfold pathMatches, matchesBySegments. rewrite Hts. f_equal.
  apply matches_by_segments; [exact Hok | exact Hts | lia].
Qed.

Local Close Scope nat_scope.

(** *** Wildcard subscriptions *)

(** The two cases of the specification: [a.*.c] matches [a.b.c] and does
    not match [a.b.c.d], and a write notifies the subscriber of the
    pattern in the first case only. *)
Lemma pathMatches_examples :
  pathMatches "a.b.c" "a.*.c" = Some true /\
  pathMatches "a.b.c.d" "a.*.c" = Some false /\
  notifiedOf (set "a.b.c" (VNum 2) defaultOptions StoreScenario.subscribed)
    = Some [{| n_subscription := 1; n_callback := 11;
               n_newValue := Some (VNum 2); n_oldValue := Some (VNum 1);
               n_path := "a.b.c" |}] /\
  notifiedOf (set "a.b.c.d" (VNum 2) defaultOptions StoreScenario.subscribed)
    = Some [].
Proof. vm_compute. repeat split. Qed.

(** C8 fails on the code in its general part.  The dots of a pattern go
    into the regular expression as they are, where a dot matches any
    character: the three-segment pattern [a.*.c] matches the two-segment
    path [axb.c] (the star standing for [b], which is not a segment of the
    path), [player.*] matches the one-segment path [players], and a write
    to [axb.c] notifies the subscriber of [a.*.c].  Matching segment by
    segment rejects both. *)
Theorem pathMatches_dot_matches_any_character :
  pathMatches "axb.c" "a.*.c" = Some true /\
  matchesBySegments "axb.c" "a.*.c" = false /\
  pathMatches "players" "player.*" = Some true /\
  matchesBySegments "players" "player.*" = false /\
  notifiedOf (set "axb.c" (VNum 2) defaultOptions StoreScenario.subscribed)
    = Some [{| n_subscription := 1; n_callback := 11;
               n_newValue := Some (VNum 2); n_oldValue := None;
               n_path := "axb.c" |}].
Proof. vm_compute. repeat split. Qed.

End StateManagerFacts.

(** * Laws of the lifecycle engine and of the plot handlers *)

Section PlantSystemLaws.
Import PlantSystem PlantSpec ChronoFarmer.

Ltac break_ifs :=
  repeat (match goal with
          | |- context [if ?c then _ else _] => destruct c eqn:?
          end; cbv beta iota zeta).

Ltac break_growth :=
  match goal with
  | |- context [match calculateGrowth ?a ?b ?c ?d ?e with _ => _ end] =>
      let Hr := fresh "Hgrowth" in
      destruct (calculateGrowth a b c d e) as [?r|] eqn:Hr;
      [apply calculateGrowth_stageChanged in Hr|]
  end.

Lemma updatePlantsBody_update plantData now s plotId plant :
  let s' := fst (fst (updatePlantsBody plantData now s plotId plant)) in
  plots s' = plots s \/
  exists plot u,
    getPlot s plotId = Some plot /\ tickUpdate plot u /\ tickLevels u /\
    plots s' = updateAt (plots s) plotId u.
Proof.
  unfold updatePlantsBody.
  destruct (getPlot s plotId) as [plot|] eqn:Hplot; [|left; reflexivity].
  break_ifs; try break_growth; break_ifs;
    first [ left; reflexivity
          | right; eexists plot, _;
            split; [reflexivity|]; split; [|split; [|reflexivity]];
            [ unfold tickUpdate; cbn;
              repeat split; auto using planted_or_growing;
              intros g Hg; try discriminate Hg;
              injection Hg as <-; apply Z.ltb_lt; symmetry; assumption
            | unfold tickLevels; cbn; split; intros w Hw;
              try discriminate Hw; injection Hw as <-; apply Q.le_max_l ] ].
Qed.

Lemma action_plots plantData (o : Op) (s : State) :
  isTick o = false ->
  plots (run plantData o s) = plots s \/
  exists plotId plot u,
    getPlot s plotId = Some plot /\ actionUpdate plot u /\
    plots (run plantData o s) = updateAt (plots s) plotId u.
Proof.
  destruct o as [plotId seedType now | plotId now | plotId r1 r2 now
                | plotId duration now | deltaTime now | now | newEra];
    cbn [run isTick]; intros Htick; try discriminate Htick.
  - (* plantSeed *)
    unfold plantSeed.
    destruct (getPlot s plotId) as [plot|] eqn:Hplot; [|left; reflexivity].
    destruct (negb _) eqn:Hstate; [left; reflexivity|].
    destruct (Qle_bool _ _); [left; reflexivity|].
    destruct (getPlantData plantData seedType) as [data|]; [|left; reflexivity].
    right. eexists plotId, plot, _. split; [exact Hplot|].
    split; [|reflexivity].
    left. cbn. apply negb_false_iff, PlotState_eqb_eq in Hstate.
    repeat split; eauto.
  - (* waterPlant *)
    unfold waterPlant.
    destruct (getPlot s plotId) as [plot|] eqn:Hplot; [|left; reflexivity].
    destruct (p_plant plot); [|left; reflexivity].
    destruct (PlotState_eqb _ _); [left; reflexivity|].
    right. eexists plotId, plot, _. split; [exact Hplot|].
    split; [|cbn; destruct (Map_get plotId (activePlants s)); reflexivity].
    right; right. cbn. repeat split; auto.
  - (* harvestPlant *)
    unfold harvestPlant.
    destruct (getPlot s plotId) as [plot|] eqn:Hplot; [|left; reflexivity].
    destruct (p_plant plot); [|left; reflexivity].
    destruct (negb _) eqn:Hstate; [left; reflexivity|].
    right. eexists plotId, plot, _. split; [exact Hplot|].
    split;
      [|cbn [snd plots emit set_activePlants updatePlot set_plots];
        rewrite applyHarvestRewards_plots; reflexivity].
    right; left. cbn. apply negb_false_iff, PlotState_eqb_eq in Hstate.
    repeat split; auto.
  - (* accelerateGrowth *)
    unfold accelerateGrowth.
    destruct (getPlot s plotId) as [plot|] eqn:Hplot; [|left; reflexivity].
    destruct (p_plant plot) as [plant|]; [|left; reflexivity].
    destruct (getPlantData plantData (pl_type plant)); [|left; reflexivity].
    right. eexists plotId, plot, _. split; [exact Hplot|].
    split; [|cbn; destruct (Map_get plotId (activePlants s)); reflexivity].
    right; right. cbn. repeat split; auto.
  - left; reflexivity.
Qed.

Lemma Forall2_same (R : Plot -> Plot -> Prop) :
  (forall p, R p p) -> forall ps, Forall2 R ps ps.
Proof. intros Hrefl. induction ps; constructor; auto. Qed.

Lemma updatePlantsBody_related (R : Plot -> Plot -> Prop) :
  (forall p, R p p) ->
  (forall p q r, R p q -> R q r -> R p r) ->
  (forall plot u, tickUpdate plot u -> tickLevels u -> R plot (spread plot u)) ->
  forall plantData now (ps0 : list Plot) s plotId plant,
    Forall2 R ps0 (plots s) ->
    Forall2 R ps0
      (plots (fst (fst (updatePlantsBody plantData now s plotId plant)))).
Proof.
  intros Hrefl Htrans Hstep plantData now ps0 s plotId plant H0.
  destruct (updatePlantsBody_update plantData now s plotId plant)
    as [-> | (plot & u & Hplot & Hu & Hlevels & ->)]; [exact H0|].
  eapply Forall2_trans; [exact Htrans | exact H0 |].
  apply updateAt_Forall2; [exact Hrefl|].
  intros p Hp. unfold getPlot in Hplot. rewrite Hp in Hplot.
  injection Hplot as ->. apply Hstep; assumption.
Qed.

(** A reflexive and transitive relation that every write of the tick
    respects relates the plots before and after a tick. *)
Lemma tick_related (R : Plot -> Plot -> Prop) :
  (forall p, R p p) ->
  (forall p q r, R p q -> R q r -> R p r) ->
  (forall plot u, tickUpdate plot u -> tickLevels u -> R plot (spread plot u)) ->
  forall plantData (o : Op) (s : State),
    isTick o = true ->
    Forall2 R (plots s) (plots (run plantData o s)).
Proof.
  intros Hrefl Htrans Hstep plantData o s Htick.
  destruct o; try discriminate Htick; cbn [run].
  - apply (update_plots (Forall2 R (plots s))).
    + intros. apply updatePlantsBody_related; assumption.
    + apply Forall2_same, Hrefl.
  - apply (updatePlants_plots (Forall2 R (plots s))).
    + intros. apply updatePlantsBody_related; assumption.
    + apply Forall2_same, Hrefl.
Qed.

(** A reflexive relation that every write of an action respects relates
    the plots before and after the action. *)
Lemma action_related (R : Plot -> Plot -> Prop) :
  (forall p, R p p) ->
  (forall plot u, actionUpdate plot u -> R plot (spread plot u)) ->
  forall plantData (o : Op) (s : State),
    isTick o = false ->
    Forall2 R (plots s) (plots (run plantData o s)).
Proof.
  intros Hrefl Hstep plantData o s Htick.
  destruct (action_plots plantData o s Htick)
    as [-> | (plotId & plot & u & Hplot & Hu & ->)].
  - apply Forall2_same, Hrefl.
  - apply updateAt_Forall2; [exact Hrefl|].
    intros p Hp. unfold getPlot in Hplot. rewrite Hp in Hplot.
    injection Hplot as ->. apply Hstep. exact Hu.
Qed.

Lemma tickMove_plotMove (p p' : Plot) : tickMove p p' -> plotMove p p'.
Proof.
  intros [Hid [Hsame | [Hwas Hready]]]; split; auto; unfold stateMove.
  - left. exact Hsame.
  - right; right; left. auto.
Qed.

Lemma run_plotMove plantData (o : Op) (s : State) :
  Forall2 plotMove (plots s) (plots (run plantData o s)).
Proof.
  destruct (isTick o) eqn:Htick.
  - eapply Forall2_impl; [|exact tickMove_plotMove].
    apply tick_related; [| | |exact Htick].
    + intros p. split; [reflexivity | left; reflexivity].
    + intros p q r [Hi1 H1] [Hi2 H2]. split; [congruence|].
      destruct H1 as [H1 | [Hwas H1]], H2 as [H2 | [Hwas2 H2]].
      * left. congruence.
      * right. split; [|exact H2]. rewrite <- H1. exact Hwas2.
      * right. split; [exact Hwas | congruence].
      * rewrite H1 in Hwas2. destruct Hwas2; discriminate.
    + intros plot u (_ & _ & Hstate & _) _. split; [reflexivity|]. cbn.
      destruct Hstate as [-> | [-> Hwas]]; cbn; auto.
  - apply action_related; [| |exact Htick].
    + intros p. split; [reflexivity | left; reflexivity].
    + intros plot u Hu. split; [reflexivity|]. unfold stateMove. cbn.
      destruct Hu as [(Hwas & _ & -> & _) | [(Hwas & _ & -> & _)
                     | (_ & -> & _)]]; cbn; auto.
Qed.

(** X1: Whatever the operation, a plot keeps its place and its id, and its
    state either stays or moves along empty to planted, planted or growing
    to ready, ready to empty. *)
Theorem plot_state_moves :
  forall (plantData : gmap string PlantData) (o : Op) (s : State),
    Forall2 plotMove (plots s) (plots (run plantData o s)).
Proof. intros. apply run_plotMove. Qed.

(** X2: From the default store no sequence of operations brings a plot into
    the states growing or harvested. *)
Theorem growing_and_harvested_never_entered :
  forall (plantData : gmap string PlantData) (ops : list Op),
    Forall neverEntered
      (plots (List.fold_left (fun st o => run plantData o st) ops
                initialState)).
Proof.
  intros plantData ops.
  assert (Hinit : Forall neverEntered (plots initialState)).
  { unfold initialState. cbn [plots].
    apply Forall_forall. intros p Hp. apply list_elem_of_In in Hp.
    apply in_map_iff in Hp. destruct Hp as (i & <- & _).
    split; discriminate. }
  revert Hinit. generalize initialState.
  induction ops as [|o ops IH]; intros s Hs; [exact Hs|].
  cbn [List.fold_left]. apply IH.
  pose proof (run_plotMove plantData o s) as Hmove.
  revert Hs. induction Hmove as [|p p' ps ps' Hp _ IHm]; intros Hs;
    [constructor|].
  apply Forall_cons in Hs. destruct Hs as [[Hg Hh] Hs].
  constructor; [|apply IHm; exact Hs].
  destruct Hp as [_ Hp]. unfold stateMove in Hp. split.
  - destruct Hp as [-> | [[_ ->] | [[_ ->] | [_ ->]]]];
      try discriminate; exact Hg.
  - destruct Hp as [-> | [[_ ->] | [[_ ->] | [_ ->]]]];
      try discriminate; exact Hh.
Qed.

(** *** Levels *)

Lemma levelsOk_initial : Forall levelsOk (plots initialState).
Proof.
  unfold initialState. cbn [plots].
  apply Forall_forall. intros p Hp. apply list_elem_of_In in Hp.
  apply in_map_iff in Hp. destruct Hp as (i & <- & _).
  split; cbn; discriminate.
Qed.

Lemma Forall2_keeps (P : Plot -> Prop) (ps ps' : list Plot) :
  Forall2 (fun p p' => P p -> P p') ps ps' -> Forall P ps -> Forall P ps'.
Proof.
  induction 1 as [|p p' ps ps' Hp _ IH]; intros Hall; [constructor|].
  apply Forall_cons in Hall. destruct Hall as [Hhd Htl].
  constructor; auto.
Qed.

Lemma run_levelsOk plantData (o : Op) (s : State) :
  Forall levelsOk (plots s) -> Forall levelsOk (plots (run plantData o s)).
Proof.
  apply Forall2_keeps.
  destruct (isTick o) eqn:Htick.
  - apply tick_related; [auto | auto | | exact Htick].
    intros plot u _ [Hw Hn] [Hw0 Hn0]. split; cbn.
    + destruct (u_waterLevel u) as [w|]; cbn; auto.
    + destruct (u_nutrients u) as [n|]; cbn; auto.
  - apply action_related; [auto | | exact Htick].
    intros plot u Hu [Hw0 Hn0].
    destruct Hu as [(_ & _ & _ & Hw & Hn) | [(_ & _ & _ & Hw & Hn)
                   | (_ & _ & Hw & Hn)]]; split; cbn;
      try rewrite Hn; cbn; try discriminate; try exact Hn0.
    all: try (rewrite Hw; cbn; discriminate).
    destruct Hw as [-> | ->]; cbn; [exact Hw0|].
    apply Q.min_glb; [discriminate|].
    apply Qle_trans with (p_waterLevel plot); [exact Hw0|].
    rewrite <- (Qplus_0_r (p_waterLevel plot)) at 1.
    apply Qplus_le_r. discriminate.
Qed.

(** X3: Water and nutrient levels that are not negative stay so under every
    sequence of operations. *)
Theorem levels_never_negative :
  forall (plantData : gmap string PlantData) (ops : list Op) (s : State),
    Forall levelsOk (plots s) ->
    Forall levelsOk (plots (runAll plantData ops s)).
Proof.
  intros plantData ops. unfold runAll.
  induction ops as [|o ops IH]; intros s Hs; [exact Hs|].
  cbn [List.fold_left]. apply IH, run_levelsOk, Hs.
Qed.

Lemma levels_never_negative_witness :
  Forall levelsOk (plots initialState) /\
  Forall levelsOk
    (plots (runAll Scenario.catalog
              [OpPlantSeed 0 "prehistoric-moss" 1000;
               OpUpdatePlants 500000; OpWaterPlant 0 500001]
              initialState)).
Proof.
  split; [exact levelsOk_initial|].
  apply (levels_never_negative Scenario.catalog).
  exact levelsOk_initial.
Defined.

(** *** The map of active plants *)

Lemma Map_get_is_Some {A} (k : Z) (m : list (Z * A)) :
  is_Some (Map_get k m) <-> In k (List.map fst m).
Proof.
  induction m as [|[k' v] m IH]; cbn.
  - split; [intros [x Hx]; discriminate Hx | tauto].
  - destruct (k' =? k) eqn:Hk.
    + apply Z.eqb_eq in Hk. split; [auto | intros _; eexists; reflexivity].
    + apply Z.eqb_neq in Hk. rewrite IH. tauto.
Qed.

Lemma Map_set_keys {A} (k : Z) (v : A) (m : list (Z * A)) :
  List.map fst (Map_set k v m) =
  if in_dec Z.eq_dec k (List.map fst m) then List.map fst m
  else List.map fst m ++ [k].
Proof.
  induction m as [|[k' v'] m IH]; cbn [Map_set List.map fst].
  - destruct (in_dec _ _ _) as [[]|]; reflexivity.
  - destruct (k' =? k) eqn:Hk.
    + apply Z.eqb_eq in Hk. cbn [List.map fst]. clear IH.
      destruct (in_dec Z.eq_dec k (k' :: List.map fst m)) as [|Hn];
        [reflexivity|].
      exfalso. apply Hn. left. exact Hk.
    + apply Z.eqb_neq in Hk. cbn [List.map fst]. rewrite IH.
      destruct (in_dec Z.eq_dec k (List.map fst m)) as [Hin|Hin],
               (in_dec Z.eq_dec k (k' :: List.map fst m)) as [Hin'|Hin'];
        try reflexivity.
      * exfalso. apply Hin'. right. exact Hin.
      * exfalso. destruct Hin' as [Heq|Hin']; [exact (Hk Heq) | exact (Hin Hin')].
Qed.

Lemma Map_set_NoDup {A} (k : Z) (v : A) (m : list (Z * A)) :
  NoDup (List.map fst m) -> NoDup (List.map fst (Map_set k v m)).
Proof.
  intros Hm. rewrite Map_set_keys.
  destruct (in_dec _ _ _) as [|Hk]; [exact Hm|].
  apply NoDup_app. split; [exact Hm|]. split; [|apply NoDup_singleton].
  intros x Hx Hx'. apply list_elem_of_In in Hx, Hx'.
  destruct Hx' as [<-|[]]. exact (Hk Hx).
Qed.

Lemma Map_set_In {A} (k k' : Z) (v : A) (m : list (Z * A)) :
  In k' (List.map fst (Map_set k v m)) <-> k' = k \/ In k' (List.map fst m).
Proof.
  rewrite Map_set_keys. destruct (in_dec _ _ _) as [Hk|Hk].
  - split; [auto | intros [->|H]; assumption].
  - rewrite in_app_iff. cbn. intuition.
Qed.

Lemma Map_delete_In {A} (k k' : Z) (m : list (Z * A)) :
  NoDup (List.map fst m) ->
  (In k' (List.map fst (Map_delete k m)) <->
   k' <> k /\ In k' (List.map fst m)).
Proof.
  induction m as [|[k0 v] m IH]; cbn; intros Hm; [tauto|].
  apply NoDup_cons in Hm. destruct Hm as [Hk0 Hm].
  rewrite list_elem_of_In in Hk0.
  destruct (k0 =? k) eqn:Hk.
  - apply Z.eqb_eq in Hk. subst k0. split.
    + intros Hin. split; [intros ->; exact (Hk0 Hin) | auto].
    + intros [Hne [Heq|Hin]]; [congruence | exact Hin].
  - apply Z.eqb_neq in Hk. cbn. rewrite (IH Hm). split.
    + intros [<-|[Hne Hin]]; auto.
    + intros [Hne [Heq|Hin]]; auto.
Qed.

Lemma Map_delete_NoDup {A} (k : Z) (m : list (Z * A)) :
  NoDup (List.map fst m) -> NoDup (List.map fst (Map_delete k m)).
Proof.
  induction m as [|[k0 v] m IH]; cbn; intros Hm; [constructor|].
  pose proof Hm as Hm'. apply NoDup_cons in Hm'. destruct Hm' as [Hk0 Hm'].
  destruct (k0 =? k); [exact Hm'|].
  cbn. apply NoDup_cons. split; [|exact (IH Hm')].
  rewrite list_elem_of_In in *. intros Hin.
  destruct (Z.eq_dec k0 k) as [->|Hne].
  - apply (Map_delete_In k k m Hm') in Hin. tauto.
  - apply (Map_delete_In k k0 m Hm') in Hin. tauto.
Qed.

Lemma updatePlantsLoop_keys plantData now :
  forall entries s,
    List.map fst (snd (fst (updatePlantsLoop plantData now s entries)))
    = List.map fst entries.
Proof.
  induction entries as [|[plotId plant] rest IH]; intros s; [reflexivity|].
  cbn [updatePlantsLoop].
  destruct (updatePlantsBody plantData now s plotId plant)
    as [[s1 plant1] threw].
  destruct threw; [reflexivity|].
  specialize (IH s1).
  destruct (updatePlantsLoop plantData now s1 rest) as [[s2 rest2] threw2].
  cbn in *. rewrite IH. reflexivity.
Qed.

Lemma hasPlant_updateAt (ps : list Plot) (plotId : Z) (u : PlotUpdates)
    (other : Z) :
  other <> plotId \/ u_plant u = None ->
  (hasPlant (updateAt ps plotId u) other <-> hasPlant ps other).
Proof.
  unfold hasPlant. intros Hcase.
  induction ps as [|p ps IH]; cbn; [reflexivity|].
  destruct (p_id p =? plotId) eqn:Hp; cbn.
  - apply Z.eqb_eq in Hp. destruct (p_id p =? other) eqn:Ho.
    + apply Z.eqb_eq in Ho.
      destruct Hcase as [Hne | Hu]; [congruence|].
      split; intros (plot & plant & [= <-] & Hplant); eexists _, plant;
        (split; [reflexivity|]); cbn in *; rewrite Hu in *; exact Hplant.
    + reflexivity.
  - destruct (p_id p =? other); [reflexivity | exact IH].
Qed.

Lemma updatePlants_keys plantData now s :
  List.map fst (activePlants (fst (updatePlants plantData now s)))
  = List.map fst (activePlants s).
Proof.
  unfold updatePlants.
  pose proof (updatePlantsLoop_keys plantData now (activePlants s) s) as H.
  destruct (updatePlantsLoop plantData now s (activePlants s))
    as [[s1 entries] threw].
  exact H.
Qed.

Lemma update_keys plantData deltaTime now s :
  List.map fst (activePlants (update plantData deltaTime now s))
  = List.map fst (activePlants s).
Proof.
  unfold update. destruct (Qgeb _ _); [|reflexivity].
  pose proof (updatePlants_keys plantData now
                (set_updateTimer s (updateTimer s + deltaTime)%Q)) as H.
  destruct (updatePlants plantData now _) as [s2 threw].
  destruct threw; exact H.
Qed.

Lemma tick_hasPlant plantData (o : Op) (s : State) (plotId : Z) :
  isTick o = true ->
  (hasPlant (plots (run plantData o s)) plotId <-> hasPlant (plots s) plotId).
Proof.
  intros Htick.
  assert (Hbody : forall now s1 k plant,
    (hasPlant (plots s1) plotId <-> hasPlant (plots s) plotId) ->
    (hasPlant
       (plots (fst (fst (updatePlantsBody plantData now s1 k plant)))) plotId
     <-> hasPlant (plots s) plotId)).
  { intros now s1 k plant H1.
    destruct (updatePlantsBody_update plantData now s1 k plant)
      as [-> | (plot & u & _ & (Hu & _) & _ & ->)]; [exact H1|].
    rewrite hasPlant_updateAt; [exact H1 | right; exact Hu]. }
  destruct o; try discriminate Htick; cbn [run].
  - apply (update_plots
             (fun ps => hasPlant ps plotId <-> hasPlant (plots s) plotId));
      [intros; apply Hbody; assumption | reflexivity].
  - apply (updatePlants_plots
             (fun ps => hasPlant ps plotId <-> hasPlant (plots s) plotId));
      [intros; apply Hbody; assumption | reflexivity].
Qed.

Lemma hasPlant_updateAt_same (ps : list Plot) (plotId : Z) (u : PlotUpdates)
    (plot : Plot) :
  List.find (fun p => p_id p =? plotId) ps = Some plot ->
  (hasPlant (updateAt ps plotId u) plotId <->
   exists plant, p_plant (spread plot u) = Some plant).
Proof.
  unfold hasPlant. induction ps as [|p ps IH]; cbn; [discriminate|].
  destruct (p_id p =? plotId) eqn:Hp.
  - intros [= ->]. cbn. rewrite Hp. split.
    + intros (q & plant & [= <-] & Hplant). eauto.
    + intros (plant & Hplant). eauto.
  - cbn. rewrite Hp. exact IH.
Qed.

Lemma applyHarvestRewards_activePlants (r : Rewards) (s : State) :
  activePlants (applyHarvestRewards r s) = activePlants s.
Proof.
  unfold applyHarvestRewards. cbn [Object_entries_number fold_left].
  generalize dependent s.
  induction (rw_resources r) as [|[resource amount] rest IH]; intros s;
    cbn; [reflexivity|].
  rewrite IH. reflexivity.
Qed.

Lemma run_tracked plantData (o : Op) (s : State) :
  tracked s -> tracked (run plantData o s).
Proof.
  intros [Hkeys Hsync]. unfold tracked.
  destruct o as [plotId seedType now | plotId now | plotId r1 r2 now
                | plotId duration now | deltaTime now | now | newEra];
    cbn [run]; [| | | | | |split; assumption].
  - (* plantSeed *)
    unfold plantSeed.
    destruct (getPlot s plotId) as [plot|] eqn:Hplot; [|split; assumption].
    destruct (negb _); [split; assumption|].
    destruct (Qle_bool _ _); [split; assumption|].
    destruct (getPlantData plantData seedType) as [data|];
      [|split; assumption].
    split; cbn [snd activePlants plots emit set_seeds set_activePlants
                updatePlot set_plots].
    + apply Map_set_NoDup, Hkeys.
    + intros k. rewrite Map_get_is_Some, Map_set_In, <- Map_get_is_Some.
      destruct (Z.eq_dec k plotId) as [->|Hne].
      * rewrite (hasPlant_updateAt_same _ _ _ plot Hplot). cbn.
        split; eauto.
      * rewrite hasPlant_updateAt by (left; exact Hne).
        rewrite Hsync. tauto.
  - (* waterPlant *)
    unfold waterPlant.
    destruct (getPlot s plotId) as [plot|] eqn:Hplot; [|split; assumption].
    destruct (p_plant plot); [|split; assumption].
    destruct (PlotState_eqb _ _); [split; assumption|].
    cbn [snd plots emit updatePlot set_plots activePlants].
    assert (Hplots : forall k,
      hasPlant (updateAt (plots s) plotId
        {| u_plant := None; u_state := None; u_plantedAt := None;
           u_lastWatered := Some (Some now); u_growthStage := None;
           u_maxGrowthStage := None;
           u_waterLevel := Some (Qmin 100 (p_waterLevel plot + 30));
           u_nutrients := None |}) k <-> hasPlant (plots s) k).
    { intros k. apply hasPlant_updateAt. right. reflexivity. }
    destruct (Map_get plotId (activePlants s)) eqn:Hget;
      cbn [plots activePlants emit set_activePlants set_plots].
    + split; [apply Map_set_NoDup, Hkeys|].
      intros k. rewrite Map_get_is_Some, Map_set_In, <- Map_get_is_Some.
      rewrite Hplots, <- Hsync. split; [|auto].
      intros [-> | H]; [rewrite Hget; eauto | exact H].
    + split; [exact Hkeys|]. intros k. rewrite Hplots. apply Hsync.
  - (* harvestPlant *)
    unfold harvestPlant.
    destruct (getPlot s plotId) as [plot|] eqn:Hplot; [|split; assumption].
    destruct (p_plant plot); [|split; assumption].
    destruct (negb _); [split; assumption|].
    cbn [snd plots activePlants emit set_activePlants updatePlot set_plots].
    rewrite applyHarvestRewards_plots.
    rewrite applyHarvestRewards_activePlants. split; [apply Map_delete_NoDup, Hkeys|].
    intros k. rewrite Map_get_is_Some, (Map_delete_In _ _ _ Hkeys),
      <- Map_get_is_Some.
    destruct (Z.eq_dec k plotId) as [->|Hne].
    + rewrite (hasPlant_updateAt_same _ _ _ plot Hplot). cbn.
      split; [tauto | intros (plant & Hplant); discriminate Hplant].
    + rewrite hasPlant_updateAt by (left; exact Hne).
      rewrite Hsync. tauto.
  - (* accelerateGrowth *)
    unfold accelerateGrowth.
    destruct (getPlot s plotId) as [plot|] eqn:Hplot; [|split; assumption].
    destruct (p_plant plot) as [plant|]; [|split; assumption].
    destruct (getPlantData plantData (pl_type plant)); [|split; assumption].
    cbn [snd plots emit updatePlot set_plots activePlants].
    assert (Hplots : forall k,
      hasPlant (updateAt (plots s) plotId
        {| u_plant := None; u_state := None;
           u_plantedAt :=
             Some (Some (orNow (p_plantedAt plot) now - duration));
           u_lastWatered := None; u_growthStage := None;
           u_maxGrowthStage := None; u_waterLevel := None;
           u_nutrients := None |}) k <-> hasPlant (plots s) k).
    { intros k. apply hasPlant_updateAt. right. reflexivity. }
    destruct (Map_get plotId (activePlants s)) eqn:Hget;
      cbn [plots activePlants emit set_activePlants set_plots].
    + split; [apply Map_set_NoDup, Hkeys|].
      intros k. rewrite Map_get_is_Some, Map_set_In, <- Map_get_is_Some.
      rewrite Hplots, <- Hsync. split; [|auto].
      intros [-> | H]; [rewrite Hget; eauto | exact H].
    + split; [exact Hkeys|]. intros k. rewrite Hplots. apply Hsync.
  - (* update *)
    split.
    + rewrite update_keys. exact Hkeys.
    + intros k. rewrite Map_get_is_Some, update_keys, <- Map_get_is_Some.
      rewrite (tick_hasPlant plantData (OpUpdate deltaTime now) s k eq_refl).
      apply Hsync.
  - (* updatePlants *)
    split.
    + rewrite updatePlants_keys. exact Hkeys.
    + intros k. rewrite Map_get_is_Some, updatePlants_keys, <- Map_get_is_Some.
      rewrite (tick_hasPlant plantData (OpUpdatePlants now) s k eq_refl).
      apply Hsync.
Qed.

Lemma tracked_initial : tracked initialState.
Proof.
  split; [constructor|].
  intros plotId. cbn [activePlants initialState Map_get]. split.
  - intros [x Hx]. discriminate Hx.
  - intros (plot & plant & Hfind & Hplant). exfalso.
    apply find_some in Hfind. destruct Hfind as [Hin _].
    cbn [plots] in Hin. apply in_map_iff in Hin.
    destruct Hin as (i & <- & _). discriminate Hplant.
Qed.

(** X4: Under every sequence of operations the map of active plants has an
    entry for a plot id exactly when the plot stored under that id holds
    a plant. *)
Theorem active_plants_track_plots :
  forall (plantData : gmap string PlantData) (ops : list Op) (s : State),
    tracked s -> tracked (runAll plantData ops s).
Proof.
  intros plantData ops. unfold runAll.
  induction ops as [|o ops IH]; intros s Hs; [exact Hs|].
  cbn [List.fold_left]. apply IH, run_tracked, Hs.
Qed.

Lemma active_plants_track_plots_witness :
  tracked initialState /\
  tracked
    (runAll Scenario.catalog
       [OpPlantSeed 0 "prehistoric-moss" 1000; OpUpdate 1000 41000;
        OpHarvestPlant 0 (1 # 2) (1 # 2) 42000]
       initialState).
Proof.
  split; [exact tracked_initial|].
  apply (active_plants_track_plots Scenario.catalog).
  exact tracked_initial.
Defined.

Lemma loadExistingPlants_keys (l : list Plot) :
  forall st,
    NoDup (List.map fst (activePlants st)) ->
    let st' :=
      List.fold_left
        (fun st plot =>
           match p_plant plot with
           | Some plant =>
               if negb (PlotState_eqb (p_state plot) SEmpty) then
                 set_activePlants st
                   (Map_set (p_id plot)
                      {| ap_plant := plant; ap_plotId := p_id plot;
                         ap_plantedAt := p_plantedAt plot;
                         ap_lastWatered := p_lastWatered plot;
                         ap_growthStage := p_growthStage plot;
                         ap_waterLevel := p_waterLevel plot;
                         ap_nutrients := p_nutrients plot |}
                      (activePlants st))
               else st
           | None => st
           end) l st in
    plots st' = plots st /\
    NoDup (List.map fst (activePlants st')) /\
    forall k,
      In k (List.map fst (activePlants st')) <->
      In k (List.map fst (activePlants st)) \/
      exists plot plant,
        In plot l /\ p_id plot = k /\ p_plant plot = Some plant /\
        p_state plot <> SEmpty.
Proof.
  induction l as [|p l IH]; intros st Hst; cbn [List.fold_left].
  - split; [reflexivity|]. split; [exact Hst|]. intros k. split; [auto|].
    intros [H | (plot & plant & [] & _)]. exact H.
  - destruct (p_plant p) as [plant|] eqn:Hplant.
    + destruct (negb (PlotState_eqb (p_state p) SEmpty)) eqn:Hstate.
      * match goal with
        | |- context [List.fold_left _ l ?st1] =>
            destruct (IH st1) as (Hplots & Hnd & Hkeys)
        end.
        { cbn. apply Map_set_NoDup, Hst. }
        split; [exact Hplots|]. split; [exact Hnd|].
        intros k. rewrite Hkeys. cbn [activePlants set_activePlants].
        rewrite Map_set_In. split.
        -- intros [[-> | H] | (plot & pl & Hin & Hrest)]; auto.
           ++ right. exists p, plant. split; [left; reflexivity|].
              split; [reflexivity|]. split; [exact Hplant|].
              intros Hempty. rewrite Hempty in Hstate. discriminate Hstate.
           ++ right. exists plot, pl. split; [right; exact Hin | exact Hrest].
        -- intros [H | (plot & pl & [<- | Hin] & Hid & Hrest)]; auto.
           right. exists plot, pl. auto.
      * destruct (IH st Hst) as (Hplots & Hnd & Hkeys).
        split; [exact Hplots|]. split; [exact Hnd|].
        intros k. rewrite Hkeys. split.
        -- intros [H | (plot & pl & Hin & Hrest)]; auto.
           right. exists plot, pl. split; [right; exact Hin | exact Hrest].
        -- intros [H | (plot & pl & [<- | Hin] & Hid & Hpl & Hne)]; auto.
           ++ exfalso. apply negb_false_iff, PlotState_eqb_eq in Hstate.
              exact (Hne Hstate).
           ++ right. exists plot, pl. auto.
    + destruct (IH st Hst) as (Hplots & Hnd & Hkeys).
      split; [exact Hplots|]. split; [exact Hnd|].
      intros k. rewrite Hkeys. split.
      * intros [H | (plot & pl & Hin & Hrest)]; auto.
        right. exists plot, pl. split; [right; exact Hin | exact Hrest].
      * intros [H | (plot & pl & [<- | Hin] & Hid & Hpl & Hne)]; auto.
        -- congruence.
        -- right. exists plot, pl. auto.
Qed.

Lemma find_unique (ps : list Plot) (plot : Plot) :
  NoDup (List.map p_id ps) -> In plot ps ->
  List.find (fun p => p_id p =? p_id plot) ps = Some plot.
Proof.
  induction ps as [|p ps IH]; cbn; intros Hnd Hin; [destruct Hin|].
  apply NoDup_cons in Hnd. destruct Hnd as [Hp Hnd].
  destruct Hin as [-> | Hin].
  - rewrite Z.eqb_refl. reflexivity.
  - destruct (p_id p =? p_id plot) eqn:Heq; [|exact (IH Hnd Hin)].
    apply Z.eqb_eq in Heq. exfalso. apply Hp. rewrite Heq.
    apply list_elem_of_In, in_map. exact Hin.
Qed.

(** X5: Loading a store whose plots have distinct ids and satisfy the
    occupancy rule, into a system that tracks nothing yet, leaves the
    plots as they are and tracks exactly the plots that hold a plant. *)
Theorem loadExistingPlants_tracks :
  forall s : State,
    activePlants s = [] ->
    NoDup (List.map p_id (plots s)) ->
    occupancyInvariant s ->
    plots (loadExistingPlants s) = plots s /\
    tracked (loadExistingPlants s).
Proof.
  intros s Hempty Hids Hocc. unfold loadExistingPlants.
  destruct (loadExistingPlants_keys (plots s) s) as (Hplots & Hnd & Hkeys).
  { rewrite Hempty. constructor. }
  split; [exact Hplots|]. split; [exact Hnd|].
  intros k. rewrite Map_get_is_Some, Hkeys, Hplots, Hempty. cbn [List.map].
  unfold hasPlant. split.
  - intros [[] | (plot & plant & Hin & <- & Hplant & _)].
    exists plot, plant. split; [apply find_unique; assumption | exact Hplant].
  - intros (plot & plant & Hfind & Hplant). right.
    pose proof Hfind as Hsome. apply find_some in Hsome.
    destruct Hsome as [Hin Hid]. apply Z.eqb_eq in Hid.
    exists plot, plant. split; [exact Hin|]. split; [exact Hid|].
    split; [exact Hplant|].
    unfold occupancyInvariant in Hocc. rewrite Forall_forall in Hocc.
    apply list_elem_of_In in Hin. specialize (Hocc plot Hin).
    destruct Hocc as [Hocc _].
    destruct Hocc as [H | [H | H]]; [congruence | | |]; rewrite H; discriminate.
Qed.

Lemma loadExistingPlants_tracks_witness :
  plots (loadExistingPlants (destroy Scenario.planted0))
    = plots (destroy Scenario.planted0) /\
  tracked (loadExistingPlants (destroy Scenario.planted0)).
Proof.
  apply loadExistingPlants_tracks.
  - reflexivity.
  - apply (bool_decide_unpack _). vm_compute. exact I.
  - apply (run_occupancy Scenario.catalog
             (OpPlantSeed 0 "prehistoric-moss" 1000) initialState).
    exact initialState_occupancy.
Defined.

(** *** Planting and its caller *)

Lemma plantSeed_seeds plantData plotId seedType now s :
  fst (plantSeed plantData plotId seedType now s) = true ->
  seeds (snd (plantSeed plantData plotId seedType now s))
  = <[seedType := (seedCountOf s seedType - 1)%Q]> (seeds s).
Proof.
  unfold plantSeed.
  destruct (getPlot s plotId) as [plot|]; [|discriminate].
  destruct (negb _); [discriminate|].
  destruct (Qle_bool _ _); [discriminate|].
  destruct (getPlantData plantData seedType) as [data|]; [|discriminate].
  reflexivity.
Qed.

Lemma plantSeed_outcome :
  forall (plantData : gmap string PlantData) (plotId : Z) (seedType : string)
         (now : Z) (s : State),
    let r := plantSeed plantData plotId seedType now s in
    (fst r = true <->
     exists plot data,
       getPlot s plotId = Some plot /\ p_state plot = SEmpty /\
       Qle_bool (seedCountOf s seedType) 0 = false /\
       plantData !! seedType = Some data) /\
    (fst r = true ->
     seeds (snd r) = <[seedType := (seedCountOf s seedType - 1)%Q]> (seeds s) /\
     resources (snd r) = resources s) /\
    (fst r = false ->
     plots (snd r) = plots s /\ seeds (snd r) = seeds s /\
     resources (snd r) = resources s /\
     activePlants (snd r) = activePlants s).
Proof.
  intros plantData plotId seedType now s. cbv zeta. unfold plantSeed.
  destruct (getPlot s plotId) as [plot|] eqn:Hplot.
  2: { cbn. repeat split; try discriminate; auto.
       intros (plot & data & H & _). discriminate H. }
  destruct (negb _) eqn:Hstate.
  { cbn. repeat split; try discriminate; auto.
    intros (q & data & [= <-] & Hq & _).
    rewrite Hq in Hstate. discriminate Hstate. }
  apply negb_false_iff, PlotState_eqb_eq in Hstate.
  destruct (Qle_bool _ _) eqn:Hcount.
  { cbn. repeat split; try discriminate; auto.
    intros (q & data & _ & _ & H & _). discriminate H. }
  unfold getPlantData.
  destruct (plantData !! seedType) as [data|] eqn:Hdata.
  2: { cbn. repeat split; try discriminate; auto.
       intros (q & data & _ & _ & _ & H). discriminate H. }
  cbn. repeat split; try discriminate; eauto.
  intros _. exists plot, data. auto.
Qed.

Lemma Qle_bool_false (x y : Q) : Qle_bool x y = false <-> (y < x)%Q.
Proof.
  rewrite <- not_true_iff_false, Qle_bool_iff.
  split; [apply Qnot_le_lt | apply Qlt_not_le].
Qed.

Lemma plantSeed_cases plantData plotId seedType now s :
  let r := plantSeed plantData plotId seedType now s in
  (fst r = true <->
   exists plot data,
     getPlot s plotId = Some plot /\ p_state plot = SEmpty /\
     (0 < seedCountOf s seedType)%Q /\
     plantData !! seedType = Some data) /\
  (fst r = true ->
   seeds (snd r) = <[seedType := (seedCountOf s seedType - 1)%Q]> (seeds s) /\
   resources (snd r) = resources s) /\
  (fst r = false ->
   plots (snd r) = plots s /\ seeds (snd r) = seeds s /\
   resources (snd r) = resources s /\
   activePlants (snd r) = activePlants s).
Proof.
  destruct (plantSeed_outcome plantData plotId seedType now s)
    as (Hiff & Hok & Hfail).
  cbv zeta. split; [|split; assumption].
  rewrite Hiff. split; intros (plot & data & H1 & H2 & H3 & H4);
    exists plot, data; repeat split; try assumption;
    apply Qle_bool_false; exact H3.
Qed.

(** X6: for a seed type that the inventory keeps under a key of its own,
    [plantSeed] succeeds exactly when the plot exists and is empty, the
    stock of the seed is positive and the species is in the catalogue.
    When it emits [plant:planted] it has taken one seed of that type and
    touched no other seed and no resource; the state it returns is what
    the listeners of that event make of this.  When it fails, plots,
    seeds, resources and the active plants are as before. *)
Theorem plantSeed_takes_one_seed :
  forall (plantData : gmap string PlantData) (onPlanted : State -> State)
         (plotId : Z) (seedType : string) (now : Z) (s : State),
    ownName seedType = true ->
    let r := plantSeedInGame plantData onPlanted plotId seedType now s in
    (fst r = true <->
     exists plot data,
       getPlot s plotId = Some plot /\ p_state plot = SEmpty /\
       (0 < seedCountOf s seedType)%Q /\
       plantData !! seedType = Some data) /\
    (fst r = true ->
     exists s1,
       snd r = onPlanted s1 /\
       seeds s1 = <[seedType := (seedCountOf s seedType - 1)%Q]> (seeds s) /\
       resources s1 = resources s) /\
    (fst r = false ->
     plots (snd r) = plots s /\ seeds (snd r) = seeds s /\
     resources (snd r) = resources s /\
     activePlants (snd r) = activePlants s).
Proof.
  intros plantData onPlanted plotId seedType now s _. cbv zeta.
  destruct (plantSeed_cases plantData plotId seedType now s)
    as (Hiff & Hok & Hfail).
  unfold plantSeedInGame.
  destruct (plantSeed plantData plotId seedType now s) as [ok s1].
  cbn [fst snd] in *. split; [exact Hiff|]. split.
  - intros ->. exists s1. split; [reflexivity|]. apply Hok. reflexivity.
  - intros ->. apply Hfail. reflexivity.
Qed.

Lemma plantSeed_takes_one_seed_witness :
  let r :=
    plantSeedInGame Scenario.catalog Scenario.firstPlant 0 "prehistoric-moss"
      1000 initialState in
  (fst r = true <->
   exists plot data,
     getPlot initialState 0 = Some plot /\ p_state plot = SEmpty /\
     (0 < seedCountOf initialState "prehistoric-moss")%Q /\
     Scenario.catalog !! "prehistoric-moss"%string = Some data) /\
  (fst r = true ->
   exists s1,
     snd r = Scenario.firstPlant s1 /\
     seeds s1
     = <["prehistoric-moss"%string :=
           (seedCountOf initialState "prehistoric-moss" - 1)%Q]>
         (seeds initialState) /\
     resources s1 = resources initialState) /\
  (fst r = false ->
   plots (snd r) = plots initialState /\ seeds (snd r) = seeds initialState /\
   resources (snd r) = resources initialState /\
   activePlants (snd r) = activePlants initialState).
Proof.
  apply (plantSeed_takes_one_seed Scenario.catalog Scenario.firstPlant 0
           "prehistoric-moss" 1000 initialState).
  reflexivity.
Defined.

(** X7: A planting through [handlePlantAction] that succeeds subtracts a
    seed twice: [plantSeed] writes the stock less one before it emits
    [plant:planted], and once the listeners of that event have run the
    handler writes the count it then finds, less one.  When the listeners
    leave that count alone the stock is down by two, and a stock of one
    seed ends at minus one. *)
Theorem handlePlantAction_takes_two_seeds :
  forall (plantData : gmap string PlantData) (onPlanted : State -> State)
         (seed : string) (plotId now : Z) (s : State),
    seed <> EmptyString ->
    ownName seed = true ->
    fst (plantSeed plantData plotId seed now s) = true ->
    let s1 := snd (plantSeed plantData plotId seed now s) in
    let s' := handlePlantAction plantData onPlanted (Some seed) plotId now s in
    seedCountOf s1 seed = (seedCountOf s seed - 1)%Q /\
    seedCountOf s' seed = (seedCountOf (onPlanted s1) seed - 1)%Q /\
    (seedCountOf (onPlanted s1) seed = seedCountOf s1 seed ->
     seedCountOf s' seed = (seedCountOf s seed - 1 - 1)%Q /\
     ((seedCountOf s seed == 1)%Q -> (seedCountOf s' seed < 0)%Q)).
Proof.
  intros plantData onPlanted seed plotId now s Hseed _ Hok. cbv zeta.
  unfold handlePlantAction, plantSeedInGame.
  apply String.eqb_neq in Hseed. rewrite Hseed.
  pose proof (plantSeed_seeds plantData plotId seed now s Hok) as Hseeds.
  destruct (plantSeed plantData plotId seed now s) as [ok s1].
  cbn [fst snd] in *. subst ok.
  assert (H1 : seedCountOf s1 seed = (seedCountOf s seed - 1)%Q).
  { unfold seedCountOf at 1. rewrite Hseeds, lookup_insert_eq. reflexivity. }
  assert (H2 : seedCountOf
            (set_seeds (onPlanted s1)
               (<[seed := (seedCountOf (onPlanted s1) seed - 1)%Q]>
                  (seeds (onPlanted s1))))
            seed = (seedCountOf (onPlanted s1) seed - 1)%Q).
  { unfold seedCountOf at 1. cbn [seeds set_seeds].
    rewrite lookup_insert_eq. reflexivity. }
  split; [exact H1|]. split; [exact H2|].
  intros Hkept. rewrite H2, Hkept, H1. split; [reflexivity|].
  intros Hone. rewrite Hone. reflexivity.
Qed.

Lemma handlePlantAction_takes_two_seeds_witness :
  let s1 :=
    snd (plantSeed Scenario.catalog 0 "prehistoric-moss" 1000 initialState) in
  let s' :=
    handlePlantAction Scenario.catalog Scenario.firstPlant
      (Some "prehistoric-moss"%string) 0 1000 initialState in
  seedCountOf s1 "prehistoric-moss" = (5 - 1)%Q /\
  seedCountOf s' "prehistoric-moss"
  = (seedCountOf (Scenario.firstPlant s1) "prehistoric-moss" - 1)%Q /\
  (seedCountOf (Scenario.firstPlant s1) "prehistoric-moss"
   = seedCountOf s1 "prehistoric-moss" ->
   seedCountOf s' "prehistoric-moss" = (5 - 1 - 1)%Q /\
   ((seedCountOf initialState "prehistoric-moss" == 1)%Q ->
    (seedCountOf s' "prehistoric-moss" < 0)%Q)).
Proof.
  apply (handlePlantAction_takes_two_seeds Scenario.catalog Scenario.firstPlant
           "prehistoric-moss" 0 1000 initialState).
  - discriminate.
  - reflexivity.
  - reflexivity.
Defined.

(** *** Acceleration through the handler *)

Lemma accelerateGrowth_resources plantData plotId duration now s :
  resources (snd (accelerateGrowth plantData plotId duration now s))
  = resources s.
Proof.
  unfold accelerateGrowth.
  destruct (getPlot s plotId) as [plot|]; [|reflexivity].
  destruct (p_plant plot) as [plant|]; [|reflexivity].
  destruct (getPlantData plantData (pl_type plant)); [|reflexivity].
  cbn. destruct (Map_get plotId (activePlants s)); reflexivity.
Qed.

(** X8: [handleAccelerateAction] takes its five temporal pulses before it
    asks the plant system, and keeps them whatever the answer: on a plot
    that is missing or holds no plant the pulses are spent and nothing
    else changes. *)
Theorem handleAccelerateAction_always_charges :
  forall (plantData : gmap string PlantData) (plotId now : Z) (s : State),
    Qltb (resourceOf s "temporal-pulses") 5 = false ->
    let s' := handleAccelerateAction plantData plotId now s in
    resources s' =
      <["temporal-pulses" := (resourceOf s "temporal-pulses" - 5)%Q]>
        (resources s) /\
    ((forall plot, getPlot s plotId = Some plot -> p_plant plot = None) ->
     plots s' = plots s /\ activePlants s' = activePlants s /\
     emitted s' = emitted s).
Proof.
  intros plantData plotId now s Hpulses. cbv zeta.
  unfold handleAccelerateAction. rewrite Hpulses.
  split; [rewrite accelerateGrowth_resources; reflexivity|].
  intros Hnone. unfold accelerateGrowth.
  change (getPlot (set_resources s ?m) plotId) with (getPlot s plotId).
  destruct (getPlot s plotId) as [plot|] eqn:Hplot; [|auto].
  rewrite (Hnone plot eq_refl). auto.
Qed.

Lemma handleAccelerateAction_always_charges_witness :
  let s' := handleAccelerateAction Scenario.catalog 0 1000 initialState in
  resources s' =
    <["temporal-pulses" :=
        (resourceOf initialState "temporal-pulses" - 5)%Q]>
      (resources initialState) /\
  ((forall plot, getPlot initialState 0 = Some plot -> p_plant plot = None) ->
   plots s' = plots initialState /\
   activePlants s' = activePlants initialState /\
   emitted s' = emitted initialState).
Proof.
  apply (handleAccelerateAction_always_charges Scenario.catalog 0 1000
           initialState).
  reflexivity.
Defined.

(** *** Harvest rewards *)









(** *** Growth *)

(** X11: For a plant with a number of stages that is not negative, the
    progress that [calculateGrowth] reports is at most 1 and the stage at
    most the number of stages; the plant is reported ready exactly when
    the progress is 1, and then the stage is the last one. *)
Theorem calculateGrowth_stage_bounds :
  forall (plantData : gmap string PlantData) (s : State) (plot : Plot)
         (plant : ActivePlant) (now : Z) (r : GrowthResult),
    0 <= pl_maxStages (ap_plant plant) ->
    calculateGrowth plantData s plot plant now = Some r ->
    (progress r <= 1)%Q /\
    newStage r <= pl_maxStages (ap_plant plant) /\
    (isReady r = true <-> (progress r == 1)%Q) /\
    (isReady r = true -> newStage r = pl_maxStages (ap_plant plant)).
Proof.
  intros plantData s plot plant now r Hmax. unfold calculateGrowth.
  destruct (getPlantData plantData (pl_type (ap_plant plant))) as [data|];
    [|discriminate].
  cbv zeta. intros H. apply (inj Some) in H. subst r.
  cbn [progress newStage isReady].
  set (p := Qmin 1 _).
  assert (Hp : (p <= 1)%Q) by apply Q.le_min_l.
  assert (Hm : (0 <= inject_Z (pl_maxStages (ap_plant plant)))%Q).
  { change 0%Q with (inject_Z 0). rewrite <- Zle_Qle. exact Hmax. }
  assert (Hready : Qgeb p 1 = true <-> (p == 1)%Q).
  { unfold Qgeb. rewrite Qle_bool_iff. split; intros H.
    - apply Qle_antisym; assumption.
    - rewrite H. apply Qle_refl. }
  split; [exact Hp|]. split; [|split; [exact Hready|]].
  - apply Z.le_trans
      with (Qfloor (inject_Z (pl_maxStages (ap_plant plant))));
      [apply Qfloor_resp_le; nra | rewrite Qfloor_Z; lia].
  - intros H. apply Hready in H. rewrite H, Qmult_1_l. apply Qfloor_Z.
Qed.

Lemma calculateGrowth_stage_bounds_witness :
  exists r,
    calculateGrowth Scenario.catalog Scenario.planted0 Scenario.freshPlot
      Scenario.freshActive 41000 = Some r /\
    (progress r <= 1)%Q /\
    newStage r <= 3 /\
    (isReady r = true <-> (progress r == 1)%Q) /\
    (isReady r = true -> newStage r = 3).
Proof.
  eexists. split; [reflexivity|].
  apply (calculateGrowth_stage_bounds Scenario.catalog Scenario.planted0
           Scenario.freshPlot Scenario.freshActive 41000).
  - vm_compute. discriminate.
  - reflexivity.
Defined.

End PlantSystemLaws.

(** * Laws of time travel and of the unlocking of eras *)

Section TimeTravelLaws.
Import TimeTravelSystem TravelSpec.

Lemma Qgtb_true (x y : Q) : Qgtb x y = true <-> (y < x)%Q.
Proof.
  unfold Qgtb, Qltb. rewrite negb_true_iff, <- not_true_iff_false,
    Qle_bool_iff. split; [apply Qnot_le_lt | apply Qlt_not_le].
Qed.

Lemma Qgtb_false (x y : Q) : Qgtb x y = false <-> (x <= y)%Q.
Proof.
  unfold Qgtb, Qltb. rewrite negb_false_iff, Qle_bool_iff. reflexivity.
Qed.

(** *** A travel that succeeds *)

Lemma travelAttempt_cases c eraId now targetEra (s : State) :
  let s' := snd (travelAttempt c eraId now targetEra s) in
  (unlockedEras (store s') = unlockedEras (store s) /\
   harvestStats (store s') = harvestStats (store s) /\
   seeds (store s') = seeds (store s) /\
   config s' = config s /\
   travelConfig s' = travelConfig s /\
   isTraveling s' = false) /\
  (fst (travelAttempt c eraId now targetEra s) = Travelled ->
   currentEra s' = eraId /\
   previousEra s' = Some (currentEra s) /\
   time_currentEra (store s') = eraId /\
   time_previousEra (store s') = Some (currentEra s) /\
   travelCooldown s' = minTravelInterval (travelConfig s) /\
   isTraveling s' = false /\
   resources (store s') =
     (if enableCost (config s) then
        <["temporal-pulses" :=
            (temporalPulses s - temporalPulseCost (travelConfig s))%Q]>
          (resources (store s))
      else resources (store s)) /\
   emitted s' =
     emitted s ++ [EvStart (currentEra s) eraId now;
                   EvSuccess (currentEra s) eraId now]).
Proof.
  cbv zeta. pattern (travelAttempt c eraId now targetEra s).
  match goal with |- ?P _ => set (Q := P) end.
  unfold travelAttempt, applyEraEffects. cbv zeta.
  cbn [config with_isTraveling].
  destruct (enableCost (config s)) eqn:Hcost;
    cbn [config with_isTraveling emit with_store];
    destruct (enableTravelEffects (config s)),
             (effects_growthMultiplier targetEra) as [m|];
    try destruct (Qeq_bool m 0); destruct c; cbn [andb];
    subst Q; cbv beta; rewrite ?Hcost;
    (split; [repeat split|]); cbn [fst]; intros H;
    try discriminate H; repeat split;
    symmetry; apply (app_assoc (emitted s) [_] [_]).
Qed.

Lemma travelTo_frame c eraId now (s : State) :
  let s' := snd (travelTo c eraId now s) in
  unlockedEras (store s') = unlockedEras (store s) /\
  harvestStats (store s') = harvestStats (store s) /\
  seeds (store s') = seeds (store s) /\
  config s' = config s /\
  travelConfig s' = travelConfig s /\
  isTraveling s' = isTraveling s.
Proof.
  cbv zeta. unfold travelTo.
  destruct (isTraveling s) eqn:Htrav; [repeat split; assumption|].
  destruct (String.eqb (currentEra s) eraId); [repeat split; assumption|].
  destruct (eras_get eraId (eras s)) as [targetEra|];
    [|repeat split; assumption].
  destruct (negb (unlocked targetEra)); [repeat split; assumption|].
  destruct (enableCooldown (config s) && Qgtb (travelCooldown s) 0);
    [repeat split; assumption|].
  destruct (enableCost (config s)
            && Qltb (temporalPulses s) (temporalPulseCost (travelConfig s)));
    [repeat split; assumption|].
  apply travelAttempt_cases.
Qed.

Lemma travelTo_succeeded :
  forall (c : Collaborators) (eraId : string) (now : Z) (s : State),
    fst (travelTo c eraId now s) = Travelled ->
    let s' := snd (travelTo c eraId now s) in
    currentEra s <> eraId /\
    isUnlocked s eraId = true /\
    currentEra s' = eraId /\
    previousEra s' = Some (currentEra s) /\
    time_currentEra (store s') = eraId /\
    time_previousEra (store s') = Some (currentEra s) /\
    travelCooldown s' = minTravelInterval (travelConfig s) /\
    isTraveling s' = false /\
    resources (store s') =
      (if enableCost (config s) then
         <["temporal-pulses" :=
             (temporalPulses s - temporalPulseCost (travelConfig s))%Q]>
           (resources (store s))
       else resources (store s)) /\
    emitted s' =
      emitted s ++ [EvStart (currentEra s) eraId now;
                    EvSuccess (currentEra s) eraId now].
Proof.
  intros c eraId now s. cbv zeta. unfold travelTo, isUnlocked.
  destruct (isTraveling s) eqn:Htrav; [intros H; cbn in H; discriminate H|].
  destruct (String.eqb (currentEra s) eraId) eqn:Hsame;
    [intros H; cbn in H; discriminate H|].
  apply String.eqb_neq in Hsame.
  destruct (eras_get eraId (eras s)) as [targetEra|];
    [|intros H; cbn in H; discriminate H].
  destruct (unlocked targetEra) eqn:Hunl;
    [|intros H; cbn in H; discriminate H].
  cbn [negb].
  destruct (enableCooldown (config s) && Qgtb (travelCooldown s) 0);
    [intros H; cbn in H; discriminate H|].
  destruct (enableCost (config s)
            && Qltb (temporalPulses s) (temporalPulseCost (travelConfig s)));
    [intros H; cbn in H; discriminate H|].
  intros H. split; [exact Hsame|]. split; [reflexivity|].
  apply travelAttempt_cases. exact H.
Qed.

Lemma travelTo_checks (c : Collaborators) (eraId : string) (now : Z)
    (s : State) :
  fst (travelTo c eraId now s) = Travelled ->
  isTraveling s = false /\
  (enableCooldown (config s) = true -> (travelCooldown s <= 0)%Q) /\
  (enableCost (config s) = true ->
   (temporalPulseCost (travelConfig s) <= temporalPulses s)%Q).
Proof.
  unfold travelTo.
  destruct (isTraveling s) eqn:Htrav; [intros H; cbn in H; discriminate H|].
  destruct (String.eqb (currentEra s) eraId);
    [intros H; cbn in H; discriminate H|].
  destruct (eras_get eraId (eras s)) as [targetEra|];
    [|intros H; cbn in H; discriminate H].
  destruct (negb (unlocked targetEra));
    [intros H; cbn in H; discriminate H|].
  destruct (enableCooldown (config s) && Qgtb (travelCooldown s) 0) eqn:Hcd;
    [intros H; cbn in H; discriminate H|].
  destruct (enableCost (config s)
            && Qltb (temporalPulses s) (temporalPulseCost (travelConfig s)))
    eqn:Hcost;
    [intros H; cbn in H; discriminate H|].
  intros _. split; [reflexivity|]. split.
  - intros Hon. rewrite Hon in Hcd. cbn in Hcd. apply Qgtb_false. exact Hcd.
  - intros Hon. rewrite Hon in Hcost. cbn in Hcost.
    unfold Qltb in Hcost. apply negb_false_iff in Hcost.
    apply Qle_bool_iff. exact Hcost.
Qed.

(** X12: When [travelTo] succeeds, no travel was in progress, the target
    was another era than the current one and unlocked, the cooldown had
    run out if it is enabled and the pulses covered the cost if it is
    enabled.  Afterwards the target is the current era in the system and
    in the store, the era left is the previous one, the cooldown is the
    minimal interval of the configuration and no travel is in progress;
    the start event was emitted before the success event, each with the
    two eras and the clock reading of its moment.  Nothing is said of the
    inventory on return: the cost is taken before the travel effects, and
    the listeners of the success event may pay rewards into it. *)
Theorem travelTo_success :
  forall (c : Collaborators) (eraId : string) (now : Z) (s : State),
    fst (travelTo c eraId now s) = Travelled ->
    let s' := snd (travelTo c eraId now s) in
    (isTraveling s = false /\
     currentEra s <> eraId /\
     isUnlocked s eraId = true /\
     (enableCooldown (config s) = true -> (travelCooldown s <= 0)%Q) /\
     (enableCost (config s) = true ->
      (temporalPulseCost (travelConfig s) <= temporalPulses s)%Q)) /\
    currentEra s' = eraId /\
    previousEra s' = Some (currentEra s) /\
    time_currentEra (store s') = eraId /\
    time_previousEra (store s') = Some (currentEra s) /\
    travelCooldown s' = minTravelInterval (travelConfig s') /\
    isTraveling s' = false /\
    exists (started succeeded : Z) (between : list Event),
      emitted s'
      = emitted s ++ EvStart (currentEra s) eraId started
                     :: between ++ [EvSuccess (currentEra s) eraId succeeded].
Proof.
  intros c eraId now s Hok. cbv zeta.
  destruct (travelTo_checks c eraId now s Hok) as (Htrav & Hcd & Hcost).
  destruct (travelTo_succeeded c eraId now s Hok)
    as (Hne & Hunl & Hcur & Hprev & Htc & Htp & Hcool & Hend & _ & Hev).
  destruct (travelTo_frame c eraId now s) as (_ & _ & _ & _ & Hcfg & _).
  rewrite Hcfg.
  repeat split; try assumption.
  exists now, now, []. exact Hev.
Qed.

Lemma travelTo_success_witness :
  let s0 := unlockEra "egyptian" 0 initialState in
  let s' := snd (travelTo AllFine "egyptian" 1000 s0) in
  (isTraveling s0 = false /\
   currentEra s0 <> "egyptian"%string /\
   isUnlocked s0 "egyptian" = true /\
   (enableCooldown (config s0) = true -> (travelCooldown s0 <= 0)%Q) /\
   (enableCost (config s0) = true ->
    (temporalPulseCost (travelConfig s0) <= temporalPulses s0)%Q)) /\
  currentEra s' = "egyptian"%string /\
  previousEra s' = Some (currentEra s0) /\
  time_currentEra (store s') = "egyptian"%string /\
  time_previousEra (store s') = Some (currentEra s0) /\
  travelCooldown s' = minTravelInterval (travelConfig s') /\
  isTraveling s' = false /\
  exists (started succeeded : Z) (between : list Event),
    emitted s'
    = emitted s0 ++ EvStart (currentEra s0) "egyptian" started
                    :: between ++ [EvSuccess (currentEra s0) "egyptian"
                                     succeeded].
Proof.
  apply (travelTo_success AllFine "egyptian" 1000
           (unlockEra "egyptian" 0 initialState)).
  reflexivity.
Defined.

(** *** The cooldown *)

Lemma update_cooldown (deltaTime : Q) (s : State) :
  travelCooldown (update deltaTime s)
  = if Qgtb (travelCooldown s) 0 then Qmax 0 (travelCooldown s - deltaTime)
    else travelCooldown s.
Proof. unfold update. destruct (Qgtb _ _); reflexivity. Qed.

(** X13: After a travel that succeeded, with the cooldown enabled and a
    positive minimal interval, a travel to any other unlocked era is
    refused for the cooldown, and changes nothing, as long as the game
    loop has counted less than the interval. *)
Theorem travelTo_refused_during_cooldown :
  forall (c c' : Collaborators) (eraId eraId' : string) (now now' : Z)
         (deltaTime : Q) (s : State),
    fst (travelTo c eraId now s) = Travelled ->
    enableCooldown (config s) = true ->
    (0 < minTravelInterval (travelConfig s))%Q ->
    (deltaTime < minTravelInterval (travelConfig s))%Q ->
    eraId' <> eraId ->
    isUnlocked s eraId' = true ->
    let s1 := update deltaTime (snd (travelTo c eraId now s)) in
    travelTo c' eraId' now' s1 = (Failed Cooldown, s1).
Proof.
  intros c c' eraId eraId' now now' deltaTime s Hok Hcool Hpos Hdelta Hne Hunl.
  cbv zeta.
  destruct (travelTo_succeeded c eraId now s Hok)
    as (_ & _ & Hcur & _ & _ & _ & Hcd & Htrav & _).
  pose proof (travelTo_eras c eraId now s) as Heras.
  destruct (travelTo_frame c eraId now s) as (_ & _ & _ & Hcfg & _).
  set (s0 := snd (travelTo c eraId now s)) in *.
  assert (Hpos0 : Qgtb (travelCooldown s0) 0 = true).
  { rewrite Hcd. apply Qgtb_true. exact Hpos. }
  assert (Hs1 : update deltaTime s0
                = with_travelCooldown s0
                    (Qmax 0 (travelCooldown s0 - deltaTime))).
  { unfold update. rewrite Hpos0. reflexivity. }
  rewrite Hs1. unfold travelTo.
  cbn [isTraveling currentEra eras config travelCooldown with_travelCooldown].
  rewrite Htrav, Hcur, Heras, Hcfg, Hcool.
  apply String.eqb_neq in Hne. rewrite String.eqb_sym, Hne.
  unfold isUnlocked in Hunl.
  destruct (eras_get eraId' (eras s)) as [target|]; [|discriminate Hunl].
  rewrite Hunl. cbn [negb andb].
  assert (Hleft : Qgtb (Qmax 0 (travelCooldown s0 - deltaTime)) 0 = true).
  { apply Qgtb_true. rewrite Hcd.
    apply Qlt_le_trans
      with (minTravelInterval (travelConfig s) - deltaTime)%Q;
      [lra | apply Q.le_max_r]. }
  rewrite Hleft. reflexivity.
Qed.

Lemma travelTo_refused_during_cooldown_witness :
  let s0 :=
    unlockEra "future" 0 (unlockEra "egyptian" 0 initialState) in
  let s1 := update 4999 (snd (travelTo AllFine "egyptian" 1000 s0)) in
  travelTo AllFine "future" 5999 s1 = (Failed Cooldown, s1).
Proof.
  apply (travelTo_refused_during_cooldown AllFine AllFine "egyptian" "future"
           1000 5999 4999
           (unlockEra "future" 0 (unlockEra "egyptian" 0 initialState))).
  - reflexivity.
  - reflexivity.
  - reflexivity.
  - reflexivity.
  - discriminate.
  - reflexivity.
Defined.

Lemma updates_cooldown (deltas : list Q) :
  forall s : State,
    Forall (fun deltaTime => (0 <= deltaTime)%Q) deltas ->
    (0 <= travelCooldown s)%Q ->
    updates deltas s = with_travelCooldown s (travelCooldown (updates deltas s))
    /\
    (0 <= travelCooldown (updates deltas s))%Q /\
    (travelCooldown (updates deltas s) <= travelCooldown s)%Q /\
    (forall deltaTime,
        In deltaTime deltas -> (travelCooldown s <= deltaTime)%Q ->
        (travelCooldown (updates deltas s) == 0)%Q).
Proof.
  unfold updates.
  induction deltas as [|d deltas IH]; intros s Hds Hc; cbn [List.fold_left].
  - split; [destruct s; reflexivity|]. split; [exact Hc|].
    split; [apply Qle_refl|]. intros d [].
  - inversion Hds as [|? ? Hd Hrest]; subst.
    pose proof (update_cooldown d s) as Hstep.
    assert (Hc1 : (0 <= travelCooldown (update d s))%Q /\
                  (travelCooldown (update d s) <= travelCooldown s)%Q /\
                  ((travelCooldown s <= d)%Q ->
                   (travelCooldown (update d s) == 0)%Q)).
    { rewrite Hstep. destruct (Qgtb (travelCooldown s) 0) eqn:Hpos.
      - apply Qgtb_true in Hpos.
        pose proof (Q.max_spec 0 (travelCooldown s - d)) as M.
        repeat split; [| |intros Hle]; lra.
      - apply Qgtb_false in Hpos. repeat split; [| |intros Hle]; lra. }
    destruct Hc1 as (Hnn & Hle & Hzero).
    destruct (IH (update d s) Hrest Hnn) as (Hframe & Hnn' & Hle' & Hzero').
    split; [|split; [exact Hnn' | split; [lra|]]].
    + rewrite Hframe at 1. unfold update.
      destruct (Qgtb (travelCooldown s) 0); [|destruct s; reflexivity].
      destruct s; reflexivity.
    + intros d' [<- | Hin] Hd'.
      * specialize (Hzero Hd'). lra.
      * apply Hzero' with d'; [exact Hin | lra].
Qed.

(** X14: Over any number of frames with time steps that are not negative,
    [update] changes nothing but the cooldown, which it counts down and
    never below zero: a cooldown that is not negative ends between zero
    and its value at the start, and at zero when one of the steps is at
    least that value. *)
Theorem update_counts_down :
  forall (deltas : list Q) (s : State),
    Forall (fun deltaTime => (0 <= deltaTime)%Q) deltas ->
    (0 <= travelCooldown s)%Q ->
    let s' := updates deltas s in
    s' = with_travelCooldown s (travelCooldown s') /\
    (0 <= travelCooldown s')%Q /\
    (travelCooldown s' <= travelCooldown s)%Q /\
    (forall deltaTime,
        In deltaTime deltas -> (travelCooldown s <= deltaTime)%Q ->
        (travelCooldown s' == 0)%Q).
Proof. intros deltas s Hds Hc. apply updates_cooldown; assumption. Qed.

Lemma update_counts_down_witness :
  let s :=
    snd (travelTo AllFine "egyptian" 1000
           (unlockEra "egyptian" 0 initialState)) in
  let s' := updates [2500; 5000; 16]%Q s in
  s' = with_travelCooldown s (travelCooldown s') /\
  (0 <= travelCooldown s')%Q /\
  (travelCooldown s' <= travelCooldown s)%Q /\
  (forall deltaTime,
      In deltaTime [2500; 5000; 16]%Q -> (travelCooldown s <= deltaTime)%Q ->
      (travelCooldown s' == 0)%Q).
Proof.
  apply (update_counts_down [2500; 5000; 16]%Q).
  - repeat constructor; discriminate.
  - vm_compute. discriminate.
Defined.

(** *** Unlocking *)

Lemma unlockEra_isUnlocked (k id : string) (now : Z) (s : State) :
  isUnlocked (unlockEra k now s) id
  = isUnlocked s id
    || (String.eqb k id
        && match eras_get k (eras s) with Some _ => true | None => false end).
Proof.
  unfold unlockEra, isUnlocked.
  destruct (eras_get k (eras s)) as [era|] eqn:Hk.
  - destruct (unlocked era) eqn:Hunl.
    + destruct (String.eqb k id) eqn:Hid; [|rewrite !orb_false_r; reflexivity].
      apply String.eqb_eq in Hid. subst id. rewrite Hk, Hunl. reflexivity.
    + destruct (existsb _ _); cbn [eras emit with_store with_eras];
        rewrite eras_get_put, Hk;
        (destruct (String.eqb k id) eqn:Hid;
         [rewrite orb_true_r; reflexivity | rewrite orb_false_r; reflexivity]).
  - rewrite andb_false_r, orb_false_r. reflexivity.
Qed.

Lemma unlockEra_store (k : string) (now : Z) (s : State) :
  harvestStats (store (unlockEra k now s)) = harvestStats (store s) /\
  resources (store (unlockEra k now s)) = resources (store s) /\
  unlockedEras (store (unlockEra k now s))
  = match eras_get k (eras s) with
    | Some era =>
        if unlocked era then unlockedEras (store s)
        else if existsb (String.eqb k) (unlockedEras (store s))
             then unlockedEras (store s)
             else unlockedEras (store s) ++ [k]
    | None => unlockedEras (store s)
    end.
Proof.
  unfold unlockEra.
  destruct (eras_get k (eras s)) as [era|]; [|auto].
  destruct (unlocked era); [auto|].
  cbn [store with_eras]. destruct (existsb _ _); cbn; auto.
Qed.



Lemma unlockEra_requirement (k id : string) (now : Z) (s : State) :
  option_map unlockRequirement (eras_get id (eras (unlockEra k now s)))
  = option_map unlockRequirement (eras_get id (eras s)).
Proof.
  unfold unlockEra.
  destruct (eras_get k (eras s)) as [era|] eqn:Hk; [|reflexivity].
  destruct (unlocked era); [reflexivity|].
  destruct (existsb _ _); cbn [eras emit with_store with_eras];
    rewrite eras_get_put, Hk;
    (destruct (String.eqb k id) eqn:Hid; [|reflexivity]);
    apply String.eqb_eq in Hid; subst id; rewrite Hk; reflexivity.
Qed.

Lemma existsb_eqb_In (k : string) (l : list string) :
  existsb (String.eqb k) l = true <-> In k l.
Proof.
  rewrite existsb_exists. split.
  - intros (x & Hin & Heq). apply String.eqb_eq in Heq. subst x. exact Hin.
  - intros Hin. exists k. split; [exact Hin | apply String.eqb_refl].
Qed.

Lemma unlockEra_listed (k : string) (now : Z) (s : State) :
  listed s /\ NoDup (unlockedEras (store s)) ->
  listed (unlockEra k now s) /\ NoDup (unlockedEras (store (unlockEra k now s))).
Proof.
  intros [Hl Hnd].
  destruct (unlockEra_store k now s) as (_ & _ & Hlist).
  unfold listed. rewrite Hlist. split.
  - intros id. rewrite unlockEra_isUnlocked.
    destruct (eras_get k (eras s)) as [era|] eqn:Hk.
    + destruct (unlocked era) eqn:Hunl.
      * intros H. apply Hl. apply orb_true_iff in H.
        destruct H as [H | H]; [exact H|].
        apply andb_true_iff in H. destruct H as [H _].
        apply String.eqb_eq in H. subst id. unfold isUnlocked.
        rewrite Hk. exact Hunl.
      * intros H. apply orb_true_iff in H.
        destruct (existsb (String.eqb k) (unlockedEras (store s))) eqn:Hin.
        -- destruct H as [H | H]; [apply Hl; exact H|].
           apply andb_true_iff in H. destruct H as [H _].
           apply String.eqb_eq in H. subst id.
           apply existsb_eqb_In. exact Hin.
        -- apply in_app_iff. destruct H as [H | H]; [left; apply Hl; exact H|].
           apply andb_true_iff in H. destruct H as [H _].
           apply String.eqb_eq in H. right. left. exact H.
    + rewrite andb_false_r, orb_false_r. apply Hl.
  - destruct (eras_get k (eras s)) as [era|]; [|exact Hnd].
    destruct (unlocked era); [exact Hnd|].
    destruct (existsb (String.eqb k) (unlockedEras (store s))) eqn:Hin;
      [exact Hnd|].
    apply NoDup_app. split; [exact Hnd|]. split; [|apply NoDup_singleton].
    intros x Hx Hx'. apply list_elem_of_In in Hx, Hx'.
    destruct Hx' as [<-|[]].
    apply existsb_eqb_In in Hx. congruence.
Qed.

Lemma fold_checkEra (P : State -> Prop) (harvestedType : string) (now : Z) :
  (forall k s, P s -> P (unlockEra k now s)) ->
  forall keys s,
    P s -> P (List.fold_left (checkEra harvestedType now) keys s).
Proof.
  intros Hstep. induction keys as [|k keys IH]; intros s Hs; [exact Hs|].
  cbn [List.fold_left]. apply IH.
  destruct (checkEra_cases harvestedType k now s) as [-> | ->];
    [exact Hs | apply Hstep, Hs].
Qed.

Lemma applyMinigameRewards_rest rewards (s : State) :
  unlockedEras (store (applyMinigameRewards rewards s))
    = unlockedEras (store s) /\
  harvestStats (store (applyMinigameRewards rewards s))
    = harvestStats (store s).
Proof.
  unfold applyMinigameRewards. destruct rewards as [rw|]; [|auto].
  assert (H1 : forall l st,
    let st' :=
      List.fold_left
        (fun st '(resource, amount) =>
           with_store st
             (store_set_resources (store st)
                (<[resource :=
                     (default 0%Q (resources (store st) !! resource)
                      + amount)%Q]> (resources (store st))))) l st in
    unlockedEras (store st') = unlockedEras (store st) /\
    harvestStats (store st') = harvestStats (store st)).
  { induction l as [|[k a] l IH]; intros st; cbn; [auto|].
    destruct (IH (with_store st
             (store_set_resources (store st)
                (<[k := (default 0%Q (resources (store st) !! k) + a)%Q]>
                   (resources (store st)))))) as [-> ->]. auto. }
  assert (H2 : forall l st,
    let st' :=
      List.fold_left
        (fun st '(seed, count) =>
           with_store st
             (store_set_seeds (store st)
                (<[seed :=
                     (default 0%Q (seeds (store st) !! seed) + count)%Q]>
                   (seeds (store st))))) l st in
    unlockedEras (store st') = unlockedEras (store st) /\
    harvestStats (store st') = harvestStats (store st)).
  { induction l as [|[k a] l IH]; intros st; cbn; [auto|].
    destruct (IH (with_store st
             (store_set_seeds (store st)
                (<[k := (default 0%Q (seeds (store st) !! k) + a)%Q]>
                   (seeds (store st)))))) as [-> ->]. auto. }
  destruct (H2 (mr_seeds rw)
              (List.fold_left
                 (fun st '(resource, amount) =>
                    with_store st
                      (store_set_resources (store st)
                         (<[resource :=
                              (default 0%Q (resources (store st) !! resource)
                               + amount)%Q]> (resources (store st)))))
                 (mr_resources rw) s)) as [-> ->].
  apply H1.
Qed.

Lemma run_listed (o : Op) (s : State) :
  listed s /\ NoDup (unlockedEras (store s)) ->
  listed (run o s) /\ NoDup (unlockedEras (store (run o s))).
Proof.
  intros Hs.
  destruct o as [c eraId now | harvestedType now | eraId now
                | minigame success rewards now | deltaTime | cfg |];
    cbn [run].
  - destruct (travelTo_frame c eraId now s) as (Hl & _).
    unfold listed, isUnlocked. rewrite Hl, travelTo_eras. exact Hs.
  - unfold checkEraUnlocks.
    apply (fold_checkEra
             (fun st => listed st /\ NoDup (unlockedEras (store st))));
      [|exact Hs].
    intros k st. apply unlockEra_listed.
  - apply unlockEra_listed, Hs.
  - unfold onMinigameCompleted. destruct success; [|exact Hs].
    destruct (applyMinigameRewards_rest rewards
                match minigameEra minigame (eras s) with
                | Some eraId => unlockEra eraId now s
                | None => s
                end) as [Hl _].
    unfold listed, isUnlocked. rewrite Hl, applyMinigameRewards_eras.
    destruct (minigameEra minigame (eras s));
      [apply unlockEra_listed, Hs | exact Hs].
  - unfold update. destruct (Qgtb _ _); exact Hs.
  - exact Hs.
  - destruct Hs as [_ Hnd]. split; [|exact Hnd].
    intros id H. discriminate H.
Qed.

(** X15: Under every sequence of operations each unlocked era of the system is
    named in [player.unlockedEras], and no era is named there twice. *)
Theorem unlocked_eras_are_listed_once :
  forall (ops : list Op) (s : State),
    listed s -> NoDup (unlockedEras (store s)) ->
    listed (runAll ops s) /\ NoDup (unlockedEras (store (runAll ops s))).
Proof.
  unfold runAll. induction ops as [|o ops IH]; intros s Hl Hnd; [auto|].
  cbn [List.fold_left].
  destruct (run_listed o s (conj Hl Hnd)) as [Hl' Hnd'].
  apply IH; assumption.
Qed.

Lemma listed_initial : listed initialState.
Proof.
  intros id. unfold isUnlocked, initialState, initialEras.
  cbn [eras eras_get store unlockedEras initialStore].
  destruct (String.eqb "prehistoric" id) eqn:H1.
  - apply String.eqb_eq in H1. subst id. intros _. left. reflexivity.
  - destruct (String.eqb "egyptian" id); [intros H; discriminate H|].
    destruct (String.eqb "future" id); intros H; discriminate H.
Qed.

Lemma unlocked_eras_are_listed_once_witness :
  let ops :=
    [OpUnlockEra "egyptian" 1; OpTravelTo AllFine "egyptian" 1000;
     OpUnlockEra "egyptian" 2; OpCheckEraUnlocks "lotus-egyptian" 3] in
  listed (runAll ops initialState) /\
  NoDup (unlockedEras (store (runAll ops initialState))).
Proof.
  apply unlocked_eras_are_listed_once.
  - exact listed_initial.
  - apply (bool_decide_unpack _). vm_compute. exact I.
Defined.

(** *** What [checkEraUnlocks] unlocks *)

Lemma shouldUnlock_unlockEra (k harvestedType : string) (now : Z) (s : State)
    (req : Requirement) :
  shouldUnlock (unlockEra k now s) harvestedType req
  = shouldUnlock s harvestedType req.
Proof.
  destruct (unlockEra_store k now s) as (Hh & Hr & _).
  destruct req; cbn; unfold getHarvestCount; rewrite ?Hh, ?Hr; reflexivity.
Qed.

Lemma meets_unlockEra (k harvestedType id : string) (now : Z) (s : State) :
  meets (unlockEra k now s) harvestedType id = meets s harvestedType id.
Proof.
  unfold meets.
  pose proof (unlockEra_requirement k id now s) as Hreq.
  destruct (eras_get id (eras (unlockEra k now s))) as [e'|],
           (eras_get id (eras s)) as [e|]; cbn in Hreq;
    try discriminate Hreq; [|reflexivity].
  injection Hreq as ->.
  destruct (unlockRequirement e); [|reflexivity].
  apply shouldUnlock_unlockEra.
Qed.

Lemma checkEra_isUnlocked (harvestedType k id : string) (now : Z)
    (s : State) :
  isUnlocked (checkEra harvestedType now s k) id
  = isUnlocked s id || (String.eqb k id && meets s harvestedType id).
Proof.
  unfold checkEra.
  destruct (String.eqb k id) eqn:Hid.
  - apply String.eqb_eq in Hid. subst id. unfold meets.
    destruct (eras_get k (eras s)) as [era|] eqn:Hk;
      [|rewrite orb_false_r; reflexivity].
    destruct (unlocked era) eqn:Hunl.
    + unfold isUnlocked. rewrite Hk, Hunl. reflexivity.
    + destruct (unlockRequirement era) as [req|];
        [|rewrite orb_false_r; reflexivity].
      destruct (shouldUnlock s harvestedType req);
        [|rewrite orb_false_r; reflexivity].
      rewrite unlockEra_isUnlocked, String.eqb_refl, Hk.
      rewrite !orb_true_r. reflexivity.
  - rewrite orb_false_r.
    destruct (eras_get k (eras s)) as [era|] eqn:Hk; [|reflexivity].
    destruct (unlocked era); [reflexivity|].
    destruct (unlockRequirement era) as [req|]; [|reflexivity].
    destruct (shouldUnlock s harvestedType req); [|reflexivity].
    rewrite unlockEra_isUnlocked, Hid. apply orb_false_r.
Qed.

Lemma checkEra_meets (harvestedType k id : string) (now : Z) (s : State) :
  meets (checkEra harvestedType now s k) harvestedType id
  = meets s harvestedType id.
Proof.
  destruct (checkEra_cases harvestedType k now s) as [-> | ->];
    [reflexivity | apply meets_unlockEra].
Qed.

Lemma fold_checkEra_isUnlocked (harvestedType id : string) (now : Z) :
  forall keys s,
    isUnlocked (List.fold_left (checkEra harvestedType now) keys s) id
    = isUnlocked s id
      || (existsb (String.eqb id) keys && meets s harvestedType id).
Proof.
  induction keys as [|k keys IH]; intros s; cbn [List.fold_left existsb].
  - rewrite orb_false_r. reflexivity.
  - rewrite IH, checkEra_isUnlocked, checkEra_meets.
    rewrite (String.eqb_sym id k).
    destruct (isUnlocked s id), (String.eqb k id),
             (existsb (String.eqb id) keys), (meets s harvestedType id);
      reflexivity.
Qed.

Lemma eras_get_key (id : string) (m : list (string * Era)) (e : Era) :
  eras_get id m = Some e -> existsb (String.eqb id) (List.map fst m) = true.
Proof.
  induction m as [|[k e'] m IH]; cbn; [discriminate|].
  rewrite (String.eqb_sym id k).
  destruct (String.eqb k id); [reflexivity | exact IH].
Qed.

Lemma checkEraUnlocks_isUnlocked :
  forall (harvestedType eraId : string) (now : Z) (s : State),
    isUnlocked (checkEraUnlocks harvestedType now s) eraId
    = isUnlocked s eraId || meets s harvestedType eraId.
Proof.
  intros harvestedType eraId now s. unfold checkEraUnlocks.
  rewrite fold_checkEra_isUnlocked.
  destruct (meets s harvestedType eraId) eqn:Hmeets;
    [|rewrite andb_false_r; reflexivity].
  unfold meets in Hmeets.
  destruct (eras_get eraId (eras s)) as [era|] eqn:Hget;
    [|discriminate Hmeets].
  rewrite (eras_get_key _ _ _ Hget). reflexivity.
Qed.

Lemma Qgeb_le (x y : Q) : Qgeb x y = true <-> (y <= x)%Q.
Proof. unfold Qgeb. apply Qle_bool_iff. Qed.

Lemma shouldUnlock_requirementMet (s : State) (harvestedType : string)
    (req : Requirement) :
  shouldUnlock s harvestedType req = true
  <-> requirementMet (store s) harvestedType req.
Proof.
  destruct req as [plantType count | minigame | resource amount | type];
    cbn [shouldUnlock requirementMet].
  - rewrite andb_true_iff, String.eqb_eq, Qgeb_le. reflexivity.
  - split; [discriminate | contradiction].
  - apply Qgeb_le.
  - split; [discriminate | contradiction].
Qed.

(** X16: After [checkEraUnlocks] an era is unlocked exactly when it was
    unlocked before or it has a requirement that is met
    ([requirementMet]): a harvest requirement on the harvested plant type
    whose count the harvest statistics have reached, or a resource
    requirement whose amount the inventory holds.  A minigame requirement
    is never met by a harvest.  The names that the requirements look up
    are taken to be keys of the store's own. *)
Theorem checkEraUnlocks_unlocks_what_is_met :
  forall (harvestedType eraId : string) (now : Z) (s : State),
    forallb (fun kv => ordinaryRequirement (snd kv)) (eras s) = true ->
    (isUnlocked (checkEraUnlocks harvestedType now s) eraId = true <->
     isUnlocked s eraId = true \/
     exists era req,
       eras_get eraId (eras s) = Some era /\
       unlockRequirement era = Some req /\
       requirementMet (store s) harvestedType req).
Proof.
  intros harvestedType eraId now s _.
  rewrite checkEraUnlocks_isUnlocked, orb_true_iff.
  unfold meets. split; (intros [H | H]; [left; exact H | right]).
  - destruct (eras_get eraId (eras s)) as [era|]; [|discriminate H].
    destruct (unlockRequirement era) as [req|] eqn:Hreq; [|discriminate H].
    exists era, req. split; [reflexivity|]. split; [exact Hreq|].
    apply shouldUnlock_requirementMet. exact H.
  - destruct H as (era & req & -> & -> & H).
    apply shouldUnlock_requirementMet. exact H.
Qed.

Lemma checkEraUnlocks_unlocks_what_is_met_witness :
  isUnlocked (checkEraUnlocks "prehistoric-moss" 1 initialState) "egyptian"
  = true <->
  isUnlocked initialState "egyptian" = true \/
  exists era req,
    eras_get "egyptian" (eras initialState) = Some era /\
    unlockRequirement era = Some req /\
    requirementMet (store initialState) "prehistoric-moss" req.
Proof.
  apply (checkEraUnlocks_unlocks_what_is_met "prehistoric-moss" "egyptian" 1
           initialState).
  reflexivity.
Defined.

(** *** Eras behind a harvest count *)



Section BehindHarvestCount.
Variables (eraId : string) (era : Era) (plantType : string) (count : Q).
Variable stats : gmap string Q.
Hypothesis Hlocked : unlocked era = false.
Hypothesis Hreq : unlockRequirement era = Some (ReqHarvest plantType count).
Hypothesis Hcount : Qgeb (default 0%Q (stats !! plantType)) count = false.





End BehindHarvestCount.



End TimeTravelLaws.

(** * Laws of the event bus *)

Section EventBusLaws.
Import EventBus BusSpec.

(** *** Emission *)

Lemma reached_all (listeners : list Listener) :
  existsb raises listeners = false -> reached listeners = listeners.
Proof.
  induction listeners as [|l rest IH]; cbn; [reflexivity|].
  destruct (raises l); [discriminate|]. intros H. rewrite (IH H). reflexivity.
Qed.

Lemma emitLoop_calls (event : string) (args : nat) :
  forall copy handled b,
    calls (snd (emitLoop event args copy handled b))
      = calls b ++ List.concat (List.map (callsOf event args) (reached copy))
    /\
    fst (emitLoop event args copy handled b)
      = if existsb raises copy then Raised
        else Returned
               (handled
                || existsb (fun l => negb (cb_throws (l_callback l))) copy).
Proof.
  induction copy as [|l copy IH]; intros handled b;
    cbn [emitLoop reached existsb].
  - cbn. rewrite app_nil_r, orb_false_r. auto.
  - set (b1 := if l_once l then snd (removeListener event (l_id l) b) else b).
    assert (Hb1 : calls b1 = calls b).
    { subst b1. destruct (l_once l); [apply removeListener_calls|reflexivity]. }
    cbn [List.map List.concat]. unfold callsOf at 1.
    destruct (cb_throws (l_callback l)) eqn:Hcb; cbn [negb orb andb].
    + destruct (l_onError l) as [handler|] eqn:Hh.
      * destruct (h_throws handler) eqn:Ht.
        -- assert (Hr : raises l = true)
             by (unfold raises; rewrite Hcb, Hh, Ht; reflexivity).
           rewrite Hr. cbn [orb fst snd calls record List.map List.concat].
           rewrite Hb1, app_nil_r, <- app_assoc. auto.
        -- assert (Hr : raises l = false)
             by (unfold raises; rewrite Hcb, Hh, Ht; reflexivity).
           rewrite Hr. cbn [orb].
           destruct (IH handled
                       (record
                          (record b1
                             (Invoked (l_id l) (cb_id (l_callback l)) event
                                args))
                          (ErrorHandled (l_id l) (h_id handler))))
             as [-> ->].
           cbn [calls record]. rewrite Hb1, <- !app_assoc. auto.
      * assert (Hr : raises l = false)
          by (unfold raises; rewrite Hcb, Hh; reflexivity).
        rewrite Hr. cbn [orb].
        destruct (IH handled
                    (record b1
                       (Invoked (l_id l) (cb_id (l_callback l)) event args)))
          as [-> ->].
        cbn [calls record]. rewrite Hb1, <- !app_assoc. auto.
    + assert (Hr : raises l = false)
        by (unfold raises; rewrite Hcb; reflexivity).
      rewrite Hr. cbn [orb].
      destruct (IH true (record b1 (Invoked (l_id l) (cb_id (l_callback l))
                                      event args))) as [-> ->].
      cbn [calls record]. rewrite Hb1, <- app_assoc, orb_true_r. auto.
Qed.

(** X18: [emit] calls the listeners of the event in the order of the list,
    and the exception of a callback stops nothing: the trace grows by the
    invocation of each listener, followed by the call of its error handler
    when the callback throws and a handler is set.  Only an error handler
    that throws ends the emission: the listeners behind it are not
    reached, and its exception leaves [emit].  Otherwise every listener is
    reached and the result tells whether some callback returned without
    throwing. *)
Theorem emit_reaches_every_listener :
  forall (b : Bus) (event : string) (args : nat) (listeners : list Listener),
    events_get event (events b) = Some listeners ->
    calls (snd (emit event args b))
      = calls b
        ++ List.concat (List.map (callsOf event args) (reached listeners)) /\
    fst (emit event args b)
      = (if existsb raises listeners then Raised
         else Returned
                (existsb (fun l => negb (cb_throws (l_callback l)))
                   listeners)) /\
    (existsb raises listeners = false -> reached listeners = listeners).
Proof.
  intros b event args listeners Hget. unfold emit. rewrite Hget.
  split; [|split; [|apply reached_all]].
  - destruct listeners as [|l rest]; [cbn; rewrite app_nil_r; reflexivity|].
    apply emitLoop_calls.
  - destruct listeners as [|l rest]; [reflexivity|].
    apply emitLoop_calls.
Qed.

Lemma emit_reaches_every_listener_witness :
  let boom := {| cb_id := 1; cb_throws := true |} in
  let fine := {| cb_id := 2; cb_throws := false |} in
  let caught :=
    {| o_context := None; o_once := false; o_priority := 0;
       o_onError := Some {| h_id := 7; h_throws := false |} |} in
  let failing :=
    {| o_context := None; o_once := false; o_priority := 0;
       o_onError := Some {| h_id := 8; h_throws := true |} |} in
  let b1 := snd (on "plant:ready" boom caught emptyBus) in
  let b2 := snd (on "plant:ready" boom failing b1) in
  let b3 := snd (on "plant:ready" fine noOptions b2) in
  let listeners :=
    [ {| l_id := 1; l_callback := boom; l_context := None; l_once := false;
         l_priority := 0;
         l_onError := Some {| h_id := 7; h_throws := false |} |};
      {| l_id := 2; l_callback := boom; l_context := None; l_once := false;
         l_priority := 0;
         l_onError := Some {| h_id := 8; h_throws := true |} |};
      {| l_id := 3; l_callback := fine; l_context := None; l_once := false;
         l_priority := 0; l_onError := None |} ] in
  calls (snd (emit "plant:ready" 0 b3))
    = calls b3
      ++ List.concat
           (List.map (callsOf "plant:ready" 0) (reached listeners)) /\
  fst (emit "plant:ready" 0 b3)
    = (if existsb raises listeners then Raised
       else Returned
              (existsb (fun l => negb (cb_throws (l_callback l)))
                 listeners)) /\
  (existsb raises listeners = false -> reached listeners = listeners).
Proof.
  apply (emit_reaches_every_listener
           (snd (on "plant:ready" {| cb_id := 2; cb_throws := false |}
                   noOptions
                   (snd (on "plant:ready" {| cb_id := 1; cb_throws := true |}
                           {| o_context := None; o_once := false;
                              o_priority := 0;
                              o_onError :=
                                Some {| h_id := 8; h_throws := true |} |}
                           (snd (on "plant:ready"
                                   {| cb_id := 1; cb_throws := true |}
                                   {| o_context := None; o_once := false;
                                      o_priority := 0;
                                      o_onError :=
                                        Some {| h_id := 7;
                                                h_throws := false |} |}
                                   emptyBus))))))
           "plant:ready" 0
           [ {| l_id := 1; l_callback := {| cb_id := 1; cb_throws := true |};
                l_context := None; l_once := false; l_priority := 0;
                l_onError := Some {| h_id := 7; h_throws := false |} |};
             {| l_id := 2; l_callback := {| cb_id := 1; cb_throws := true |};
                l_context := None; l_once := false; l_priority := 0;
                l_onError := Some {| h_id := 8; h_throws := true |} |};
             {| l_id := 3; l_callback := {| cb_id := 2; cb_throws := false |};
                l_context := None; l_once := false; l_priority := 0;
                l_onError := None |} ]).
  reflexivity.
Defined.

(** *** Order of the listeners *)

Lemma insertByPriority_front (x : Listener) (l : list Listener) :
  Forall (fun y => l_priority y <= l_priority x) l ->
  insertByPriority x l = x :: l.
Proof.
  destruct l as [|y rest]; [reflexivity|]. intros H.
  apply Forall_cons in H. destruct H as [Hy _]. cbn.
  destruct (l_priority x <? l_priority y) eqn:Hlt; [|reflexivity].
  apply Z.ltb_lt in Hlt. lia.
Qed.

Lemma insertByPriority_sorted (x : Listener) :
  forall l, sortedDesc l -> sortedDesc (insertByPriority x l).
Proof.
  induction l as [|y rest IH]; intros Hs; cbn; [split; [constructor | exact I]|].
  destruct Hs as [Hy Hrest].
  destruct (l_priority x <? l_priority y) eqn:Hlt.
  - apply Z.ltb_lt in Hlt. cbn. split; [|exact (IH Hrest)].
    apply insertByPriority_Forall; [lia | exact Hy].
  - apply Z.ltb_ge in Hlt. cbn. split; [|split; assumption].
    constructor; [exact Hlt|].
    eapply Forall_impl; [exact Hy|]. cbn. intros z Hz. lia.
Qed.

Lemma sortByPriority_sorted (l : list Listener) : sortedDesc (sortByPriority l).
Proof.
  unfold sortByPriority. induction l as [|x rest IH]; cbn; [exact I|].
  apply insertByPriority_sorted, IH.
Qed.

Lemma filter_none (f : Listener -> bool) (l : list Listener) :
  Forall (fun y => f y = false) l -> List.filter f l = [].
Proof.
  induction 1 as [|y l Hy _ IH]; cbn; [reflexivity|].
  rewrite Hy. exact IH.
Qed.

Lemma filter_all (f : Listener -> bool) (l : list Listener) :
  Forall (fun y => f y = true) l -> List.filter f l = l.
Proof.
  induction 1 as [|y l Hy _ IH]; cbn; [reflexivity|].
  rewrite Hy, IH. reflexivity.
Qed.

Lemma sortByPriority_snoc (x : Listener) (l : list Listener) :
  sortedDesc l ->
  sortByPriority (l ++ [x])
  = List.filter (fun y => l_priority x <=? l_priority y) l
    ++ x :: List.filter (fun y => l_priority y <? l_priority x) l.
Proof.
  unfold sortByPriority. rewrite fold_right_app. cbn [fold_right].
  change (insertByPriority x []) with [x].
  induction l as [|y rest IH]; intros Hs; [reflexivity|].
  destruct Hs as [Hy Hrest]. cbn [fold_right]. rewrite (IH Hrest).
  cbn [List.filter].
  destruct (l_priority x <=? l_priority y) eqn:Hle.
  - apply Z.leb_le in Hle.
    assert (Hlt : (l_priority y <? l_priority x) = false)
      by (apply Z.ltb_ge; exact Hle).
    rewrite Hlt. cbn [app]. apply insertByPriority_front.
    apply Forall_app. split.
    + apply Forall_forall. intros z Hz. apply list_elem_of_In in Hz.
      apply filter_In in Hz. destruct Hz as [Hz _].
      rewrite Forall_forall in Hy. apply Hy, list_elem_of_In, Hz.
    + constructor; [exact Hle|].
      apply Forall_forall. intros z Hz. apply list_elem_of_In in Hz.
      apply filter_In in Hz. destruct Hz as [Hz _].
      rewrite Forall_forall in Hy. apply Hy, list_elem_of_In, Hz.
  - apply Z.leb_gt in Hle.
    assert (Hlt : (l_priority y <? l_priority x) = true)
      by (apply Z.ltb_lt; exact Hle).
    rewrite Hlt.
    rewrite filter_none, filter_all.
    + cbn [app insertByPriority].
      assert (Hxy : (l_priority y <? l_priority x) = true) by exact Hlt.
      rewrite Hxy. f_equal. apply insertByPriority_front. exact Hy.
    + eapply Forall_impl; [exact Hy|]. cbn. intros z Hz.
      apply Z.ltb_lt. lia.
    + eapply Forall_impl; [exact Hy|]. cbn. intros z Hz.
      apply Z.leb_gt. lia.
Qed.

Lemma on_events :
  forall (b : Bus) (event : string) (callback : Callback) (options : Options),
    let listeners := default [] (events_get event (events b)) in
    sortedDesc listeners ->
    let r := on event callback options b in
    fst r = S (listenerIdCounter b) /\
    events_get event (events (snd r))
    = Some
        (List.filter (fun l => o_priority options <=? l_priority l) listeners
         ++ newListener callback options b
            :: List.filter (fun l => l_priority l <? o_priority options)
                 listeners) /\
    forall other,
      other <> event ->
      events_get other (events (snd r)) = events_get other (events b).
Proof.
  intros b event callback options listeners Hsorted. cbv zeta.
  unfold on. cbn [fst snd events]. split; [reflexivity|]. split.
  - rewrite events_get_set_same. f_equal.
    apply (sortByPriority_snoc (newListener callback options b)).
    exact Hsorted.
  - intros other Hne. apply events_get_set_other. exact Hne.
Qed.

(** X19: When the listeners of an event are in order of priority, [on] puts
    the new listener behind those of the same or a higher priority and
    before those of a lower one; the others keep their order, the id is
    the next value of the counter, and the lists of the other events are
    untouched. *)
Theorem on_places_by_priority :
  forall (b : Bus) (event : string) (callback : Callback) (options : Options),
    let listeners := default [] (events_get event (events b)) in
    sortedDesc listeners ->
    let r := on event callback options b in
    fst r = S (listenerIdCounter b) /\
    events_get event (events (snd r))
    = Some
        (List.filter (fun l => o_priority options <=? l_priority l) listeners
         ++ newListener callback options b
            :: List.filter (fun l => l_priority l <? o_priority options)
                 listeners) /\
    forall other,
      other <> event ->
      events_get other (events (snd r)) = events_get other (events b).
Proof. exact on_events. Qed.

Lemma on_places_by_priority_witness :
  let low := {| cb_id := 1; cb_throws := false |} in
  let high := {| cb_id := 2; cb_throws := false |} in
  let mid := {| cb_id := 3; cb_throws := false |} in
  let withPriority p :=
    {| o_context := None; o_once := false; o_priority := p;
       o_onError := None |} in
  let b1 := snd (on "tick" low (withPriority 0) emptyBus) in
  let b2 := snd (on "tick" high (withPriority 9) b1) in
  let r := on "tick" mid (withPriority 9) b2 in
  fst r = 3%nat /\
  option_map (List.map l_id) (events_get "tick" (events (snd r)))
  = Some [2; 3; 1]%nat.
Proof.
  cbv zeta.
  destruct (on_places_by_priority
              (snd (on "tick" {| cb_id := 2; cb_throws := false |}
                      {| o_context := None; o_once := false; o_priority := 9;
                         o_onError := None |}
                      (snd (on "tick" {| cb_id := 1; cb_throws := false |}
                              {| o_context := None; o_once := false;
                                 o_priority := 0; o_onError := None |}
                              emptyBus))))
              "tick" {| cb_id := 3; cb_throws := false |}
              {| o_context := None; o_once := false; o_priority := 9;
                 o_onError := None |}) as (Hid & Hget & _).
  - cbn. split; [repeat constructor; cbn; lia | split; [constructor | exact I]].
  - split; [exact Hid|]. rewrite Hget. reflexivity.
Defined.

(** *** The maps of the bus *)

Lemma events_get_In (event : string) (v : list Listener) :
  forall m, events_get event m = Some v -> In (event, v) m.
Proof.
  induction m as [|[k v'] m IH]; cbn; [discriminate|].
  destruct (String.eqb k event) eqn:Hk.
  - apply String.eqb_eq in Hk. subst k. intros [= ->]. left. reflexivity.
  - intros H. right. exact (IH H).
Qed.

Lemma events_get_None (event : string) :
  forall m, events_get event m = None <-> ~ In event (List.map fst m).
Proof.
  induction m as [|[k v'] m IH]; cbn; [tauto|].
  destruct (String.eqb k event) eqn:Hk.
  - apply String.eqb_eq in Hk. split; [discriminate | tauto].
  - apply String.eqb_neq in Hk. rewrite IH. tauto.
Qed.

Lemma events_set_keys (event : string) (v : list Listener) :
  forall m,
    List.map fst (events_set event v m)
    = match events_get event m with
      | Some _ => List.map fst m
      | None => List.map fst m ++ [event]
      end.
Proof.
  induction m as [|[k v'] m IH]; cbn; [reflexivity|].
  destruct (String.eqb k event) eqn:Hk; cbn; [reflexivity|].
  rewrite IH. destruct (events_get event m); reflexivity.
Qed.

Lemma events_set_NoDup (event : string) (v : list Listener) (m : list _) :
  NoDup (List.map fst m) -> NoDup (List.map fst (events_set event v m)).
Proof.
  intros Hnd. rewrite events_set_keys.
  destruct (events_get event m) eqn:Hget; [exact Hnd|].
  apply events_get_None in Hget.
  apply NoDup_app. split; [exact Hnd|]. split; [|apply NoDup_singleton].
  intros x Hx Hx'. apply list_elem_of_In in Hx, Hx'.
  destruct Hx' as [<-|[]]. exact (Hget Hx).
Qed.

Lemma events_set_Forall (P : string * list Listener -> Prop)
    (event : string) (v : list Listener) :
  forall m, P (event, v) -> Forall P m -> Forall P (events_set event v m).
Proof.
  induction m as [|[k v'] m IH]; cbn; intros Hv Hm.
  - constructor; [exact Hv | constructor].
  - apply Forall_cons in Hm. destruct Hm as [Hk Hm].
    destruct (String.eqb k event) eqn:Heq.
    + apply String.eqb_eq in Heq. subst k. constructor; assumption.
    + constructor; [exact Hk | exact (IH Hv Hm)].
Qed.

Lemma events_delete_In (event : string) (kv : string * list Listener) :
  forall m, In kv (events_delete event m) -> In kv m.
Proof.
  induction m as [|[k v'] m IH]; cbn; [tauto|].
  destruct (String.eqb k event); [auto|].
  intros [<- | H]; [left; reflexivity | right; exact (IH H)].
Qed.

Lemma events_delete_Forall (P : string * list Listener -> Prop)
    (event : string) (m : list _) :
  Forall P m -> Forall P (events_delete event m).
Proof.
  rewrite !Forall_forall. intros H kv Hin. apply H.
  apply list_elem_of_In. apply list_elem_of_In in Hin.
  exact (events_delete_In event kv m Hin).
Qed.

Lemma events_delete_keys_In (event k : string) :
  forall m,
    NoDup (List.map fst m) ->
    (In k (List.map fst (events_delete event m))
     <-> k <> event /\ In k (List.map fst m)).
Proof.
  induction m as [|[k0 v] m IH]; cbn; intros Hnd; [tauto|].
  apply NoDup_cons in Hnd. destruct Hnd as [Hk0 Hnd].
  rewrite list_elem_of_In in Hk0.
  destruct (String.eqb k0 event) eqn:Heq.
  - apply String.eqb_eq in Heq. subst k0. split.
    + intros Hin. split; [intros ->; exact (Hk0 Hin) | auto].
    + intros [Hne [Hk | Hin]]; [congruence | exact Hin].
  - apply String.eqb_neq in Heq. cbn. rewrite (IH Hnd). split.
    + intros [<- | [Hne Hin]]; auto.
    + intros [Hne [Hk | Hin]]; auto.
Qed.

Lemma events_delete_NoDup (event : string) :
  forall m,
    NoDup (List.map fst m) -> NoDup (List.map fst (events_delete event m)).
Proof.
  induction m as [|[k0 v] m IH]; cbn; intros Hnd; [constructor|].
  pose proof Hnd as Hnd'. apply NoDup_cons in Hnd'.
  destruct Hnd' as [Hk0 Hm].
  destruct (String.eqb k0 event); [exact Hm|].
  cbn. apply NoDup_cons. split; [|exact (IH Hm)].
  rewrite list_elem_of_In in *. intros Hin.
  apply (events_delete_keys_In event k0 m Hm) in Hin. tauto.
Qed.

Lemma events_get_delete_same (event : string) (m : list _) :
  NoDup (List.map fst m) -> events_get event (events_delete event m) = None.
Proof.
  intros Hnd. apply events_get_None.
  rewrite (events_delete_keys_In event event m Hnd). tauto.
Qed.

Lemma events_get_delete_other (event other : string) :
  other <> event ->
  forall m, events_get other (events_delete event m) = events_get other m.
Proof.
  intros Hne. induction m as [|[k v] m IH]; cbn; [reflexivity|].
  destruct (String.eqb k event) eqn:Hk.
  - apply String.eqb_eq in Hk. subst k.
    destruct (String.eqb event other) eqn:Ho; [|reflexivity].
    apply String.eqb_eq in Ho. congruence.
  - cbn. destruct (String.eqb k other); [reflexivity | exact IH].
Qed.

Lemma events_delete_set_fresh (event : string) (v : list Listener) :
  forall m,
    events_get event m = None -> events_delete event (events_set event v m) = m.
Proof.
  induction m as [|[k v'] m IH]; cbn; intros Hget.
  - rewrite String.eqb_refl. reflexivity.
  - destruct (String.eqb k event) eqn:Hk; [discriminate Hget|].
    cbn. rewrite Hk, (IH Hget). reflexivity.
Qed.

Lemma events_set_set_back (event : string) (v v' : list Listener) :
  forall m,
    events_get event m = Some v ->
    events_set event v (events_set event v' m) = m.
Proof.
  induction m as [|[k v0] m IH]; cbn; intros Hget; [discriminate|].
  destruct (String.eqb k event) eqn:Hk.
  - injection Hget as ->. cbn. rewrite Hk. reflexivity.
  - cbn. rewrite Hk, (IH Hget). reflexivity.
Qed.

Lemma listenerMap_get_fresh (c : nat) (event : string) :
  forall lm,
    Forall (fun kv => (fst kv <= c)%nat) lm ->
    listenerMap_get (S c) (lm ++ [(S c, event)]) = Some event /\
    listenerMap_delete (S c) (lm ++ [(S c, event)]) = lm.
Proof.
  induction lm as [|[k v] lm IH]; cbn; intros Hlm.
  - rewrite Nat.eqb_refl. auto.
  - apply Forall_cons in Hlm. destruct Hlm as [Hk Hlm]. cbn in Hk.
    assert (Hne : Nat.eqb k (S c) = false) by (apply Nat.eqb_neq; lia).
    rewrite Hne. destruct (IH Hlm) as [-> ->]. auto.
Qed.

Lemma listenerMap_delete_Forall (P : nat * string -> Prop) (id : nat) :
  forall lm, Forall P lm -> Forall P (listenerMap_delete id lm).
Proof.
  induction lm as [|[k v] lm IH]; cbn; intros Hlm; [constructor|].
  apply Forall_cons in Hlm. destruct Hlm as [Hk Hlm].
  destruct (Nat.eqb k id); [exact Hlm|]. constructor; auto.
Qed.

(** *** Removing a listener *)

Lemma removeFirst_Forall (P : Listener -> Prop) (id : nat) :
  forall l, Forall P l -> Forall P (removeFirst id l).
Proof.
  induction l as [|y l IH]; cbn; intros Hl; [constructor|].
  apply Forall_cons in Hl. destruct Hl as [Hy Hl].
  destruct (Nat.eqb (l_id y) id); [exact Hl|]. constructor; auto.
Qed.

Lemma removeFirst_sorted (id : nat) :
  forall l, sortedDesc l -> sortedDesc (removeFirst id l).
Proof.
  induction l as [|y l IH]; cbn; intros Hl; [exact I|].
  destruct Hl as [Hy Hl].
  destruct (Nat.eqb (l_id y) id); [exact Hl|]. cbn.
  split; [apply removeFirst_Forall; exact Hy | exact (IH Hl)].
Qed.

Lemma removeFirst_middle (x : Listener) (front back : list Listener) :
  Forall (fun y => l_id y <> l_id x) front ->
  removeFirst (l_id x) (front ++ x :: back) = front ++ back.
Proof.
  induction 1 as [|y front Hy _ IH]; cbn.
  - rewrite Nat.eqb_refl. reflexivity.
  - apply Nat.eqb_neq in Hy. rewrite Hy, IH. reflexivity.
Qed.

Lemma filter_split_sorted (p : Z) (l : list Listener) :
  sortedDesc l ->
  List.filter (fun y => p <=? l_priority y) l
  ++ List.filter (fun y => l_priority y <? p) l = l.
Proof.
  induction l as [|y l IH]; cbn; intros Hl; [reflexivity|].
  destruct Hl as [Hy Hl].
  destruct (p <=? l_priority y) eqn:Hle.
  - apply Z.leb_le in Hle.
    assert (Hlt : (l_priority y <? p) = false) by (apply Z.ltb_ge; exact Hle).
    rewrite Hlt. cbn. rewrite (IH Hl). reflexivity.
  - apply Z.leb_gt in Hle.
    assert (Hlt : (l_priority y <? p) = true) by (apply Z.ltb_lt; exact Hle).
    rewrite Hlt, filter_none, filter_all; [reflexivity | |].
    + eapply Forall_impl; [exact Hy|]. cbn. intros z Hz. apply Z.ltb_lt. lia.
    + eapply Forall_impl; [exact Hy|]. cbn. intros z Hz. apply Z.leb_gt. lia.
Qed.

Lemma wfBus_listeners (b : Bus) (event : string) :
  wfBus b ->
  let listeners := default [] (events_get event (events b)) in
  sortedDesc listeners /\
  Forall (fun x => (l_id x <= listenerIdCounter b)%nat) listeners /\
  events_get event (events b) <> Some [].
Proof.
  intros (_ & Hev & _). cbv zeta.
  destruct (events_get event (events b)) as [listeners|] eqn:Hget; cbn.
  - apply events_get_In in Hget. rewrite Forall_forall in Hev.
    destruct (Hev _ (proj2 (list_elem_of_In _ _) Hget)) as (Hne & Hs & Hids).
    cbn in *. repeat split; try assumption. intros [= ->]. exact (Hne eq_refl).
  - repeat split; [constructor | discriminate].
Qed.

(** X20: On a bus whose lists are in order, with ids that the counter has
    passed, [off] with the id that [on] returned undoes the [on]: it
    returns [true], and the events, the map of ids and the trace are what
    they were; only the counter has moved. *)
Theorem off_undoes_on :
  forall (b : Bus) (event : string) (callback : Callback) (options : Options),
    wfBus b ->
    let r := on event callback options b in
    off event (fst r) (snd r)
    = (true,
       {| events := events b;
          listenerIdCounter := S (listenerIdCounter b);
          listenerMap := listenerMap b;
          calls := calls b |}).
Proof.
  intros b event callback options Hwf. cbv zeta.
  destruct (wfBus_listeners b event Hwf) as (Hsorted & Hids & Hnonempty).
  destruct Hwf as (_ & _ & Hlm).
  destruct (on_events b event callback options Hsorted)
    as (Hid & Hget & _).
  unfold off, removeListener. rewrite Hget, Hid.
  unfold on at 1. cbn [snd listenerMap].
  destruct (listenerMap_get_fresh (listenerIdCounter b) event _ Hlm)
    as [Hmget Hmdel].
  rewrite Hmget, String.eqb_refl. cbn [negb].
  set (x := newListener callback options b).
  set (listeners := default [] (events_get event (events b))) in *.
  assert (Hrm : removeFirst (S (listenerIdCounter b))
                  (List.filter (fun l => o_priority options <=? l_priority l)
                     listeners
                   ++ x :: List.filter
                             (fun l => l_priority l <? o_priority options)
                             listeners) = listeners).
  { change (S (listenerIdCounter b)) with (l_id x).
    rewrite removeFirst_middle.
    - apply (filter_split_sorted (o_priority options)). exact Hsorted.
    - apply Forall_forall. intros y Hy. apply list_elem_of_In in Hy.
      apply filter_In in Hy. destruct Hy as [Hy _].
      rewrite Forall_forall in Hids.
      specialize (Hids y (proj2 (list_elem_of_In _ _) Hy)). cbn. lia. }
  assert (Hex : existsb (fun l => Nat.eqb (l_id l) (S (listenerIdCounter b)))
                  (List.filter (fun l => o_priority options <=? l_priority l)
                     listeners
                   ++ x :: List.filter
                             (fun l => l_priority l <? o_priority options)
                             listeners) = true).
  { apply existsb_exists. exists x. split;
      [apply in_app_iff; right; left; reflexivity | apply Nat.eqb_refl]. }
  rewrite Hex, Hrm. cbn [negb]. f_equal.
  unfold on. cbn [snd events listenerIdCounter listenerMap calls].
  rewrite Hmdel. f_equal.
  subst listeners.
  destruct (events_get event (events b)) as [listeners|] eqn:Hold;
    cbn [default from_option id].
  - destruct listeners as [|y rest]; [exfalso; exact (Hnonempty eq_refl)|].
    apply events_set_set_back. exact Hold.
  - apply events_delete_set_fresh. exact Hold.
Qed.

Lemma wfBus_empty : wfBus emptyBus.
Proof. repeat split; constructor. Qed.

Lemma off_undoes_on_witness :
  let cb := {| cb_id := 7; cb_throws := false |} in
  let r := on "plant:ready" cb noOptions emptyBus in
  off "plant:ready" (fst r) (snd r)
  = (true,
     {| events := []; listenerIdCounter := 1; listenerMap := [];
        calls := [] |}).
Proof.
  apply (off_undoes_on emptyBus "plant:ready"
           {| cb_id := 7; cb_throws := false |} noOptions).
  exact wfBus_empty.
Defined.

(** *** The invariant of the bus *)

Lemma wfListeners_mono (c c' : nat) (l : list Listener) :
  (c <= c')%nat -> wfListeners c l -> wfListeners c' l.
Proof.
  intros Hc (Hne & Hs & Hids). repeat split; try assumption.
  eapply Forall_impl; [exact Hids|]. cbn. intros x Hx. lia.
Qed.

Lemma on_wfBus event callback options b :
  wfBus b -> wfBus (snd (on event callback options b)).
Proof.
  intros Hwf.
  destruct (wfBus_listeners b event Hwf) as (Hsorted & Hids & _).
  destruct Hwf as (Hnd & Hev & Hlm).
  unfold on. cbn [snd]. repeat split; cbn [events listenerIdCounter listenerMap].
  - apply events_set_NoDup, Hnd.
  - apply events_set_Forall.
    + cbn [snd]. repeat split.
      * intros Hnil.
        pose proof (sortByPriority_In
                      (newListener callback options b)
                      (default [] (events_get event (events b))
                       ++ [newListener callback options b])) as Hin.
        unfold newListener in Hin. rewrite Hnil in Hin. apply Hin.
        apply in_app_iff. right. left. reflexivity.
      * apply sortByPriority_sorted.
      * apply sortByPriority_Forall. apply Forall_app. split.
        -- eapply Forall_impl; [exact Hids|]. cbn. intros x Hx. lia.
        -- constructor; [cbn; lia | constructor].
    + eapply Forall_impl; [exact Hev|]. intros kv.
      apply wfListeners_mono. lia.
  - apply Forall_app. split.
    + eapply Forall_impl; [exact Hlm|]. cbn. intros kv Hkv. lia.
    + constructor; [cbn; lia | constructor].
Qed.

Lemma removeListener_wfBus event id b :
  wfBus b -> wfBus (snd (removeListener event id b)).
Proof.
  intros Hwf. unfold removeListener.
  destruct (events_get event (events b)) as [listeners|] eqn:Hget;
    [|exact Hwf].
  destruct (listenerMap_get id (listenerMap b)); [|exact Hwf].
  destruct (negb _); [exact Hwf|].
  destruct (negb _); [exact Hwf|].
  destruct Hwf as (Hnd & Hev & Hlm). cbn [snd].
  assert (Hl : wfListeners (listenerIdCounter b) listeners).
  { apply events_get_In in Hget. rewrite Forall_forall in Hev.
    exact (Hev _ (proj2 (list_elem_of_In _ _) Hget)). }
  destruct Hl as (_ & Hs & Hids).
  repeat split; cbn [events listenerIdCounter listenerMap].
  - destruct (removeFirst id listeners);
      [apply events_delete_NoDup | apply events_set_NoDup]; exact Hnd.
  - destruct (removeFirst id listeners) as [|y rest] eqn:Hrm.
    + apply events_delete_Forall, Hev.
    + apply events_set_Forall; [|exact Hev]. cbn [snd]. rewrite <- Hrm.
      repeat split.
      * rewrite Hrm. discriminate.
      * apply removeFirst_sorted, Hs.
      * apply removeFirst_Forall, Hids.
  - apply listenerMap_delete_Forall, Hlm.
Qed.

Lemma emitLoop_wfBus event args :
  forall copy handled b,
    wfBus b -> wfBus (snd (emitLoop event args copy handled b)).
Proof.
  induction copy as [|l copy IH]; intros handled b Hwf; [exact Hwf|].
  cbn [emitLoop].
  assert (H1 : wfBus (if l_once l
                      then snd (removeListener event (l_id l) b) else b)).
  { destruct (l_once l); [apply removeListener_wfBus|]; exact Hwf. }
  destruct (cb_throws (l_callback l)).
  - destruct (l_onError l) as [handler|]; [|apply IH; exact H1].
    destruct (h_throws handler); [exact H1 | apply IH; exact H1].
  - apply IH. exact H1.
Qed.

Lemma run_wfBus (o : Op) (b : Bus) : wfBus b -> wfBus (run o b).
Proof.
  intros Hwf. destruct o as [event cb opts | event cb opts | event id
                            | event args | event |]; cbn [run].
  - apply on_wfBus, Hwf.
  - apply on_wfBus, Hwf.
  - apply removeListener_wfBus, Hwf.
  - unfold emit.
    destruct (events_get event (events b)) as [[|l rest]|];
      [exact Hwf | apply emitLoop_wfBus; exact Hwf | exact Hwf].
  - unfold removeAllListeners.
    destruct (events_get event (events b)) as [listeners|]; [|exact Hwf].
    destruct Hwf as (Hnd & Hev & Hlm). cbn [snd].
    repeat split; cbn [events listenerIdCounter listenerMap].
    + apply events_delete_NoDup, Hnd.
    + apply events_delete_Forall, Hev.
    + generalize (listenerMap b) Hlm. clear.
      induction listeners as [|l listeners IH]; intros lm Hlm; [exact Hlm|].
      cbn [List.fold_left]. apply IH, listenerMap_delete_Forall, Hlm.
  - repeat split; constructor.
Qed.

(** X21: Every operation of the bus keeps its invariant: each event is stored
    once, with a list of listeners that is not empty and in order of
    priority, highest first, and no listener id, in the lists or in the
    map of ids, is beyond the counter. *)
Theorem bus_stays_well_formed :
  forall (ops : list Op) (b : Bus), wfBus b -> wfBus (runAll ops b).
Proof.
  unfold runAll. induction ops as [|o ops IH]; intros b Hwf; [exact Hwf|].
  cbn [List.fold_left]. apply IH, run_wfBus, Hwf.
Qed.

Lemma bus_stays_well_formed_witness :
  let cb := {| cb_id := 7; cb_throws := false |} in
  let high :=
    {| o_context := None; o_once := false; o_priority := 5;
       o_onError := None |} in
  wfBus
    (runAll
       [OpOn "tick" cb noOptions; OpOnce "tick" cb high; OpEmit "tick" 0;
        OpOff "tick" 1; OpRemoveAllListeners "tick"]
       emptyBus).
Proof.
  apply bus_stays_well_formed. exact wfBus_empty.
Defined.

(** *** Dropping an event *)

(** X22: [removeAllListeners] answers whether the event had an entry.  When it
    had one on a well-formed bus, the event has no listener afterwards, an
    emission of it reaches nobody and returns [false], and the other
    events and the trace are as before. *)
Theorem removeAllListeners_drops_the_event :
  forall (b : Bus) (event : string) (args : nat),
    wfBus b ->
    let r := removeAllListeners event b in
    fst r = match events_get event (events b) with
            | Some _ => true
            | None => false
            end /\
    listenerCount event (snd r) = 0%nat /\
    hasListeners event (snd r) = false /\
    emit event args (snd r) = (Returned false, snd r) /\
    calls (snd r) = calls b /\
    forall other,
      other <> event ->
      events_get other (events (snd r)) = events_get other (events b).
Proof.
  intros b event args (Hnd & _ & _). cbv zeta.
  unfold removeAllListeners, hasListeners, listenerCount, emit.
  destruct (events_get event (events b)) as [listeners|] eqn:Hget;
    cbn [fst snd events calls].
  - rewrite (events_get_delete_same event _ Hnd).
    repeat split. intros other Hne. apply events_get_delete_other. exact Hne.
  - rewrite Hget. repeat split.
Qed.

Lemma removeAllListeners_drops_the_event_witness :
  let cb := {| cb_id := 7; cb_throws := false |} in
  let b := snd (on "tick" cb noOptions emptyBus) in
  let r := removeAllListeners "tick" b in
  fst r = true /\
  listenerCount "tick" (snd r) = 0%nat /\
  hasListeners "tick" (snd r) = false /\
  emit "tick" 1 (snd r) = (Returned false, snd r) /\
  calls (snd r) = calls b /\
  forall other,
    other <> "tick"%string ->
    events_get other (events (snd r)) = events_get other (events b).
Proof.
  apply (removeAllListeners_drops_the_event
           (snd (on "tick" {| cb_id := 7; cb_throws := false |} noOptions
                   emptyBus)) "tick" 1).
  apply on_wfBus. exact wfBus_empty.
Defined.

End EventBusLaws.

(** * Laws of the store *)

Section StateManagerLaws.
Import StateManager StoreSpec.

(** *** Notifications leave state and history alone *)

Lemma told_refl P st : told P st st.
Proof.
  repeat split. exists []. rewrite app_nil_r. split; [reflexivity|constructor].
Qed.

Lemma told_trans P st1 st2 st3 :
  told P st1 st2 -> told P st2 st3 -> told P st1 st3.
Proof.
  intros (Hs1 & Hh1 & Hl1 & Hi1 & new1 & Hn1 & HP1)
         (Hs2 & Hh2 & Hl2 & Hi2 & new2 & Hn2 & HP2).
  repeat split; try congruence.
  exists (new1 ++ new2). split.
  - rewrite Hn2, Hn1, app_assoc. reflexivity.
  - apply Forall_app. split; assumption.
Qed.

Lemma unsubscribe_told P id st : told P st (snd (unsubscribe id st)).
Proof.
  unfold unsubscribe. destruct (unsubscribeIn _ _); [|apply told_refl].
  repeat split. exists []. rewrite app_nil_r. split; [reflexivity|constructor].
Qed.

Lemma notifyLoop_told listeners newValue oldValue path :
  forall st,
    told (tells newValue oldValue path) st
      (fst (notifyLoop listeners newValue oldValue path st)).
Proof.
  induction listeners as [|x listeners IH]; intros st; cbn [notifyLoop];
    [apply told_refl|].
  destruct (match sub_filter x with Some f => _ | None => false end);
    [apply IH|].
  specialize (IH (notify st
                    {| n_subscription := sub_id x;
                       n_callback := sub_callback x;
                       n_newValue := newValue; n_oldValue := oldValue;
                       n_path := path |})).
  destruct (notifyLoop listeners newValue oldValue path _) as [st2 toRemove].
  assert (H : told (tells newValue oldValue path) st st2).
  { eapply told_trans; [|exact IH].
    repeat split. eexists [_]. split; [reflexivity|].
    constructor; [|constructor]. repeat split. }
  destruct (negb (sub_throws x) && sub_once x); exact H.
Qed.

Lemma notifyListeners_told listeners newValue oldValue path (st : Store) :
  told (tells newValue oldValue path) st
    (notifyListeners listeners newValue oldValue path st).
Proof.
  unfold notifyListeners.
  pose proof (notifyLoop_told listeners newValue oldValue path st) as H.
  destruct (notifyLoop listeners newValue oldValue path st) as [st1 ids].
  cbn [fst] in H. revert st1 H.
  induction ids as [|id ids IH]; intros st1 H; cbn [List.fold_left];
    [exact H|].
  apply IH. eapply told_trans; [exact H | apply unsubscribe_told].
Qed.

Lemma notifyWildcards_told listenerPaths path newValue oldValue :
  forall st st',
    notifyWildcards listenerPaths path newValue oldValue st = Done st' ->
    told (tells newValue oldValue path) st st'.
Proof.
  induction listenerPaths as [|p rest IH]; intros st st'; cbn [notifyWildcards].
  - intros [= <-]. apply told_refl.
  - destruct (listeners_get p (stateListeners st)) as [listeners|];
      [|apply IH].
    destruct (includesStar p); [|apply IH].
    destruct (pathMatches path p) as [[|]|]; [| apply IH | discriminate].
    intros H. eapply told_trans; [|exact (IH _ _ H)].
    apply notifyListeners_told.
Qed.

Lemma notifyChange_told path newValue oldValue (st st' : Store) :
  notifyChange path newValue oldValue st = Done st' ->
  told (tells newValue oldValue path) st st'.
Proof.
  unfold notifyChange. intros H.
  eapply told_trans; [|exact (notifyWildcards_told _ _ _ _ _ _ H)].
  destruct (listeners_get path (stateListeners st));
    [apply notifyListeners_told | apply told_refl].
Qed.


(** *** Reading back what was written *)

Lemma obj_get_set_same (key : string) (v : Value) :
  forall props, obj_get key (obj_set key v props) = Some v.
Proof.
  induction props as [|[k v'] props IH]; cbn.
  - rewrite String.eqb_refl. reflexivity.
  - destruct (String.eqb k key) eqn:Hk; cbn; rewrite Hk; [reflexivity|exact IH].
Qed.

Lemma nth_error_replaceAt_same (v : Value) :
  forall items i,
    (i < length items)%nat -> nth_error (replaceAt i v items) i = Some v.
Proof.
  induction items as [|x items IH]; intros i Hi; cbn in Hi; [lia|].
  destruct i as [|i]; cbn; [reflexivity|]. apply IH. lia.
Qed.

Lemma nth_error_replaceAt_other (v : Value) :
  forall items i j,
    i <> j -> nth_error (replaceAt i v items) j = nth_error items j.
Proof.
  induction items as [|x items IH]; intros i j Hne; [destruct i; reflexivity|].
  destruct i as [|i], j as [|j]; cbn; try reflexivity; [congruence|].
  apply IH. congruence.
Qed.

Lemma arr_set_index (key : string) (v : Value) (items items' : list Value) :
  arr_set key v items = Done items' ->
  String.eqb key "length" = false /\
  exists i,
    parseIndex key = Some i /\ (i <= length items)%nat /\
    nth_error items' i = Some v /\
    forall j, j <> i -> nth_error items' j = nth_error items j.
Proof.
  unfold arr_set.
  destruct (parseIndex key) as [i|] eqn:Hi;
    [|destruct (String.eqb key "length"); discriminate].
  intros Hset. split.
  { destruct (String.eqb key "length") eqn:Hk; [|reflexivity].
    apply String.eqb_eq in Hk. subst key. discriminate Hi. }
  exists i. split; [reflexivity|].
  destruct (i <? length items)%nat eqn:Hlt.
  - apply Nat.ltb_lt in Hlt. injection Hset as <-. split; [lia|].
    split; [apply nth_error_replaceAt_same; exact Hlt|].
    intros j Hj. apply nth_error_replaceAt_other. congruence.
  - apply Nat.ltb_ge in Hlt.
    destruct (i =? length items)%nat eqn:Heq; [|discriminate].
    apply Nat.eqb_eq in Heq. subst i. injection Hset as <-.
    split; [lia|]. split.
    + rewrite nth_error_app2 by lia. rewrite Nat.sub_diag. reflexivity.
    + intros j Hj. destruct (Nat.lt_ge_cases j (length items)) as [Hlt'|Hge].
      * apply nth_error_app1. exact Hlt'.
      * rewrite (proj2 (nth_error_None items j)) by lia.
        apply nth_error_None. rewrite length_app. cbn. lia.
Qed.

Lemma getProp_arr_set_same (key : string) (v : Value)
    (items items' : list Value) :
  arr_set key v items = Done items' -> getProp (VArr items') key = Some v.
Proof.
  intros H. apply arr_set_index in H.
  destruct H as (Hlen & i & Hi & _ & Hnth & _).
  cbn. rewrite Hlen, Hi. exact Hnth.
Qed.

Lemma getWalk_None (keys : list string) (d : option Value) :
  getWalk None keys d = d.
Proof. destruct keys; reflexivity. Qed.

Lemma getWalk_arr (items : list Value) (key : string) (rest : list string)
    (d : option Value) :
  getWalk (Some (VArr items)) (key :: rest) d
  = getWalk (getProp (VArr items) key) rest d.
Proof. reflexivity. Qed.

Lemma getWalk_obj (props : list (string * Value)) (key : string)
    (rest : list string) (d : option Value) :
  getWalk (Some (VObj props)) (key :: rest) d
  = getWalk (obj_get key props) rest d.
Proof. reflexivity. Qed.

Lemma getWalk_nil (current : option Value) :
  getWalk current [] None = current.
Proof. destruct current; reflexivity. Qed.

Lemma getWalk_empty_object (keys : list string) (d : option Value) :
  keys <> [] -> getWalk (Some (VObj [])) keys d = d.
Proof.
  destruct keys as [|k rest]; [congruence|]. intros _. cbn.
  apply getWalk_None.
Qed.

Lemma setWalk_get (lastKey : string) (value : Value) (d : option Value) :
  forall keys current current' old,
    setWalk current keys lastKey value = Done (current', old) ->
    getWalk (Some current') (keys ++ [lastKey]) d = Some value.
Proof.
  induction keys as [|key rest IH]; intros current current' old;
    cbn [setWalk app].
  - destruct current as [| | | |items|props]; try discriminate.
    + destruct (arr_set lastKey value items) as [items'| |] eqn:Hset;
        try discriminate.
      intros [= <- _]. cbn [getWalk].
      rewrite (getProp_arr_set_same _ _ _ _ Hset). reflexivity.
    + destruct (obj_get lastKey props) as [o|];
        [|destruct (inherited lastKey); [discriminate|]];
        intros [= <- _]; cbn; rewrite obj_get_set_same; reflexivity.
  - destruct current as [| | | |items|props]; try discriminate.
    + (* array *)
      assert (Hdone : forall child child' old' items',
        setWalk child rest lastKey value = Done (child', old') ->
        arr_set key child' items = Done items' ->
        getWalk (Some (VArr items')) (key :: rest ++ [lastKey]) d
        = Some value).
      { intros child child' old' items' Hwalk Hset. cbn [getWalk].
        rewrite (getProp_arr_set_same _ _ _ _ Hset).
        exact (IH _ _ _ Hwalk). }
      destruct (getProp (VArr items) key) as [c|].
      * destruct (isObjectType c).
        -- destruct (setWalk c rest lastKey value) as [[child' old']| |] eqn:Hw;
             try discriminate.
           destruct (arr_set key child' items) as [items'| |] eqn:Hs;
             try discriminate.
           intros [= <- _]. exact (Hdone _ _ _ _ Hw Hs).
        -- destruct (arr_set key (VObj []) items); try discriminate.
           destruct (setWalk (VObj []) rest lastKey value)
             as [[child' old']| |] eqn:Hw; try discriminate.
           destruct (arr_set key child' items) as [items'| |] eqn:Hs;
             try discriminate.
           intros [= <- _]. exact (Hdone _ _ _ _ Hw Hs).
      * destruct (arr_set key (VObj []) items); try discriminate.
        destruct (setWalk (VObj []) rest lastKey value)
          as [[child' old']| |] eqn:Hw; try discriminate.
        destruct (arr_set key child' items) as [items'| |] eqn:Hs;
          try discriminate.
        intros [= <- _]. exact (Hdone _ _ _ _ Hw Hs).
    + (* object *)
      destruct (String.eqb key "__proto__"); [discriminate|]. cbv zeta.
      match goal with
      | |- context [setWalk ?child rest lastKey value] =>
          destruct (setWalk child rest lastKey value)
            as [[child' old']| |] eqn:Hw; try discriminate
      end.
      intros [= <- _]. cbn [getWalk getProp]. rewrite obj_get_set_same.
      exact (IH _ _ _ Hw).
Qed.

Lemma getWalk_primitive (c : Value) (keys : list string) (d : option Value) :
  isObjectType c = false -> keys <> [] -> getWalk (Some c) keys d = d.
Proof.
  intros Hc Hne. destruct keys as [|k rest]; [congruence|].
  destruct c; try discriminate Hc; reflexivity.
Qed.

Lemma setWalk_old (lastKey : string) (value : Value) :
  forall keys current current' old,
    setWalk current keys lastKey value = Done (current', old) ->
    old = getWalk (Some current) (keys ++ [lastKey]) None.
Proof.
  induction keys as [|key rest IH]; intros current current' old;
    cbn [setWalk app].
  - destruct current as [| | | |items|props]; try discriminate.
    + destruct (arr_set lastKey value items) as [items'| |];
        try discriminate.
      intros [= _ <-]. rewrite getWalk_arr, getWalk_nil. reflexivity.
    + rewrite getWalk_obj, getWalk_nil.
      destruct (obj_get lastKey props) as [o|];
        [|destruct (inherited lastKey); [discriminate|]];
        intros [= _ <-]; reflexivity.
  - assert (Hne : rest ++ [lastKey] <> []) by (destruct rest; discriminate).
    destruct current as [| | | |items|props]; try discriminate.
    + rewrite getWalk_arr.
      destruct (getProp (VArr items) key) as [c|].
      * destruct (isObjectType c) eqn:Hobj.
        -- destruct (setWalk c rest lastKey value) as [[child' old']| |] eqn:Hw;
             try discriminate.
           destruct (arr_set key child' items); try discriminate.
           intros [= _ <-]. exact (IH _ _ _ Hw).
        -- destruct (arr_set key (VObj []) items); try discriminate.
           destruct (setWalk (VObj []) rest lastKey value)
             as [[child' old']| |] eqn:Hw; try discriminate.
           destruct (arr_set key child' items); try discriminate.
           intros [= _ <-]. rewrite (IH _ _ _ Hw).
           rewrite getWalk_empty_object by exact Hne.
           rewrite getWalk_primitive by assumption. reflexivity.
      * destruct (arr_set key (VObj []) items); try discriminate.
        destruct (setWalk (VObj []) rest lastKey value)
          as [[child' old']| |] eqn:Hw; try discriminate.
        destruct (arr_set key child' items); try discriminate.
        intros [= _ <-]. rewrite (IH _ _ _ Hw).
        rewrite getWalk_empty_object by exact Hne.
        rewrite getWalk_None. reflexivity.
    + rewrite getWalk_obj.
      destruct (String.eqb key "__proto__"); [discriminate|]. cbv zeta.
      destruct (obj_get key props) as [c|].
      * destruct (isObjectType c) eqn:Hobj.
        -- destruct (setWalk c rest lastKey value) as [[child' old']| |] eqn:Hw;
             try discriminate.
           intros [= _ <-]. exact (IH _ _ _ Hw).
        -- destruct (setWalk (VObj []) rest lastKey value)
             as [[child' old']| |] eqn:Hw; try discriminate.
           intros [= _ <-]. rewrite (IH _ _ _ Hw).
           rewrite getWalk_empty_object by exact Hne.
           rewrite getWalk_primitive by assumption. reflexivity.
      * destruct (setWalk (VObj []) rest lastKey value)
          as [[child' old']| |] eqn:Hw; try discriminate.
        intros [= _ <-]. rewrite (IH _ _ _ Hw).
        rewrite getWalk_empty_object by exact Hne.
        rewrite getWalk_None. reflexivity.
Qed.

Lemma popLast_split (path : string) :
  let '(keys, lastKey) := popLast (split path) in
  keys ++ [lastKey] = split path.
Proof.
  unfold popLast. symmetry. apply app_removelast_last. apply split_nonempty.
Qed.

Lemma saveToHistory_kept (st st1 : Store) :
  saveToHistory st = Done st1 ->
  state st1 = state st /\ notified st1 = notified st /\
  stateListeners st1 = stateListeners st.
Proof.
  unfold saveToHistory. destruct (deepClone (state st)) as [c| |];
    try discriminate.
  intros [= <-]. unfold pushHistory. cbv zeta.
  destruct (_ <? _)%nat; auto.
Qed.

(** X23: When [set] returns, [get] of the same path gives the value that
    was set, whatever the default, and every subscriber that the call
    told was told of this path with the new value and, as the old one,
    what [get] gave at the path before the call.  (A call whose path
    leads through [__proto__], or whose old value is a member inherited
    from [Object.prototype], is outside the model and does not count as
    returning.) *)
Theorem set_then_get :
  forall (path : string) (value : Value) (options : SetOptions)
         (st st' : Store),
    set path value options st = Done st' ->
    (forall defaultValue, get path defaultValue st' = Some value) /\
    exists new,
      notified st' = notified st ++ new /\
      Forall (tells (Some value) (get path None st) path) new.
Proof.
  intros path value options st st'. unfold set.
  destruct (if so_history options then saveToHistory st else Done st)
    as [st1| |] eqn:Hsave; try discriminate.
  assert (Hst1 : state st1 = state st /\ notified st1 = notified st).
  { destruct (so_history options).
    - apply saveToHistory_kept in Hsave. tauto.
    - injection Hsave as <-. auto. }
  destruct Hst1 as [Hst1 Hnot1].
  pose proof (popLast_split path) as Hkeys.
  destruct (popLast (split path)) as [keys lastKey].
  destruct (setWalk (state st1) keys lastKey value)
    as [[state' oldValue]| |] eqn:Hwalk; try discriminate.
  unfold validateValue. rewrite andb_false_r.
  pose proof (setWalk_old _ _ _ _ _ _ Hwalk) as Hold.
  rewrite Hkeys, Hst1 in Hold.
  assert (Hget : forall d, get path d (with_state st1 state') = Some value).
  { intros d. unfold get. cbn [state with_state]. rewrite <- Hkeys.
    exact (setWalk_get _ _ d _ _ _ _ Hwalk). }
  destruct (so_notify options).
  - intros Hnotify. apply notifyChange_told in Hnotify.
    destruct Hnotify as (Hs & _ & _ & _ & new & Hn & HP).
    split.
    + intros d. unfold get. rewrite Hs. apply Hget.
    + unfold get. rewrite <- Hold. exists new.
      split; [rewrite Hn; cbn [notified with_state]; rewrite Hnot1; reflexivity
             | exact HP].
  - intros [= <-]. split; [exact Hget|].
    exists []. rewrite app_nil_r. split; [exact Hnot1 | constructor].
Qed.

Lemma set_then_get_witness :
  let path := "farm.plots.0.state"%string in
  exists st',
    set path (VStr "planted") defaultOptions StoreScenario.defaultStore
      = Done st' /\
    (forall defaultValue, get path defaultValue st' = Some (VStr "planted")) /\
    exists new,
      notified st' = notified StoreScenario.defaultStore ++ new /\
      Forall (tells (Some (VStr "planted"))
                (get path None StoreScenario.defaultStore) path) new.
Proof.
  eexists. split; [vm_compute; reflexivity|].
  apply (set_then_get "farm.plots.0.state" (VStr "planted") defaultOptions
           StoreScenario.defaultStore).
  vm_compute. reflexivity.
Defined.



(** *** Subscribing and unsubscribing *)






(** *** The history *)





(** *** Copies *)
















(** *** What [undo] restores *)




(** *** Subscriptions for one notification *)

Local Open Scope nat_scope.

Lemma countId_hasId_false (id : nat) (l : list Subscription) :
  hasId id l = false -> countId id l = 0.
Proof.
  unfold hasId, countId. induction l as [|x l IH]; cbn; [reflexivity|].
  intros H. apply orb_false_iff in H. destruct H as [Hx Hl].
  rewrite Hx. exact (IH Hl).
Qed.

Lemma countId_splice_same (id : nat) (l : list Subscription) :
  hasId id l = true -> S (countId id (spliceId id l)) = countId id l.
Proof.
  unfold hasId, countId. induction l as [|x l IH]; cbn; [discriminate|].
  destruct (Nat.eqb (sub_id x) id) eqn:Hx; cbn; [reflexivity|].
  intros H. rewrite Hx. exact (IH H).
Qed.

Lemma countId_splice_other (id k : nat) (l : list Subscription) :
  k <> id -> countId id (spliceId k l) = countId id l.
Proof.
  intros Hne. unfold countId. induction l as [|x l IH]; cbn; [reflexivity|].
  destruct (Nat.eqb (sub_id x) k) eqn:Hk.
  - apply Nat.eqb_eq in Hk.
    assert (Hx : Nat.eqb (sub_id x) id = false)
      by (apply Nat.eqb_neq; congruence).
    rewrite Hx. reflexivity.
  - cbn. destruct (Nat.eqb (sub_id x) id); cbn; rewrite IH; reflexivity.
Qed.

Lemma occ_unsubscribeIn_other (id k : nat) :
  k <> id ->
  forall m m', unsubscribeIn k m = Some m' -> occ id m' = occ id m.
Proof.
  intros Hne. induction m as [|[p l] m IH]; intros m';
    cbn [unsubscribeIn occ]; [discriminate|].
  destruct (hasId k l).
  - pose proof (countId_splice_other id k l Hne) as Hc.
    destruct (spliceId k l) as [|y rest] eqn:Hs; intros [= <-]; cbn [occ].
    + change (countId id []) with 0 in Hc. lia.
    + lia.
  - destruct (unsubscribeIn k m) as [m1|]; [|discriminate].
    intros [= <-]. cbn [occ]. rewrite (IH m1 eq_refl). reflexivity.
Qed.

Lemma occ_unsubscribeIn_same (id : nat) :
  forall m,
    match unsubscribeIn id m with
    | Some m' => S (occ id m') = occ id m
    | None => occ id m = 0
    end.
Proof.
  induction m as [|[p l] m IH]; cbn [unsubscribeIn occ]; [reflexivity|].
  destruct (hasId id l) eqn:Hl.
  - pose proof (countId_splice_same id l Hl) as Hc.
    destruct (spliceId id l) as [|y rest] eqn:Hs; cbn [occ].
    + change (countId id []) with 0 in Hc. lia.
    + lia.
  - pose proof (countId_hasId_false id l Hl) as Hz.
    destruct (unsubscribeIn id m) as [m1|]; cbn [occ]; lia.
Qed.

Lemma unsubscribe_occ (id k : nat) (st : Store) :
  occ id (stateListeners (snd (unsubscribe k st)))
  <= occ id (stateListeners st) /\
  (k = id -> occ id (stateListeners st) <= 1 ->
   occ id (stateListeners (snd (unsubscribe k st))) = 0).
Proof.
  unfold unsubscribe. destruct (Nat.eq_dec k id) as [->|Hne].
  - pose proof (occ_unsubscribeIn_same id (stateListeners st)) as H.
    destruct (unsubscribeIn id (stateListeners st)) as [m'|];
      cbn [snd stateListeners with_listeners]; split; lia.
  - destruct (unsubscribeIn k (stateListeners st)) as [m'|] eqn:Hu;
      cbn [snd stateListeners with_listeners];
      [rewrite (occ_unsubscribeIn_other id k Hne _ _ Hu)|]; split;
      try lia; congruence.
Qed.

Lemma fold_unsubscribe_occ (id : nat) (ids : list nat) :
  forall st,
    let st' :=
      List.fold_left (fun acc k => snd (unsubscribe k acc)) ids st in
    occ id (stateListeners st') <= occ id (stateListeners st) /\
    (In id ids -> occ id (stateListeners st) <= 1 ->
     occ id (stateListeners st') = 0).
Proof.
  induction ids as [|k ids IH]; intros st; cbn [List.fold_left].
  - split; [lia | intros []].
  - destruct (IH (snd (unsubscribe k st))) as [Hle Hzero].
    destruct (unsubscribe_occ id k st) as [Hle1 Hzero1].
    split; [lia|].
    intros [-> | Hin] Hone.
    + specialize (Hzero1 eq_refl Hone). lia.
    + apply Hzero; [exact Hin | lia].
Qed.

Lemma notifyLoop_listeners listeners newValue oldValue path :
  forall st,
    stateListeners (fst (notifyLoop listeners newValue oldValue path st))
    = stateListeners st.
Proof.
  induction listeners as [|x listeners IH]; intros st; cbn [notifyLoop];
    [reflexivity|].
  destruct (match sub_filter x with Some f => _ | None => false end);
    [apply IH|].
  specialize (IH (notify st
                    {| n_subscription := sub_id x;
                       n_callback := sub_callback x;
                       n_newValue := newValue; n_oldValue := oldValue;
                       n_path := path |})).
  destruct (notifyLoop listeners newValue oldValue path _) as [st2 toRemove].
  destruct (negb (sub_throws x) && sub_once x); exact IH.
Qed.

Lemma notifyLoop_once (sub : Subscription) newValue oldValue path :
  sub_once sub = true -> sub_throws sub = false -> sub_filter sub = None ->
  forall listeners st,
    In sub listeners ->
    In (sub_id sub) (snd (notifyLoop listeners newValue oldValue path st)) /\
    In {| n_subscription := sub_id sub; n_callback := sub_callback sub;
          n_newValue := newValue; n_oldValue := oldValue; n_path := path |}
       (notified (fst (notifyLoop listeners newValue oldValue path st))).
Proof.
  intros Honce Hthrows Hfilter.
  induction listeners as [|x listeners IH]; intros st Hin; [destruct Hin|].
  cbn [notifyLoop].
  destruct Hin as [-> | Hin].
  - rewrite Hfilter, Hthrows, Honce. cbn [negb andb].
    pose proof (notifyLoop_told listeners newValue oldValue path
                  (notify st
                     {| n_subscription := sub_id sub;
                        n_callback := sub_callback sub;
                        n_newValue := newValue; n_oldValue := oldValue;
                        n_path := path |})) as Htold.
    destruct (notifyLoop listeners newValue oldValue path _)
      as [st2 toRemove].
    cbn [fst snd] in *. split; [left; reflexivity|].
    destruct Htold as (_ & _ & _ & _ & new & -> & _).
    cbn [notified notify]. apply in_app_iff. left.
    apply in_app_iff. right. left. reflexivity.
  - destruct (match sub_filter x with Some f => _ | None => false end);
      [apply IH; exact Hin|].
    specialize (IH (notify st
                      {| n_subscription := sub_id x;
                         n_callback := sub_callback x;
                         n_newValue := newValue; n_oldValue := oldValue;
                         n_path := path |}) Hin).
    destruct (notifyLoop listeners newValue oldValue path _)
      as [st2 toRemove].
    cbn [fst snd] in *.
    destruct (negb (sub_throws x) && sub_once x);
      [split; [right|]; apply IH | exact IH].
Qed.

Lemma notifyListeners_occ (id : nat) listeners newValue oldValue path
    (st : Store) :
  occ id (stateListeners (notifyListeners listeners newValue oldValue path st))
  <= occ id (stateListeners st).
Proof.
  unfold notifyListeners.
  pose proof (notifyLoop_listeners listeners newValue oldValue path st) as Hl.
  destruct (notifyLoop listeners newValue oldValue path st) as [st1 ids].
  cbn [fst] in Hl. rewrite <- Hl.
  apply (fold_unsubscribe_occ id ids st1).
Qed.

Lemma notifyWildcards_occ (id : nat) listenerPaths path newValue oldValue :
  forall st st',
    notifyWildcards listenerPaths path newValue oldValue st = Done st' ->
    occ id (stateListeners st') <= occ id (stateListeners st).
Proof.
  induction listenerPaths as [|p rest IH]; intros st st'; cbn [notifyWildcards].
  - intros [= <-]. lia.
  - destruct (listeners_get p (stateListeners st)) as [listeners|];
      [|apply IH].
    destruct (includesStar p); [|apply IH].
    destruct (pathMatches path p) as [[|]|]; [| apply IH | discriminate].
    intros H. apply IH in H.
    pose proof (notifyListeners_occ id listeners newValue oldValue path st).
    lia.
Qed.

Lemma listeners_get_set_same (path : string) (v : list Subscription) :
  forall m, listeners_get path (listeners_set path v m) = Some v.
Proof.
  induction m as [|[k l] m IH]; cbn.
  - rewrite String.eqb_refl. reflexivity.
  - destruct (String.eqb k path) eqn:Hk; cbn; rewrite Hk;
      [reflexivity | exact IH].
Qed.

Lemma countId_snoc (sub : Subscription) (l : list Subscription) :
  countId (sub_id sub) (l ++ [sub]) = S (countId (sub_id sub) l).
Proof.
  unfold countId. rewrite List.filter_app, length_app. cbn.
  rewrite Nat.eqb_refl. cbn. lia.
Qed.

Lemma occ_listeners_set (path : string) (sub : Subscription) :
  forall m,
    occ (sub_id sub)
      (listeners_set path (default [] (listeners_get path m) ++ [sub]) m)
    = S (occ (sub_id sub) m).
Proof.
  induction m as [|[k l] m IH]; cbn [listeners_get listeners_set occ].
  - cbn. rewrite Nat.eqb_refl. reflexivity.
  - destruct (String.eqb k path); cbn [occ default from_option id].
    + rewrite countId_snoc. lia.
    + rewrite IH. lia.
Qed.

Local Close Scope nat_scope.

(** X28: A subscription made with [once], with no filter and a callback
    that does not throw, ends with its first notification: when its id
    was not in the store before, a [set] of its path that returns tells it
    of the change, with the new value and the value [get] gave before,
    and afterwards [unsubscribe] finds nothing under its id. *)
Theorem once_subscription_ends :
  forall (path : string) (sub : Subscription) (value : Value)
         (st st' : Store),
    fst (unsubscribe (sub_id sub) st) = false ->
    sub_once sub = true -> sub_throws sub = false -> sub_filter sub = None ->
    set path value defaultOptions (snd (subscribe path sub st)) = Done st' ->
    In {| n_subscription := sub_id sub; n_callback := sub_callback sub;
          n_newValue := Some value; n_oldValue := get path None st;
          n_path := path |} (notified st') /\
    unsubscribe (sub_id sub) st' = (false, st').
Proof.
  intros path sub value st st' Hfresh Honce Hthrows Hfilter.
  assert (Hocc0 : occ (sub_id sub) (stateListeners st) = 0%nat).
  { pose proof (occ_unsubscribeIn_same (sub_id sub) (stateListeners st)) as H.
    unfold unsubscribe in Hfresh.
    destruct (unsubscribeIn (sub_id sub) (stateListeners st));
      [discriminate Hfresh | exact H]. }
  set (m1 := listeners_set path
               (default [] (listeners_get path (stateListeners st)) ++ [sub])
               (stateListeners st)).
  assert (Hsub : state (snd (subscribe path sub st)) = state st /\
                 stateListeners (snd (subscribe path sub st)) = m1).
  { unfold subscribe. cbn [snd]. destruct (sub_immediate sub);
      split; reflexivity. }
  destruct Hsub as [Hs0 Hm0].
  generalize dependent (snd (subscribe path sub st)). intros st0 Hs0 Hm0.
  unfold set. cbn [so_history so_validate so_notify defaultOptions].
  destruct (saveToHistory st0) as [st1| |] eqn:Hsave; try discriminate.
  destruct (saveToHistory_kept _ _ Hsave) as (Hs1 & _ & Hl1).
  pose proof (popLast_split path) as Hkeys.
  destruct (popLast (split path)) as [keys lastKey].
  rewrite Hs1, Hs0.
  destruct (setWalk (state st) keys lastKey value)
    as [[state' oldValue]| |] eqn:Hwalk; try discriminate.
  unfold validateValue. cbn [negb andb].
  pose proof (setWalk_old _ _ _ _ _ _ Hwalk) as Hold. rewrite Hkeys in Hold.
  change (getWalk (Some (state st)) (split path) None)
    with (get path None st) in Hold. subst oldValue.
  set (st2 := with_state st1 state').
  assert (Hm2 : stateListeners st2 = m1).
  { subst st2. cbn [stateListeners with_state]. rewrite Hl1. exact Hm0. }
  unfold notifyChange. rewrite Hm2.
  subst m1. rewrite listeners_get_set_same.
  set (specific := default [] (listeners_get path (stateListeners st)) ++ [sub]).
  set (st3 := notifyListeners specific (Some value) (get path None st) path st2).
  intros Hwild.
  (* the subscription is told, and removed, by the first round *)
  assert (H3 : In {| n_subscription := sub_id sub;
                     n_callback := sub_callback sub;
                     n_newValue := Some value;
                     n_oldValue := get path None st; n_path := path |}
                  (notified st3) /\
               occ (sub_id sub) (stateListeners st3) = 0%nat).
  { subst st3. unfold notifyListeners.
    pose proof (notifyLoop_once sub (Some value) (get path None st) path
                  Honce Hthrows Hfilter specific st2) as Honce'.
    pose proof (notifyLoop_listeners specific (Some value)
                  (get path None st) path st2) as Hl.
    destruct (notifyLoop specific (Some value) (get path None st) path st2)
      as [st1' ids].
    cbn [fst snd] in *.
    destruct Honce' as [Hid Hnot];
      [subst specific; apply in_app_iff; right; left; reflexivity|].
    destruct (fold_unsubscribe_occ (sub_id sub) ids st1') as [_ Hzero].
    split.
    - assert (Htold : forall ks s,
        exists new,
          notified (List.fold_left (fun acc k => snd (unsubscribe k acc)) ks s)
          = notified s ++ new).
      { induction ks as [|k ks IHk]; intros s; cbn [List.fold_left].
        - exists []. rewrite app_nil_r. reflexivity.
        - destruct (IHk (snd (unsubscribe k s))) as (new & ->).
          destruct (unsubscribe_told (fun _ => True) k s)
            as (_ & _ & _ & _ & new' & -> & _).
          exists (new' ++ new). rewrite app_assoc. reflexivity. }
      destruct (Htold ids st1') as (new & ->).
      apply in_app_iff. left. exact Hnot.
    - apply Hzero; [exact Hid|].
      rewrite Hl, Hm2, occ_listeners_set, Hocc0. lia. }
  destruct H3 as [Hnot3 Hocc3].
  pose proof (notifyWildcards_occ (sub_id sub) _ _ _ _ _ _ Hwild) as Hocc.
  apply notifyWildcards_told in Hwild.
  destruct Hwild as (_ & _ & _ & _ & new & Hn & _).
  split.
  - rewrite Hn. apply in_app_iff. left. exact Hnot3.
  - unfold unsubscribe.
    pose proof (occ_unsubscribeIn_same (sub_id sub) (stateListeners st')) as H.
    destruct (unsubscribeIn (sub_id sub) (stateListeners st'));
      [lia | reflexivity].
Qed.

Lemma once_subscription_ends_witness :
  let sub :=
    {| sub_id := 5; sub_callback := 15; sub_throws := false;
       sub_once := true; sub_immediate := false; sub_deep := false;
       sub_filter := None |} in
  let st := newStore StoreScenario.abcTree in
  exists st',
    set "a.b.c" (VNum 2) defaultOptions (snd (subscribe "a.b.c" sub st))
      = Done st' /\
    In {| n_subscription := 5; n_callback := 15;
          n_newValue := Some (VNum 2); n_oldValue := get "a.b.c" None st;
          n_path := "a.b.c" |} (notified st') /\
    unsubscribe 5 st' = (false, st').
Proof.
  cbv zeta. eexists. split; [vm_compute; reflexivity|].
  apply (once_subscription_ends "a.b.c"
           {| sub_id := 5; sub_callback := 15; sub_throws := false;
              sub_once := true; sub_immediate := false; sub_deep := false;
              sub_filter := None |}
           (VNum 2) (newStore StoreScenario.abcTree)).
  - reflexivity.
  - reflexivity.
  - reflexivity.
  - reflexivity.
  - vm_compute. reflexivity.
Defined.

(** *** Defaults *)

Lemma getWalk_default (keys : list string) (d : option Value) :
  forall current,
    getWalk current keys d
    = match getWalk current keys None with
      | Some v => Some v
      | None => d
      end.
Proof.
  induction keys as [|key rest IH]; intros current; cbn [getWalk].
  - destruct current; reflexivity.
  - destruct current as [[| | | |items|props]|]; try reflexivity; apply IH.
Qed.

(** X30: The default of [get] stands in exactly when the path leads to
    nothing: [get] with a default returns what [get] without one returns
    whenever that is a value, [null] included, and the default
    otherwise. *)
Theorem get_default_only_when_undefined :
  forall (path : string) (defaultValue : option Value) (st : Store),
    get path defaultValue st
    = match get path None st with
      | Some v => Some v
      | None => defaultValue
      end.
Proof. intros. unfold get. apply getWalk_default. Qed.

(** *** Patterns *)

Lemma pathMatches_by_segments_witness :
  pathMatches "farm.plots.3" "farm.*.3"
  = Some (matchesBySegments "farm.plots.3" "farm.*.3").
Proof.
  apply pathMatches_by_segments.
  - vm_compute. reflexivity.
  - vm_compute. apply le_n.
Defined.

End StateManagerLaws.
